(** * mlops-qa-system: the retrieval core, embedded and verified

    A shallow embedding of the retrieval pipeline of the question-answering
    service: text cleaning, chunking, keywords and word overlap
    ([src/utils/text_processing.py]), the FAISS-backed vector store
    ([src/embedding/vector_database.py]), cosine similarity
    ([src/embedding/embedding_model.py]), the indexing and search pipeline
    ([src/embedding/embedding_pipeline.py]), the prompts
    ([src/rag/prompt_manager.py]), the calls of the language model
    ([src/rag/llm_model.py]), the question-answering coordinator
    ([src/rag/rag_pipeline.py]) and the handler of the question endpoint
    ([src/api/endpoints.py]).

    Conventions.
    - A Python [str] is a [list ascii]; the characters are the code points
      below 256, classified as Python classifies them ([str.isspace],
      [str.isalnum]).
    - A Python [int] is a [Z]; [len] is [Z.of_nat (length _)].
    - A Python [float] is a primitive binary64 [float].
    - A call that can raise returns a [result]; a method that mutates its
      object passes the object's state explicitly. *)

From Stdlib Require Import String Ascii ZArith NArith Bool Lia Arith List.
From Stdlib Require Import DecimalString Permutation Sorted.
From Stdlib Require Import PrimFloat.
From Stdlib Require Uint63.
Import ListNotations.

Local Open Scope list_scope.
Local Open Scope bool_scope.

(* ================================================================== *)
(** * Python primitives *)
(* ================================================================== *)

Module Py.

Definition str := list ascii.

(** A string literal. *)
Definition lit (s : string) : str := list_ascii_of_string s.

Definition len {A : Type} (l : list A) : Z := Z.of_nat (length l).

Definition nl : ascii := ascii_of_nat 10.

Definition code (c : ascii) : N := N_of_ascii c.

Definition between (lo hi : N) (c : ascii) : bool :=
  (lo <=? code c)%N && (code c <=? hi)%N.

(** [str.isspace] on one character, which is also the class [\s] of [re]. *)
Definition is_space (c : ascii) : bool :=
  between 9 13 c || between 28 32 c || (code c =? 133)%N || (code c =? 160)%N.

(** [str.isalnum] on one character. *)
Definition is_alnum (c : ascii) : bool :=
  between 48 57 c || between 65 90 c || between 97 122 c
  || (code c =? 170)%N || between 178 179 c || (code c =? 181)%N
  || between 185 186 c || between 188 190 c
  || between 192 214 c || between 216 246 c || between 248 255 c.

(** The class [\w] of [re]. *)
Definition is_word (c : ascii) : bool := is_alnum c || (code c =? 95)%N.

Definition nonempty {A : Type} (l : list A) : bool :=
  match l with [] => false | _ :: _ => true end.

(** Truthiness of an optional integer, as in [x or default]. *)
Definition or_default (x : option Z) (d : Z) : Z :=
  match x with
  | Some v => if (v =? 0)%Z then d else v
  | None => d
  end.

Fixpoint drop_while {A : Type} (f : A -> bool) (l : list A) : list A :=
  match l with
  | [] => []
  | x :: l' => if f x then drop_while f l' else l
  end.

Definition lstrip (s : str) : str := drop_while is_space s.
Definition rstrip (s : str) : str := rev (drop_while is_space (rev s)).

(** [s.strip()] *)
Definition strip (s : str) : str := rstrip (lstrip s).

(** [s.split()]: the maximal runs of characters that are not whitespace. *)
Fixpoint split (s : str) : list str :=
  match s with
  | [] => []
  | c :: s' =>
      if is_space c then split s'
      else match s' with
           | [] => [[c]]
           | c' :: _ =>
               if is_space c' then [c] :: split s'
               else match split s' with
                    | w :: ws => (c :: w) :: ws
                    | [] => [[c]]
                    end
           end
  end.

(** [sep.join(parts)] *)
Fixpoint join (sep : str) (parts : list str) : str :=
  match parts with
  | [] => []
  | [p] => p
  | p :: ps => p ++ sep ++ join sep ps
  end.

Definition space : str := [" "%char].

(** [l[n:]] for a possibly negative [n]. *)
Definition slice_from {A : Type} (n : Z) (l : list A) : list A :=
  if (n <? 0)%Z then skipn (Z.to_nat (Z.max (len l + n) 0)) l
  else skipn (Z.to_nat n) l.

(** [l[:n]] for a possibly negative [n]. *)
Definition slice_to {A : Type} (n : Z) (l : list A) : list A :=
  if (n <? 0)%Z then firstn (Z.to_nat (Z.max (len l + n) 0)) l
  else firstn (Z.to_nat n) l.

(** [c.lower()] on one character: the capital letters of ASCII and of
    Latin-1 move to their small letters, 32 code points up. *)
Definition lower_char (c : ascii) : ascii :=
  if between 65 90 c || between 192 214 c || between 216 222 c
  then ascii_of_N (code c + 32)
  else c.

(** [s.lower()] *)
Definition lower (s : str) : str := map lower_char s.

(** [str(n)] for an integer. *)
Definition str_of_Z (n : Z) : str :=
  list_ascii_of_string (NilZero.string_of_int (Z.to_int n)).

(** [s.startswith(p)] *)
Fixpoint startswith (s p : str) : bool :=
  match p, s with
  | [], _ => true
  | _ :: _, [] => false
  | a :: p', b :: s' => Ascii.eqb a b && startswith s' p'
  end.

(** [sub in s] *)
Fixpoint contains (sub s : str) : bool :=
  startswith s sub
  || match s with
     | [] => false
     | _ :: s' => contains sub s'
     end.

(** Exceptions (instances of [Exception]) with their message, [str(e)]. *)
Inductive exn : Type :=
| ValueError (msg : str)
| IndexError (msg : str)
| KeyError (msg : str)
| LibraryError (msg : str).

Definition message (e : exn) : str :=
  match e with
  | ValueError m | IndexError m | KeyError m | LibraryError m => m
  end.

Inductive result (A : Type) : Type :=
| Ok (a : A)
| Raise (e : exn).
Arguments Ok {A} a.
Arguments Raise {A} e.

(** [l[i]] on a list: a negative index counts from the end. *)
Definition index {A : Type} (l : list A) (i : Z) : result A :=
  let j := if (i <? 0)%Z then (len l + i)%Z else i in
  if (j <? 0)%Z then Raise (IndexError (lit "list index out of range"))
  else match nth_error l (Z.to_nat j) with
       | Some x => Ok x
       | None => Raise (IndexError (lit "list index out of range"))
       end.

Fixpoint str_eqb (a b : str) : bool :=
  match a, b with
  | [], [] => true
  | x :: a', y :: b' => Ascii.eqb x y && str_eqb a' b'
  | _, _ => false
  end.

(** The values the metadata of a document holds. *)
Inductive value : Type :=
| VStr (s : str)
| VInt (n : Z).

(** [str(v)] *)
Definition str_of_value (v : value) : str :=
  match v with
  | VStr s => s
  | VInt n => str_of_Z n
  end.

(** A [dict] with string keys, in insertion order. *)
Definition dict : Type := list (str * value).

(** [d.get(key, default)] *)
Fixpoint get (d : dict) (key : str) (default : value) : value :=
  match d with
  | [] => default
  | (k, v) :: d' => if str_eqb k key then v else get d' key default
  end.

(** [d.get(key, default)] and [d[key] = v] on a dictionary with values of
    any type: a key that is present keeps its place, a new key goes last. *)
Fixpoint get_item {V : Type} (d : list (str * V)) (key : str) (default : V)
    : V :=
  match d with
  | [] => default
  | (k, v) :: d' => if str_eqb k key then v else get_item d' key default
  end.

Fixpoint set_item {V : Type} (d : list (str * V)) (key : str) (v : V)
    : list (str * V) :=
  match d with
  | [] => [(key, v)]
  | (k, v') :: d' =>
      if str_eqb k key then (k, v) :: d' else (k, v') :: set_item d' key v
  end.

(** [w in words] *)
Definition member (w : str) (words : list str) : bool :=
  existsb (str_eqb w) words.

(** [enumerate(l)], counting from [start]. *)
Fixpoint enumerate_from {A : Type} (start : Z) (l : list A) : list (Z * A) :=
  match l with
  | [] => []
  | x :: l' => (start, x) :: enumerate_from (start + 1) l'
  end.

(** [range(n)] *)
Definition range (n : nat) : list Z := map Z.of_nat (seq 0 n).

End Py.

(* ================================================================== *)
(** * The fragment of [re] that the patterns of the source use *)
(* ================================================================== *)

Module Re.
Import Py.

(** An item of a character class: a range [a-b] or one character. *)
Inductive item : Type :=
| Range (lo hi : ascii)
| One (c : ascii).

Definition in_item (c : ascii) (i : item) : bool :=
  match i with
  | Range lo hi => between (code lo) (code hi) c
  | One d => Ascii.eqb c d
  end.

Definition class (items : list item) (c : ascii) : bool :=
  existsb (in_item c) items.

Definition not_class (items : list item) (c : ascii) : bool :=
  negb (class items c).

Inductive regex : Type :=
| Eps
| Chr (p : ascii -> bool)
| Seq (r1 r2 : regex)
| Alt (r1 r2 : regex)
| Opt (r : regex)
| Plus (r : regex)
| WordBoundary.

(** A literal string. *)
Fixpoint word (s : str) : regex :=
  match s with
  | [] => Eps
  | c :: s' => Seq (Chr (Ascii.eqb c)) (word s')
  end.

(** [r{2,}] *)
Definition two_or_more (r : regex) : regex := Seq r (Plus r).

(** A position: the character before it, and the input that remains. *)
Definition pos : Type := option ascii * str.

Definition word_before (p : pos) : bool :=
  match fst p with Some c => is_word c | None => false end.

Definition word_after (p : pos) : bool :=
  match snd p with c :: _ => is_word c | [] => false end.

(** The backtracking matcher: alternatives in order, repetition greedy; the
    continuation [k] is the rest of the pattern.  [fuel] bounds the
    iterations of a repetition; an iteration that consumes nothing ends
    it, so the length of the input is enough. *)
Fixpoint run (fuel : nat) : regex -> pos -> (pos -> option pos) -> option pos :=
  fix go (r : regex) (p : pos) (k : pos -> option pos) {struct r} : option pos :=
    match r with
    | Eps => k p
    | Chr f =>
        match snd p with
        | c :: s => if f c then k (Some c, s) else None
        | [] => None
        end
    | Seq r1 r2 => go r1 p (fun p' => go r2 p' k)
    | Alt r1 r2 =>
        match go r1 p k with
        | Some e => Some e
        | None => go r2 p k
        end
    | Opt r1 =>
        match go r1 p k with
        | Some e => Some e
        | None => k p
        end
    | Plus r1 =>
        go r1 p (fun p' =>
          match fuel with
          | O => k p'
          | S fuel' =>
              if (length (snd p') <? length (snd p))%nat then
                match run fuel' (Plus r1) p' k with
                | Some e => Some e
                | None => k p'
                end
              else k p'
          end)
    | WordBoundary =>
        if xorb (word_before p) (word_after p) then k p else None
    end.

(** The length of the match of [r] at the start of [s], if there is one. *)
Definition match_len (r : regex) (prev : option ascii) (s : str) : option nat :=
  match run (S (length s)) r (prev, s) (fun e => Some e) with
  | Some (_, rest) => Some (length s - length rest)%nat
  | None => None
  end.

(** [re.sub(r, rep, s)], scanning from the left; [skip] characters of a
    match found earlier are still to be dropped. *)
Fixpoint sub_from (r : regex) (rep : str) (prev : option ascii) (skip : nat)
    (s : str) : str :=
  match s with
  | [] => []
  | c :: s' =>
      match skip with
      | S n => sub_from r rep (Some c) n s'
      | O =>
          match match_len r prev s with
          | Some (S n) => rep ++ sub_from r rep (Some c) n s'
          | _ => c :: sub_from r rep (Some c) O s'
          end
      end
  end.

Definition sub (r : regex) (rep : str) (s : str) : str :=
  sub_from r rep None 0 s.

(** [re.findall(r, s)] for a pattern without groups: the matches from the
    left, none overlapping another. *)
Fixpoint findall_from (r : regex) (prev : option ascii) (skip : nat)
    (s : str) : list str :=
  match s with
  | [] => []
  | c :: s' =>
      match skip with
      | S n => findall_from r (Some c) n s'
      | O =>
          match match_len r prev s with
          | Some (S n) => firstn (S n) s :: findall_from r (Some c) n s'
          | _ => findall_from r (Some c) O s'
          end
      end
  end.

Definition findall (r : regex) (s : str) : list str :=
  findall_from r None 0 s.

(** [re.split(r, s)]; [cur] is the piece being read. *)
Fixpoint split_from (r : regex) (prev : option ascii) (skip : nat)
    (cur : str) (s : str) : list str :=
  match s with
  | [] => [cur]
  | c :: s' =>
      match skip with
      | S n => split_from r (Some c) n cur s'
      | O =>
          match match_len r prev s with
          | Some (S n) => cur :: split_from r (Some c) n [] s'
          | _ => split_from r (Some c) O (cur ++ [c]) s'
          end
      end
  end.

Definition split (r : regex) (s : str) : list str :=
  split_from r None 0 [] s.

End Re.

(* ================================================================== *)
(** * [src/utils/text_processing.py] *)
(* ================================================================== *)

Module TextProcessing.
Import Py Re.

(** [r'<[^>]+>'] *)
Definition html_tag : regex :=
  Seq (Chr (Ascii.eqb "<"))
      (Seq (Plus (Chr (not_class [One ">"%char])))
           (Chr (Ascii.eqb ">"))).

Definition hex_digit : ascii -> bool :=
  class [Range "0" "9"; Range "a" "f"; Range "A" "F"]%char.

(** [r'http[s]?://(?:[a-zA-Z]|[0-9]|[$-_@.&+]|[!*\\(\\),]|(?:%[0-9a-fA-F][0-9a-fA-F]))+'] *)
Definition url : regex :=
  Seq (word (lit "http"))
  (Seq (Opt (Chr (class [One "s"%char])))
  (Seq (word (lit "://"))
       (Plus
          (Alt (Chr (class [Range "a" "z"; Range "A" "Z"]%char))
          (Alt (Chr (class [Range "0" "9"]%char))
          (Alt (Chr (class [Range "$" "_"; One "@"; One "."; One "&"; One "+"]%char))
          (Alt (Chr (class [One "!"; One "*"; One "\"; One "("; One "\"; One ")"; One ","]%char))
               (Seq (Chr (Ascii.eqb "%"))
                    (Seq (Chr hex_digit) (Chr hex_digit)))))))))).

(** [r'\b[A-Za-z0-9._%+-]+@[A-Za-z0-9.-]+\.[A-Z|a-z]{2,}\b'] *)
Definition email : regex :=
  Seq WordBoundary
  (Seq (Plus (Chr (class [Range "A" "Z"; Range "a" "z"; Range "0" "9";
                          One "."; One "_"; One "%"; One "+"; One "-"]%char)))
  (Seq (Chr (Ascii.eqb "@"))
  (Seq (Plus (Chr (class [Range "A" "Z"; Range "a" "z"; Range "0" "9";
                          One "."; One "-"]%char)))
  (Seq (Chr (Ascii.eqb "."))
  (Seq (two_or_more (Chr (class [Range "A" "Z"; One "|"; Range "a" "z"]%char)))
       WordBoundary))))).

(** [r'\s+'] *)
Definition whitespace : regex := Plus (Chr is_space).

(** [r'[.!?]+'] *)
Definition sentence_end : regex :=
  Plus (Chr (class [One "."; One "!"; One "?"]%char)).

Section WithUnescape.

(** The substitution of character references that [html.unescape] performs
    on a text holding an ampersand ([_charref.sub(_replace_charref, s)], driven
    by the HTML5 entity table of the Python library). *)
Variable charref_sub : str -> str.

(** [html.unescape(s)] *)
Definition html_unescape (s : str) : str :=
  if existsb (Ascii.eqb "&") s then charref_sub s else s.

Definition clean_text (text : str)
    (remove_html remove_urls remove_emails normalize_whitespace : bool) : str :=
  if negb (nonempty text) then []
  else
    let text :=
      if remove_html then html_unescape (sub html_tag [] text) else text in
    let text := if remove_urls then sub url [] text else text in
    let text := if remove_emails then sub email [] text else text in
    let text :=
      if normalize_whitespace then strip (sub whitespace space text) else text in
    text.

(** [sentences = [s.strip() for s in re.split(r'[.!?]+', text) if s.strip()]] *)
Definition sentences_of (text : str) : list str :=
  map strip (filter (fun s => nonempty (strip s)) (Re.split sentence_end text)).

(** The body of the sentence loop on the state [(chunks, current_chunk)]. *)
Definition sentence_step (min_chunk_size max_chunk_size : Z)
    (st : list str * str) (sentence : str) : list str * str :=
  let '(chunks, current_chunk) := st in
  if (len current_chunk + len sentence >? max_chunk_size)%Z
     && nonempty current_chunk
  then
    (if (len current_chunk >=? min_chunk_size)%Z
     then chunks ++ [strip current_chunk] else chunks,
     sentence)
  else
    (chunks,
     if nonempty current_chunk then current_chunk ++ space ++ sentence
     else sentence).

Definition sentence_chunks (min_chunk_size max_chunk_size : Z)
    (sentences : list str) : list str :=
  let '(chunks, current_chunk) :=
    fold_left (sentence_step min_chunk_size max_chunk_size) sentences ([], []) in
  if nonempty current_chunk && (len current_chunk >=? min_chunk_size)%Z
  then chunks ++ [strip current_chunk]
  else chunks.

(** The body of the word loop.  [-chunk_overlap//10] negates first. *)
Definition word_step (chunk_size chunk_overlap : Z)
    (st : list str * str) (word : str) : list str * str :=
  let '(chunks, current_chunk) := st in
  if (len current_chunk + len word + 1 >? chunk_size)%Z
     && nonempty current_chunk
  then
    let overlap_words :=
      slice_from ((- chunk_overlap) / 10)%Z (Py.split current_chunk) in
    (chunks ++ [strip current_chunk],
     join space overlap_words ++ space ++ word)
  else
    (chunks,
     if nonempty current_chunk then current_chunk ++ space ++ word
     else word).

Definition word_chunks (chunk_size chunk_overlap : Z) (words : list str)
    : list str :=
  let '(chunks, current_chunk) :=
    fold_left (word_step chunk_size chunk_overlap) words ([], []) in
  if nonempty current_chunk then chunks ++ [strip current_chunk] else chunks.

Definition chunk_text (text : str)
    (chunk_size chunk_overlap min_chunk_size max_chunk_size : Z) : list str :=
  if negb (nonempty text) then []
  else
    let text := clean_text text true true true true in
    let chunks :=
      sentence_chunks min_chunk_size max_chunk_size (sentences_of text) in
    if (len chunks <=? 1)%Z
    then word_chunks chunk_size chunk_overlap (Py.split text)
    else chunks.

(** The stop words of [extract_keywords]. *)
Definition stop_words : list str :=
  map lit
    ["the"; "a"; "an"; "and"; "or"; "but"; "in"; "on"; "at"; "to"; "for";
     "of"; "with"; "by"; "is"; "are"; "was"; "were"; "be"; "been"; "being";
     "have"; "has"; "had"; "do"; "does"; "did"; "will"; "would"; "could";
     "should"; "may"; "might"; "can"; "this"; "that"; "these"; "those"]%string.

(** [r'\b[a-zA-Z]+\b'] *)
Definition letters : regex :=
  Seq WordBoundary
      (Seq (Plus (Chr (class [Range "a" "z"; Range "A" "Z"]%char)))
           WordBoundary).

(** The body of the counting loop on [word_freq]. *)
Definition count_step (word_freq : list (str * Z)) (word : str)
    : list (str * Z) :=
  if negb (member word stop_words) && (len word >? 2)%Z
  then set_item word_freq word (get_item word_freq word 0 + 1)%Z
  else word_freq.

(** [sorted(items, key=lambda x: x[1], reverse=True)]: the sort is stable,
    so of two words counted equally often the one met first stays first. *)
Fixpoint insert_by_freq (x : str * Z) (l : list (str * Z)) : list (str * Z) :=
  match l with
  | [] => [x]
  | y :: l' =>
      if (snd y <=? snd x)%Z then x :: l else y :: insert_by_freq x l'
  end.

Definition sorted_by_freq (items : list (str * Z)) : list (str * Z) :=
  fold_right insert_by_freq [] items.

Definition extract_keywords (text : str) (max_keywords : Z) : list str :=
  let text := clean_text (lower text) true true true true in
  let words := findall letters text in
  let word_freq := fold_left count_step words [] in
  let sorted_words := sorted_by_freq word_freq in
  map fst (slice_to max_keywords sorted_words).

Definition str_eq_dec : forall a b : str, {a = b} + {a <> b} :=
  list_eq_dec ascii_dec.

(** [set(words)]: the words without repetition.  A set has no order; only
    its size and its members are used. *)
Definition set_of (words : list str) : list str := nodup str_eq_dec words.

Definition intersection (a b : list str) : list str :=
  filter (fun w => member w b) a.

Definition union (a b : list str) : list str := set_of (a ++ b).

(** [len(a) / len(b)], the true division of two lengths. *)
Definition ratio {A : Type} (a b : list A) : float :=
  (of_uint63 (Uint63.of_Z (len a)) / of_uint63 (Uint63.of_Z (len b)))%float.

Definition calculate_text_similarity (text1 text2 : str) : float :=
  let text1 := set_of (Py.split (clean_text (lower text1) true true true true)) in
  let text2 := set_of (Py.split (clean_text (lower text2) true true true true)) in
  if negb (nonempty text1) && negb (nonempty text2) then 1%float
  else if negb (nonempty text1) || negb (nonempty text2) then 0%float
  else ratio (intersection text1 text2) (union text1 text2).

(** [r'[^\w\s\.\,\!\?\;\:]'] *)
Definition special : regex :=
  Chr (fun c =>
         negb (is_word c || is_space c
               || class [One "."; One ","; One "!"; One "?"; One ";"; One ":"]%char
                    c)).

Definition normalize_text (text : str) : str :=
  let text := lower text in
  let text := sub whitespace space text in
  let text := sub special [] text in
  strip text.

End WithUnescape.

End TextProcessing.

(* ================================================================== *)
(** * [src/embedding/vector_database.py] *)
(* ================================================================== *)

Module VectorDatabase.
Import Py.

Definition vec : Type := list float.
Definition matrix : Type := list vec.

Inductive index_kind : Type :=
| IndexFlatIP
| IndexFlatL2.

(** A result of [search_with_metadata]: the dictionary with the keys
    [index], [text], [metadata], [similarity], [distance] and [rank]. *)
Record SearchResult : Type := mkResult {
  r_index : Z;
  r_text : str;
  r_metadata : dict;
  r_similarity : float;
  r_distance : float;
  r_rank : Z
}.

Section WithFaiss.

(** The FAISS library: the index object, [index.add], [index.search] (the
    first row of its two arrays) and [faiss.normalize_L2] on one row. *)
Variable Index : Type.
Variable faiss_add : Index -> matrix -> result Index.
Variable faiss_search : Index -> vec -> Z -> result (list float * list Z).
Variable l2_normalize : vec -> vec.

(** [float(1.0 - distance)] on a distance of the index; the width of the
    subtraction is NumPy's. *)
Variable one_minus : float -> float.

(** The state of a [VectorDatabase] object. *)
Record t : Type := mkDb {
  index_type : index_kind;
  top_k : Z;
  similarity_threshold : float;
  normalize_L2 : bool;
  index : Index;
  documents : list str;
  metadata : list dict
}.

Definition default_metadata (n : nat) : list dict :=
  map (fun i => [(lit "index", VInt i)]) (range n).

(** [add_documents]: the outcome and the state it leaves. *)
Definition add_documents (self : t) (docs : list str) (embeddings : matrix)
    (meta : option (list dict)) : result unit * t :=
  if negb (len docs =? len embeddings)%Z then
    (Raise (ValueError
              (lit "Number of documents must match number of embeddings")),
     self)
  else
    let embeddings :=
      if normalize_L2 self then map l2_normalize embeddings else embeddings in
    match faiss_add (index self) embeddings with
    | Raise e => (Raise e, self)
    | Ok index' =>
        let meta' :=
          match meta with
          | Some m => if nonempty m then m else default_metadata (length docs)
          | None => default_metadata (length docs)
          end in
        (Ok tt,
         mkDb (index_type self) (top_k self) (similarity_threshold self)
              (normalize_L2 self) index'
              (documents self ++ docs) (metadata self ++ meta'))
    end.

Definition search (self : t) (query_embedding : vec) (k : option Z)
    : result (list float * list Z) :=
  let k := or_default k (top_k self) in
  let query_embedding :=
    if normalize_L2 self then l2_normalize query_embedding
    else query_embedding in
  faiss_search (index self) query_embedding k.

Definition get_document (self : t) (i : Z) : result (str * dict) :=
  if (i >=? len (documents self))%Z then
    Raise (IndexError
             (lit "Document index " ++ str_of_Z i ++ lit " out of range"))
  else
    match Py.index (documents self) i with
    | Raise e => Raise e
    | Ok document =>
        match Py.index (metadata self) i with
        | Raise e => Raise e
        | Ok meta => Ok (document, meta)
        end
    end.

(** [get_documents]: the comprehension evaluates [get_document] index by
    index; the first exception leaves it. *)
Fixpoint get_documents (self : t) (indices : list Z)
    : result (list (str * dict)) :=
  match indices with
  | [] => Ok []
  | i :: rest =>
      match get_document self i with
      | Raise e => Raise e
      | Ok entry =>
          match get_documents self rest with
          | Raise e => Raise e
          | Ok entries => Ok (entry :: entries)
          end
      end
  end.

Definition similarity_of (self : t) (distance : float) : float :=
  match index_type self with
  | IndexFlatL2 => one_minus distance
  | IndexFlatIP => distance
  end.

(** The loop of [search_with_metadata] over [enumerate(zip(distances,
    indices))], from position [i] on, with the results so far. *)
Fixpoint collect (self : t) (i : Z) (hits : list (float * Z))
    (results : list SearchResult) : result (list SearchResult) :=
  match hits with
  | [] => Ok results
  | (distance, idx) :: rest =>
      if (idx <? len (documents self))%Z then
        match get_document self idx with
        | Raise e => Raise e
        | Ok (document, meta) =>
            let similarity := similarity_of self distance in
            let result :=
              mkResult idx document meta similarity distance (i + 1) in
            collect self (i + 1) rest
              (if (similarity_threshold self <=? similarity)%float
               then results ++ [result] else results)
        end
      else collect self (i + 1) rest results
  end.

Definition search_with_metadata (self : t) (query_embedding : vec)
    (k : option Z) : result (list SearchResult) :=
  match search self query_embedding k with
  | Raise e => Raise e
  | Ok (distances, indices) => collect self 0 (combine distances indices) []
  end.

End WithFaiss.

Arguments index_type {Index} _.
Arguments top_k {Index} _.
Arguments similarity_threshold {Index} _.
Arguments normalize_L2 {Index} _.
Arguments index {Index} _.
Arguments documents {Index} _.
Arguments metadata {Index} _.
Arguments mkDb {Index} _ _ _ _ _ _ _.
Arguments add_documents {Index} _ _ _ _ _ _.
Arguments search {Index} _ _ _ _ _.
Arguments get_document {Index} _ _.
Arguments get_documents {Index} _ _.
Arguments similarity_of {Index} _ _ _.
Arguments collect {Index} _ _ _ _ _.
Arguments search_with_metadata {Index} _ _ _ _ _ _.

End VectorDatabase.

(* ================================================================== *)
(** * [src/embedding/embedding_model.py] *)
(* ================================================================== *)

Module EmbeddingModel.
Import VectorDatabase.

Local Open Scope float_scope.

(** [np.dot] of two vectors, summed from the left.  NumPy leaves the order
    of the sum to its BLAS; on operands whose products and partial sums are
    exact, as those evaluated below, every order gives this value. *)
Definition dot (a b : vec) : float :=
  fold_left (fun acc xy => acc + fst xy * snd xy) (combine a b) 0.

(** [np.linalg.norm] of a vector. *)
Definition norm (a : vec) : float := PrimFloat.sqrt (dot a a).

Definition similarity (embedding1 embedding2 : vec) : float :=
  let embedding1_norm := map (fun x => x / norm embedding1) embedding1 in
  let embedding2_norm := map (fun x => x / norm embedding2) embedding2 in
  dot embedding1_norm embedding2_norm.

End EmbeddingModel.

(* ================================================================== *)
(** * [src/rag/prompt_manager.py] *)
(* ================================================================== *)

Module PromptManager.
Import Py VectorDatabase.

Section WithFormat.

(** [format(x, ".2f")] *)
Variable fmt2 : float -> str.

(** The formatted text of the result at position [i] of the list. *)
Definition format_result (i : Z) (result : SearchResult) : str :=
  let text := r_text result in
  let meta := r_metadata result in
  let similarity := r_similarity result in
  let source := get meta (lit "source") (VStr (lit "unknown")) in
  let title :=
    get meta (lit "title") (VStr (lit "Document " ++ str_of_Z (i + 1))) in
  lit "[Source: " ++ str_of_value source ++ lit ", Title: "
  ++ str_of_value title ++ lit ", Similarity: " ++ fmt2 similarity
  ++ lit "]" ++ [nl] ++ text ++ [nl].

(** The loop of [format_context] from position [i] on: the parts appended
    until the [break]. *)
Fixpoint context_parts (max_length : Z) (current_length : Z) (i : Z)
    (search_results : list SearchResult) : list str :=
  match search_results with
  | [] => []
  | result :: rest =>
      let formatted_result := format_result i result in
      if (current_length + len formatted_result >? max_length)%Z then []
      else
        formatted_result
        :: context_parts max_length (current_length + len formatted_result)
             (i + 1) rest
  end.

(** [format_context]; [self_max] is [self.max_context_length]. *)
Definition format_context (self_max : Z) (search_results : list SearchResult)
    (max_context_length : option Z) : str :=
  let max_length := or_default max_context_length self_max in
  join [nl] (context_parts max_length 0 0 search_results).

End WithFormat.

(** The settings of a [PromptManager]. *)
Record settings : Type := mkSettings {
  system_prompt : str;
  user_prompt_template : str;
  max_context_length : Z;
  context_window : Z
}.

Section WithTemplate.

(** [template.format(context=context, question=question)] on the template
    of the configuration; it raises on a field it is not given. *)
Variable format_template : str -> str -> str -> result str.

Definition create_qa_prompt (self : settings) (question context : str)
    (include_system_prompt : bool) : result str :=
  let context :=
    if (len context >? max_context_length self)%Z
    then slice_to (max_context_length self) context ++ lit "..."
    else context in
  let prompt :=
    if include_system_prompt && nonempty (system_prompt self)
    then system_prompt self ++ [nl; nl]
    else [] in
  if nonempty (user_prompt_template self) then
    match format_template (user_prompt_template self) context question with
    | Raise e => Raise e
    | Ok body => Ok (prompt ++ body)
    end
  else
    Ok (prompt ++ lit "Context: " ++ context ++ [nl; nl] ++ lit "Question: "
        ++ question ++ [nl; nl] ++ lit "Answer:").

End WithTemplate.

Definition create_summary_prompt (self : settings) (text : str)
    (max_length : option Z) : str :=
  let max_length := or_default max_length (context_window self) in
  let text :=
    if (len text >? max_length)%Z
    then slice_to max_length text ++ lit "..."
    else text in
  lit "Please provide a concise summary of the following text:" ++ [nl; nl]
  ++ text ++ [nl; nl] ++ lit "Summary:".

Definition analysis_instructions : list (str * str) :=
  [(lit "general",
    lit "Please analyze the following text and provide insights:");
   (lit "technical",
    lit "Please provide a technical analysis of the following text:");
   (lit "key_points",
    lit "Please extract the key points from the following text:")].

(** The default of the lookup is [analysis_instructions["general"]], a key
    the dictionary holds. *)
Definition create_analysis_prompt (self : settings) (text analysis_type : str)
    : str :=
  let instruction :=
    get_item analysis_instructions analysis_type
      (get_item analysis_instructions (lit "general") []) in
  let text :=
    if (len text >? max_context_length self)%Z
    then slice_to (max_context_length self) text ++ lit "..."
    else text in
  instruction ++ [nl; nl] ++ text ++ [nl; nl] ++ lit "Analysis:".

Definition create_comparison_prompt (self : settings) (text1 text2 : str)
    : str :=
  let max_length := (max_context_length self / 2)%Z in
  let text1 :=
    if (len text1 >? max_length)%Z
    then slice_to max_length text1 ++ lit "..."
    else text1 in
  let text2 :=
    if (len text2 >? max_length)%Z
    then slice_to max_length text2 ++ lit "..."
    else text2 in
  lit "Please compare the following two texts and highlight the key differences and similarities:"
  ++ [nl; nl] ++ lit "Text 1:" ++ [nl] ++ text1 ++ [nl; nl]
  ++ lit "Text 2:" ++ [nl] ++ text2 ++ [nl; nl] ++ lit "Comparison:".

End PromptManager.
(* ================================================================== *)
(** * [src/embedding/embedding_pipeline.py]: query-time search *)
(* ================================================================== *)

Module EmbeddingPipeline.
Import Py VectorDatabase.

Section WithModel.

Variable Index : Type.
Variable faiss_search : Index -> vec -> Z -> result (list float * list Z).
Variable l2_normalize : vec -> vec.
Variable one_minus : float -> float.

(** [EmbeddingModel.encode_single] on the query: the sentence-transformers
    model, which can raise. *)
Variable encode_single : str -> result vec.

Definition search (vector_db : VectorDatabase.t Index) (query : str)
    (k : option Z) : result (list SearchResult) :=
  match encode_single query with
  | Raise e => Raise e
  | Ok query_embedding =>
      search_with_metadata faiss_search l2_normalize one_minus
        vector_db query_embedding k
  end.

End WithModel.

Arguments search {Index} _ _ _ _ _ _ _.

(** A document handed to [process_documents]: a dictionary read under the
    keys [content] and [metadata], either of which can be missing. *)
Record Document : Type := mkDocument {
  d_content : option str;
  d_metadata : option dict
}.

(** What [process_documents] reports.  The entries that the clock and the
    libraries fill in ([duration_seconds], [embedding_dimension] and
    [index_stats]) are left out. *)
Record Report : Type := mkReport {
  status : str;
  document_count : Z;
  chunk_count : Z;
  index_path : option str
}.

Section WithIndexing.

Variable Index : Type.
Variable faiss_add : Index -> matrix -> result Index.
Variable l2_normalize : vec -> vec.

(** [html.unescape]'s substitution, for [chunk_text]. *)
Variable charref_sub : str -> str.

(** [EmbeddingModel.encode] on the chunks: the rows of the model. *)
Variable encode : list str -> result matrix.

(** [VectorDatabase.save] writes the index and the documents to the disk;
    the store is not changed by it. *)
Variable save : VectorDatabase.t Index -> str -> result unit.

(** [time.strftime("%Y%m%d_%H%M%S")] *)
Variable timestamp : str.

(** The state of an [EmbeddingPipeline]: the chunking configuration and the
    vector store. *)
Record t : Type := mkPipeline {
  chunk_size : Z;
  chunk_overlap : Z;
  min_chunk_size : Z;
  max_chunk_size : Z;
  vector_db : VectorDatabase.t Index
}.

(** [chunk_meta = metadata.copy()] followed by the [update]. *)
Definition chunk_meta (metadata : dict) (doc_idx chunk_idx total_chunks : Z)
    (chunk : str) : dict :=
  set_item
    (set_item
       (set_item
          (set_item metadata (lit "document_index") (VInt doc_idx))
          (lit "chunk_index") (VInt chunk_idx))
       (lit "total_chunks") (VInt total_chunks))
    (lit "chunk_size") (VInt (len chunk)).

(** The body of the loop over the chunks of one document. *)
Definition chunk_step (metadata : dict) (doc_idx total_chunks : Z)
    (st : list str * list dict) (ic : Z * str) : list str * list dict :=
  let '(chunks, chunk_metadata) := st in
  let '(chunk_idx, chunk) := ic in
  (chunks ++ [chunk],
   chunk_metadata
   ++ [chunk_meta metadata doc_idx chunk_idx total_chunks chunk]).

(** The body of the loop over the documents. *)
Definition document_step (self : t) (st : list str * list dict)
    (id : Z * Document) : list str * list dict :=
  let '(doc_idx, document) := id in
  let content := match d_content document with Some c => c | None => [] end in
  let metadata := match d_metadata document with Some m => m | None => [] end in
  if negb (nonempty content) then st
  else
    let document_chunks :=
      TextProcessing.chunk_text charref_sub content (chunk_size self)
        (chunk_overlap self) (min_chunk_size self) (max_chunk_size self) in
    fold_left (chunk_step metadata doc_idx (len document_chunks))
              (enumerate_from 0 document_chunks) st.

Definition _chunk_documents (self : t) (documents : list Document)
    : list str * list dict :=
  fold_left (document_step self) (enumerate_from 0 documents) ([], []).

Definition _save_index (self : t) (index_path : option str) : result str :=
  let index_path :=
    match index_path with
    | Some path => path
    | None => lit "models/faiss_index_" ++ timestamp
    end in
  match save (vector_db self) index_path with
  | Raise e => Raise e
  | Ok _ => Ok index_path
  end.

Definition with_vector_db (self : t) (db : VectorDatabase.t Index) : t :=
  mkPipeline (chunk_size self) (chunk_overlap self) (min_chunk_size self)
             (max_chunk_size self) db.

(** [process_documents]: the report or the exception, and the state the
    pipeline is left in. *)
Definition process_documents (self : t) (documents : list Document)
    (save_index : bool) (index_path : option str) : result Report * t :=
  let '(chunks, chunk_metadata) := _chunk_documents self documents in
  match encode chunks with
  | Raise e => (Raise e, self)
  | Ok embeddings =>
      match add_documents faiss_add l2_normalize (vector_db self) chunks
              embeddings (Some chunk_metadata) with
      | (Raise e, db) => (Raise e, with_vector_db self db)
      | (Ok _, db) =>
          let self := with_vector_db self db in
          if save_index then
            match _save_index self index_path with
            | Raise e => (Raise e, self)
            | Ok saved_path =>
                (Ok (mkReport (lit "success") (len documents) (len chunks)
                       (Some saved_path)),
                 self)
            end
          else
            (Ok (mkReport (lit "success") (len documents) (len chunks) None),
             self)
      end
  end.

End WithIndexing.

Arguments chunk_size {Index} _.
Arguments chunk_overlap {Index} _.
Arguments min_chunk_size {Index} _.
Arguments max_chunk_size {Index} _.
Arguments vector_db {Index} _.
Arguments mkPipeline {Index} _ _ _ _ _.
Arguments document_step {Index} _ _ _ _.
Arguments _chunk_documents {Index} _ _ _.
Arguments _save_index {Index} _ _ _ _.
Arguments with_vector_db {Index} _ _.
Arguments process_documents {Index} _ _ _ _ _ _ _ _ _ _.

Section WithBatch.

Variable Index : Type.
Variable faiss_search : Index -> vec -> Z -> result (list float * list Z).
Variable l2_normalize : vec -> vec.
Variable one_minus : float -> float.

(** [EmbeddingModel.encode] on the queries: the rows of the model. *)
Variable encode : list str -> result matrix.

(** [a[i]] on the rows of an array, for an index that is not negative. *)
Definition row (a : matrix) (i : Z) : result vec :=
  match nth_error a (Z.to_nat i) with
  | Some v => Ok v
  | None =>
      Raise (IndexError
               (lit "index " ++ str_of_Z i
                ++ lit " is out of bounds for axis 0 with size "
                ++ str_of_Z (len a)))
  end.

(** The loop of [batch_search] over [enumerate(queries)]. *)
Fixpoint search_each (vector_db : VectorDatabase.t Index)
    (query_embeddings : matrix) (k : option Z) (iqs : list (Z * str))
    (all_results : list (list SearchResult))
    : result (list (list SearchResult)) :=
  match iqs with
  | [] => Ok all_results
  | (i, query) :: rest =>
      match row query_embeddings i with
      | Raise e => Raise e
      | Ok query_embedding =>
          match search_with_metadata faiss_search l2_normalize one_minus
                  vector_db query_embedding k with
          | Raise e => Raise e
          | Ok results =>
              search_each vector_db query_embeddings k rest
                (all_results ++ [results])
          end
      end
  end.

Definition batch_search (vector_db : VectorDatabase.t Index)
    (queries : list str) (k : option Z)
    : result (list (list SearchResult)) :=
  match encode queries with
  | Raise e => Raise e
  | Ok query_embeddings =>
      search_each vector_db query_embeddings k (enumerate_from 0 queries) []
  end.

End WithBatch.

Arguments search_each {Index} _ _ _ _ _ _ _ _.
Arguments batch_search {Index} _ _ _ _ _ _ _.

End EmbeddingPipeline.

(* ================================================================== *)
(** * [src/rag/llm_model.py] and [src/rag/rag_pipeline.py] *)
(* ================================================================== *)

Module RAGPipeline.
Import Py VectorDatabase.

Local Open Scope float_scope.

(** An entry of the [sources] list of an answer. *)
Record SourceInfo : Type := mkSource {
  s_source : value;
  s_title : value;
  s_url : value;
  s_similarity : float
}.

(** The dictionary [answer_question] returns; a key that one branch leaves
    out is [None] here.  [processing_time], a wall-clock reading, is not
    modelled. *)
Record Answer : Type := mkAnswer {
  answer : str;
  sources : list SourceInfo;
  confidence : float;
  retrieved_documents : Z;
  question_of : option str;
  context_length : option Z;
  error : option str
}.

(** The prompts the language model was called with, oldest first. *)
Definition trace : Type := list str.

(** A computation that can raise and that records its calls of the model. *)
Definition M (A : Type) : Type := trace -> result A * trace.

Definition ret {A : Type} (a : A) : M A := fun tr => (Ok a, tr).

Definition raise {A : Type} (e : exn) : M A := fun tr => (Raise e, tr).

Definition bind {A B : Type} (m : M A) (f : A -> M B) : M B :=
  fun tr =>
    match m tr with
    | (Ok a, tr') => f a tr'
    | (Raise e, tr') => (Raise e, tr')
    end.

Definition lift {A : Type} (r : result A) : M A := fun tr => (r, tr).

(** [try: body except Exception as e: handler(e)] *)
Definition try_except {A : Type} (body : M A) (handler : exn -> M A) : M A :=
  fun tr =>
    match body tr with
    | (Ok a, tr') => (Ok a, tr')
    | (Raise e, tr') => handler e tr'
    end.

Notation "x <- m ;; f" := (bind m (fun x => f))
  (at level 61, m at next level, right associativity).

Section WithComponents.

(** [self.embedding_pipeline.search] *)
Variable search : str -> option Z -> result (list SearchResult).

(** [self.prompt_manager.format_context] on the results. *)
Variable format_context : list SearchResult -> result str.

(** The text-generation pipeline of the transformers library on a prompt:
    the generated text, or an exception. *)
Variable generator : str -> result str.

(** The builtin [sum] on floats. *)
Variable sum : list float -> float.

(** [LLMModel.generate] *)
Definition generate (prompt : str) : M str :=
  fun tr =>
    match generator prompt with
    | Raise e => (Raise e, tr ++ [prompt])
    | Ok generated_text =>
        (Ok (if startswith generated_text prompt
             then strip (skipn (length prompt) generated_text)
             else generated_text),
         tr ++ [prompt])
    end.

Definition context_prompt (context question : str) : str :=
  lit "Context: " ++ context ++ [nl; nl] ++ lit "Question: " ++ question
  ++ [nl; nl] ++ lit "Answer:".

(** [LLMModel.generate_with_context] *)
Definition generate_with_context (context question : str) : M str :=
  generate (context_prompt context question).

Definition source_info (result : SearchResult) : SourceInfo :=
  let meta := r_metadata result in
  mkSource (get meta (lit "source") (VStr (lit "unknown")))
           (get meta (lit "title") (VStr (lit "Unknown")))
           (get meta (lit "url") (VStr []))
           (r_similarity result).

Definition float_of_len {A : Type} (l : list A) : float :=
  of_uint63 (Uint63.of_Z (len l)).

Definition no_information : Answer :=
  mkAnswer
    (lit "I couldn't find any relevant information to answer your question.")
    [] 0 0%Z None None None.

Definition degraded (e : exn) : Answer :=
  mkAnswer
    (lit "I encountered an error while processing your question. Please try again.")
    [] 0 0%Z None None (Some (message e)).

(** The body of the [try] of [answer_question]. *)
Definition answer_body (question : str) (k : option Z) : M Answer :=
  search_results <- lift (search question k) ;;
  if negb (nonempty search_results) then ret no_information
  else
    context <- lift (format_context search_results) ;;
    text <- generate_with_context context question ;;
    let sources := map source_info search_results in
    let avg_similarity :=
      sum (map r_similarity search_results) / float_of_len search_results in
    ret (mkAnswer text sources avg_similarity (len search_results)
           (Some question) (Some (len context)) None).

Definition answer_question (question : str) (k : option Z) : M Answer :=
  try_except (answer_body question k) (fun e => ret (degraded e)).

(** [for x in l: body], the body working on the state [s]. *)
Fixpoint for_each {A S : Type} (body : S -> A -> M S) (l : list A) (s : S)
    : M S :=
  match l with
  | [] => ret s
  | x :: l' => s' <- body s x ;; for_each body l' s'
  end.

(** The body of the loop of [LLMModel.batch_generate]. *)
Definition generate_step (generated_texts : list str) (prompt : str)
    : M (list str) :=
  try_except
    (generated_text <- generate prompt ;;
     ret (generated_texts ++ [generated_text]))
    (fun _ => ret (generated_texts ++ [[]])).

(** [LLMModel.batch_generate] *)
Definition batch_generate (prompts : list str) : M (list str) :=
  try_except (for_each generate_step prompts []) (fun e => raise e).

(** The answer the loop of [batch_answer_questions] adds for a question
    whose processing raised. *)
Definition failed (e : exn) : Answer :=
  mkAnswer (lit "I encountered an error while processing this question.")
    [] 0 0%Z None None (Some (message e)).

(** The body of the loop of [batch_answer_questions]. *)
Definition answer_step (k : option Z) (answers : list Answer)
    (question : str) : M (list Answer) :=
  try_except
    (answer <- answer_question question k ;; ret (answers ++ [answer]))
    (fun e => ret (answers ++ [failed e])).

Definition batch_answer_questions (questions : list str) (k : option Z)
    : M (list Answer) :=
  try_except (for_each (answer_step k) questions []) (fun e => raise e).

Definition summarize_text (prompt_manager : PromptManager.settings)
    (text : str) (max_length : option Z) : M str :=
  try_except
    (generate (PromptManager.create_summary_prompt prompt_manager text
                 max_length))
    (fun e => raise e).

Definition analyze_text (prompt_manager : PromptManager.settings)
    (text analysis_type : str) : M str :=
  try_except
    (generate (PromptManager.create_analysis_prompt prompt_manager text
                 analysis_type))
    (fun e => raise e).

Definition compare_texts (prompt_manager : PromptManager.settings)
    (text1 text2 : str) : M str :=
  try_except
    (generate (PromptManager.create_comparison_prompt prompt_manager text1
                 text2))
    (fun e => raise e).

End WithComponents.

End RAGPipeline.

(* ================================================================== *)
(** * [src/api/endpoints.py]: the question endpoint *)
(* ================================================================== *)

Module Endpoints.
Import Py VectorDatabase RAGPipeline.

(** What the handler of [POST /ask] ends in: the response model it
    returns, or the [HTTPException] it raises. *)
Inductive reply (Response : Type) : Type :=
| Returned (response : Response)
| HTTPException (status_code : Z) (detail : str).
Arguments Returned {Response} response.
Arguments HTTPException {Response} status_code detail.

(** [d[key]] on an entry of a dictionary that can be missing: the
    [KeyError] reads as the key in quotes. *)
Definition subscript {A : Type} (key : str) (entry : option A) : result A :=
  match entry with
  | Some v => Ok v
  | None => Raise (KeyError (lit "'" ++ key ++ lit "'"))
  end.

Section WithPipeline.

(** The components of the pipeline [get_rag_pipeline()] hands out. *)
Variable search : str -> option Z -> result (list SearchResult).
Variable format_context : list SearchResult -> result str.
Variable generator : str -> result str.
Variable sum : list float -> float.

(** The pydantic model [QuestionResponse] built from [answer], [sources],
    [confidence], [retrieved_documents], [question], [context_length] and
    [error]; its validation can raise.  [processing_time], a reading of
    the clock that every answer carries, is left out as in [Answer]. *)
Variable Response : Type.
Variable QuestionResponse :
  str -> list SourceInfo -> float -> Z -> str -> Z -> option str
  -> result Response.

(** The call of the constructor on the dictionary [answer_question]
    returned: the subscripts are evaluated in the order of the arguments,
    [result["question"]] first of those that can miss. *)
Definition question_response (result : Answer) : Py.result Response :=
  match subscript (lit "question") (question_of result) with
  | Raise e => Raise e
  | Ok question =>
      match subscript (lit "context_length") (context_length result) with
      | Raise e => Raise e
      | Ok context_length =>
          QuestionResponse (answer result) (sources result)
            (confidence result) (retrieved_documents result) question
            context_length (error result)
      end
  end.

(** The handler of [POST /ask] on the question and the [k] of the
    request. *)
Definition ask_question (question : str) (k : option Z)
    : trace -> reply Response * trace :=
  fun tr =>
    match answer_question search format_context generator sum question k tr
    with
    | (Ok result, tr') =>
        match question_response result with
        | Ok response => (Returned response, tr')
        | Raise e =>
            (HTTPException 500
               (lit "Error processing question: " ++ message e),
             tr')
        end
    | (Raise e, tr') =>
        (HTTPException 500 (lit "Error processing question: " ++ message e),
         tr')
    end.

End WithPipeline.

End Endpoints.
(* ================================================================== *)
(** * Facts about the string primitives *)
(* ================================================================== *)

Module PyFacts.
Import Py.

(** A word: not empty, and free of whitespace. *)
Definition word_ok (w : str) : Prop :=
  w <> [] /\ forallb (fun c => negb (is_space c)) w = true.

(** The first character, if any, is not whitespace. *)
Definition hd_ok (s : str) : Prop :=
  match s with [] => True | c :: _ => is_space c = false end.

(** Neither end is whitespace. *)
Definition trimmed (s : str) : Prop := hd_ok s /\ hd_ok (rev s).

(** [a] occurs in [b] as a contiguous segment. *)
Definition infix {A : Type} (a b : list A) : Prop :=
  exists p q, b = p ++ a ++ q.

Lemma infix_refl {A : Type} (a : list A) : infix a a.
Proof. exists [], []. now rewrite app_nil_r. Qed.

Lemma infix_trans {A : Type} (a b c : list A) :
  infix a b -> infix b c -> infix a c.
Proof.
  intros (p & q & ->) (p' & q' & ->).
  exists (p' ++ p), (q ++ q'). now rewrite !app_assoc.
Qed.

Lemma infix_app_l {A : Type} (a b p : list A) : infix a b -> infix a (p ++ b).
Proof.
  intros (x & y & ->). exists (p ++ x), y. now rewrite app_assoc.
Qed.

Lemma infix_app_r {A : Type} (a b q : list A) : infix a b -> infix a (b ++ q).
Proof.
  intros (x & y & ->). exists x, (y ++ q). now rewrite <- !app_assoc.
Qed.

Lemma len_app {A : Type} (a b : list A) : len (a ++ b) = (len a + len b)%Z.
Proof. unfold len. rewrite length_app. lia. Qed.

Lemma len_nonneg {A : Type} (a : list A) : (0 <= len a)%Z.
Proof. unfold len. lia. Qed.

Lemma nonempty_true {A : Type} (l : list A) : nonempty l = true <-> l <> [].
Proof. destruct l; simpl; split; intros; congruence. Qed.

Lemma nonempty_false {A : Type} (l : list A) : nonempty l = false <-> l = [].
Proof. destruct l; simpl; split; intros; congruence. Qed.

(** ** [drop_while] and stripping *)

Lemma drop_while_split {A : Type} (f : A -> bool) (l : list A) :
  exists p, l = p ++ drop_while f l /\ forallb f p = true.
Proof.
  induction l as [|x l IH]; simpl.
  - now exists [].
  - destruct (f x) eqn:E.
    + destruct IH as (p & Hp & Hf). exists (x :: p). simpl.
      rewrite E, Hf. split; [now f_equal | reflexivity].
    + now exists [].
Qed.

Lemma drop_while_head {A : Type} (f : A -> bool) (l : list A) :
  match drop_while f l with [] => True | c :: _ => f c = false end.
Proof.
  induction l as [|x l IH]; simpl; [exact I|].
  destruct (f x) eqn:E; [exact IH | exact E].
Qed.

Lemma drop_while_snoc {A : Type} (f : A -> bool) (l : list A) (a : A) :
  drop_while f (l ++ [a]) =
  match drop_while f l with
  | [] => if f a then [] else [a]
  | d => d ++ [a]
  end.
Proof.
  induction l as [|x l IH]; simpl; [reflexivity|].
  destruct (f x); [exact IH | reflexivity].
Qed.

Lemma lstrip_hd_ok (s : str) : hd_ok (lstrip s).
Proof. exact (drop_while_head is_space s). Qed.

Lemma lstrip_id (s : str) : hd_ok s -> lstrip s = s.
Proof.
  unfold lstrip. destruct s as [|c s]; simpl; [reflexivity|]. now intros ->.
Qed.

Lemma rstrip_id (s : str) : hd_ok (rev s) -> rstrip s = s.
Proof.
  intros H. unfold rstrip. fold (lstrip (rev s)).
  rewrite (lstrip_id _ H). apply rev_involutive.
Qed.

Lemma strip_id (s : str) : trimmed s -> strip s = s.
Proof.
  intros [H1 H2]. unfold strip. rewrite (lstrip_id _ H1). now apply rstrip_id.
Qed.

Lemma rstrip_cons (a : ascii) (s : str) :
  rstrip (a :: s) =
  match rstrip s with
  | [] => if is_space a then [] else [a]
  | _ => a :: rstrip s
  end.
Proof.
  unfold rstrip. simpl rev. rewrite drop_while_snoc.
  destruct (drop_while is_space (rev s)) as [|d ds] eqn:E; simpl.
  - destruct (is_space a); reflexivity.
  - rewrite rev_app_distr. simpl.
    destruct (rev ds ++ [d]) eqn:E'; [|reflexivity].
    now destruct (rev ds).
Qed.

Lemma rstrip_prefix (s : str) : exists q, s = rstrip s ++ q.
Proof.
  unfold rstrip.
  destruct (drop_while_split is_space (rev s)) as (p & Hp & _).
  exists (rev p). rewrite <- rev_app_distr, <- Hp. now rewrite rev_involutive.
Qed.

Lemma rstrip_hd_ok (s : str) : hd_ok s -> hd_ok (rstrip s).
Proof.
  intros H. destruct (rstrip_prefix s) as (q & Hq).
  destruct (rstrip s) as [|c r]; [exact I|].
  rewrite Hq in H. exact H.
Qed.

Lemma strip_trimmed (s : str) : trimmed (strip s).
Proof.
  split.
  - apply rstrip_hd_ok, lstrip_hd_ok.
  - unfold strip, rstrip. rewrite rev_involutive. apply drop_while_head.
Qed.

Lemma strip_infix (s : str) : infix (strip s) s.
Proof.
  unfold strip.
  destruct (drop_while_split is_space s) as (p & Hp & _).
  destruct (rstrip_prefix (lstrip s)) as (q & Hq).
  exists p, q. unfold lstrip in *. now rewrite <- Hq.
Qed.

Lemma trimmed_app (a b : str) :
  a <> [] -> b <> [] -> trimmed a -> trimmed b -> trimmed (a ++ space ++ b).
Proof.
  intros Ha Hb [Ha1 _] [_ Hb2]. split.
  - destruct a; [congruence | exact Ha1].
  - rewrite !rev_app_distr.
    destruct (rev b) eqn:E; [|exact Hb2].
    apply (f_equal (@rev _)) in E. rewrite rev_involutive in E. now subst.
Qed.

(** ** [split] and [join] *)

Lemma split_space (c : ascii) (s : str) :
  is_space c = true -> split (c :: s) = split s.
Proof. intros H. simpl. now rewrite H. Qed.

Lemma split_single (c : ascii) : is_space c = false -> split [c] = [[c]].
Proof. intros H. simpl. now rewrite H. Qed.

Lemma split_word_end (c c' : ascii) (s : str) :
  is_space c = false -> is_space c' = true ->
  split (c :: c' :: s) = [c] :: split (c' :: s).
Proof. intros H H'. cbn [split]. now rewrite H, H'. Qed.

Lemma split_word_more (c c' : ascii) (s : str) :
  is_space c = false -> is_space c' = false ->
  split (c :: c' :: s) =
  match split (c' :: s) with
  | w :: ws => (c :: w) :: ws
  | [] => [[c]]
  end.
Proof. intros H H'. cbn [split]. now rewrite H, H'. Qed.

Lemma split_lstrip (s : str) : split (lstrip s) = split s.
Proof.
  unfold lstrip. induction s as [|c s IH]; [reflexivity|].
  cbn [drop_while]. destruct (is_space c) eqn:E; [|reflexivity].
  now rewrite (split_space _ _ E).
Qed.

Lemma split_word_ok (s : str) : Forall word_ok (split s).
Proof.
  induction s as [|c s IH]; [constructor|].
  destruct (is_space c) eqn:E.
  - now rewrite (split_space _ _ E).
  - destruct s as [|c' s].
    + rewrite (split_single _ E). repeat constructor; [discriminate|].
      simpl. now rewrite E.
    + destruct (is_space c') eqn:E'.
      * rewrite (split_word_end _ _ _ E E'). constructor; [|exact IH].
        split; [discriminate|]. simpl. now rewrite E.
      * rewrite (split_word_more _ _ _ E E').
        destruct (split (c' :: s)) as [|w ws].
        -- repeat constructor; [discriminate|]. simpl. now rewrite E.
        -- inversion IH as [|? ? [Hw1 Hw2] Hws]; subst.
           constructor; [|exact Hws].
           split; [discriminate|]. simpl. now rewrite E, Hw2.
Qed.

Lemma word_ok_hd (w : str) : word_ok w -> exists c r, w = c :: r /\ is_space c = false.
Proof.
  intros [Hn Hf]. destruct w as [|c r]; [congruence|].
  exists c, r. split; [reflexivity|].
  simpl in Hf. apply andb_prop in Hf as [Hc _]. now destruct (is_space c).
Qed.

Lemma word_ok_tail (c c' : ascii) (r : str) :
  word_ok (c :: c' :: r) -> word_ok (c' :: r).
Proof.
  intros [_ Hf]. split; [discriminate|].
  simpl in Hf. now apply andb_prop in Hf as [_ Hf].
Qed.

Lemma split_word_app (w s : str) :
  word_ok w -> split (w ++ space ++ s) = w :: split s.
Proof.
  induction w as [|c w IH]; intros Hw; [now destruct Hw|].
  destruct (word_ok_hd _ Hw) as (c0 & r0 & E0 & Hc). injection E0 as <- <-.
  destruct w as [|c' w].
  - change ([c] ++ space ++ s) with (c :: " "%char :: s).
    rewrite (split_word_end c " "%char s Hc eq_refl).
    now rewrite (split_space " "%char s eq_refl).
  - pose proof (word_ok_tail _ _ _ Hw) as Hw'.
    destruct (word_ok_hd _ Hw') as (c1 & r1 & E1 & Hc'). injection E1 as <- <-.
    change ((c :: c' :: w) ++ space ++ s) with (c :: c' :: (w ++ space ++ s)).
    rewrite (split_word_more _ _ _ Hc Hc').
    change (c' :: w ++ space ++ s) with ((c' :: w) ++ space ++ s).
    now rewrite (IH Hw').
Qed.

Lemma split_word (w : str) : word_ok w -> split w = [w].
Proof.
  induction w as [|c w IH]; intros Hw; [now destruct Hw|].
  destruct (word_ok_hd _ Hw) as (c0 & r0 & E0 & Hc). injection E0 as <- <-.
  destruct w as [|c' w]; [now apply split_single|].
  pose proof (word_ok_tail _ _ _ Hw) as Hw'.
  destruct (word_ok_hd _ Hw') as (c1 & r1 & E1 & Hc'). injection E1 as <- <-.
  rewrite (split_word_more _ _ _ Hc Hc'). now rewrite (IH Hw').
Qed.

Lemma join_cons (sep p : str) (ps : list str) :
  ps <> [] -> join sep (p :: ps) = p ++ sep ++ join sep ps.
Proof. destruct ps; [congruence | reflexivity]. Qed.

Lemma join_snoc (sep : str) (ps : list str) (p : str) :
  ps <> [] -> join sep (ps ++ [p]) = join sep ps ++ sep ++ p.
Proof.
  induction ps as [|a ps IH]; [congruence|]. intros _.
  destruct ps as [|b ps]; [reflexivity|].
  change ((a :: b :: ps) ++ [p]) with (a :: ((b :: ps) ++ [p])).
  rewrite join_cons by (now destruct ps).
  rewrite IH by discriminate.
  rewrite (join_cons sep a (b :: ps)) by discriminate.
  now rewrite <- !app_assoc.
Qed.

Lemma join_app (sep : str) (a b : list str) :
  a <> [] -> b <> [] -> join sep (a ++ b) = join sep a ++ sep ++ join sep b.
Proof.
  induction a as [|x a IH]; [congruence|]. intros _ Hb.
  destruct a as [|y a].
  - cbn [app]. now apply join_cons.
  - change ((x :: y :: a) ++ b) with (x :: ((y :: a) ++ b)).
    rewrite join_cons by discriminate.
    rewrite IH by (assumption || discriminate).
    rewrite (join_cons sep x (y :: a)) by discriminate.
    now rewrite <- !app_assoc.
Qed.

Lemma split_join (ws : list str) :
  Forall word_ok ws -> split (join space ws) = ws.
Proof.
  induction 1 as [|w ws Hw Hws IH]; [reflexivity|].
  destruct ws as [|w' ws]; [now apply split_word|].
  rewrite join_cons by discriminate.
  rewrite (split_word_app _ _ Hw). now rewrite IH.
Qed.

Lemma join_nonempty (sep : str) (ps : list str) :
  ps <> [] -> Forall (fun p => p <> []) ps -> join sep ps <> [].
Proof.
  intros Hn Hf. destruct ps as [|p ps]; [congruence|].
  inversion Hf as [|? ? Hp _]; subst.
  destruct ps; cbn [join]; [exact Hp|].
  intros E. destruct p; [congruence | discriminate E].
Qed.

Lemma join_infix (sep : str) (g ws : list str) :
  infix g ws -> infix (join sep g) (join sep ws).
Proof.
  intros (p & q & ->).
  destruct g as [|g0 g].
  - exists [], (join sep (p ++ q)). reflexivity.
  - apply infix_trans with (join sep ((g0 :: g) ++ q)).
    + destruct q as [|q0 q]; [rewrite app_nil_r; apply infix_refl|].
      rewrite join_app by discriminate.
      exists [], (sep ++ join sep (q0 :: q)). reflexivity.
    + destruct p as [|p0 p]; [apply infix_refl|].
      rewrite (join_app sep (p0 :: p) ((g0 :: g) ++ q)) by (cbn; discriminate).
      exists (join sep (p0 :: p) ++ sep), []. rewrite app_nil_r.
      now rewrite <- !app_assoc.
Qed.

End PyFacts.

(* ================================================================== *)
(** * Facts about the matcher: a repeated character class *)
(* ================================================================== *)

Module ReFacts.
Import Py Re PyFacts.

Lemma run_plus_chr (fuel : nat) (f : ascii -> bool) (prev : option ascii)
    (s : str) (k : pos -> option pos) :
  run fuel (Plus (Chr f)) (prev, s) k =
  match s with
  | [] => None
  | c :: s' =>
      if f c then
        match fuel with
        | O => k (Some c, s')
        | S fuel' =>
            if (length s' <? length s)%nat then
              match run fuel' (Plus (Chr f)) (Some c, s') k with
              | Some e => Some e
              | None => k (Some c, s')
              end
            else k (Some c, s')
        end
      else None
  end.
Proof. destruct fuel, s as [|c s']; try reflexivity; cbn; now destruct (f c). Qed.

(** A greedy class repetition that ends the pattern takes the whole run. *)
Lemma run_plus_chr_rest (f : ascii -> bool) (fuel : nat) :
  forall (s : str) (prev : option ascii),
    (length s <= fuel)%nat ->
    option_map snd (run fuel (Plus (Chr f)) (prev, s) (fun e => Some e)) =
    match s with
    | [] => None
    | c :: s' => if f c then Some (drop_while f s') else None
    end.
Proof.
  induction fuel as [|fuel IH]; intros s prev Hlen; rewrite run_plus_chr.
  - destruct s; [reflexivity | simpl in Hlen; lia].
  - destruct s as [|c s']; [reflexivity|].
    destruct (f c); [|reflexivity].
    assert (Hlt : (length s' <? length (c :: s'))%nat = true)
      by (apply Nat.ltb_lt; simpl; lia).
    rewrite Hlt.
    assert (Hs' : (length s' <= fuel)%nat) by (simpl in Hlen; lia).
    specialize (IH s' (Some c) Hs').
    destruct (run fuel (Plus (Chr f)) (Some c, s') (fun e => Some e))
      as [e|] eqn:Erun;
      apply (eq_trans (f_equal (option_map snd) (eq_sym Erun))) in IH.
    + simpl in IH |- *. destruct s' as [|c' s'']; [discriminate IH|].
      simpl. destruct (f c'); [exact IH | discriminate IH].
    + simpl in IH |- *. destruct s' as [|c' s'']; [reflexivity|].
      simpl. destruct (f c'); [discriminate IH | reflexivity].
Qed.

Lemma match_len_plus_chr (f : ascii -> bool) (prev : option ascii) (s : str) :
  match_len (Plus (Chr f)) prev s =
  match s with
  | [] => None
  | c :: s' =>
      if f c then Some (length s - length (drop_while f s'))%nat else None
  end.
Proof.
  unfold match_len.
  pose proof (run_plus_chr_rest f (S (length s)) s prev (Nat.le_succ_diag_r _)) as H.
  destruct (run (S (length s)) (Plus (Chr f)) (prev, s) (fun e => Some e))
    as [[q rest]|]; simpl in H.
  - destruct s as [|c s']; [discriminate H|].
    destruct (f c); [|discriminate H]. now injection H as ->.
  - destruct s as [|c s']; [reflexivity|].
    destruct (f c); [discriminate H | reflexivity].
Qed.

(** ** [re.sub(r'\s+', ' ', s)] *)

Definition collapse (s : str) : str := sub TextProcessing.whitespace space s.

Lemma sub_ws_skip (p s : str) (prev prev' : option ascii) :
  (forall q q' t, sub_from TextProcessing.whitespace space q 0 t
                  = sub_from TextProcessing.whitespace space q' 0 t) ->
  sub_from TextProcessing.whitespace space prev (length p) (p ++ s) =
  sub_from TextProcessing.whitespace space prev' 0 s.
Proof.
  intros Hind. revert prev.
  induction p as [|c p IH]; intros prev; [apply Hind|].
  simpl. apply IH.
Qed.

Lemma sub_ws_prev (q q' : option ascii) (t : str) :
  sub_from TextProcessing.whitespace space q 0 t =
  sub_from TextProcessing.whitespace space q' 0 t.
Proof.
  destruct t as [|c t]; [reflexivity|].
  cbn [sub_from]. unfold TextProcessing.whitespace.
  now rewrite !match_len_plus_chr.
Qed.

Lemma collapse_nil : collapse [] = [].
Proof. reflexivity. Qed.

Lemma collapse_cons (c : ascii) (s : str) :
  collapse (c :: s) =
  if is_space c then " "%char :: collapse (lstrip s) else c :: collapse s.
Proof.
  unfold collapse, sub. cbn [sub_from].
  unfold TextProcessing.whitespace at 1. rewrite match_len_plus_chr.
  destruct (is_space c) eqn:E.
  - destruct (drop_while_split is_space s) as (p & Hp & _).
    assert (Hn : (length (c :: s) - length (drop_while is_space s))%nat
                 = S (length p)).
    { pose proof (f_equal (@length _) Hp) as HL.
      rewrite length_app in HL. cbn [length]. lia. }
    rewrite Hn. cbn [space app]. f_equal.
    unfold lstrip. clear Hn. revert Hp.
    generalize (drop_while is_space s) as d.
    intros d ->. apply sub_ws_skip, sub_ws_prev.
  - f_equal. apply sub_ws_prev.
Qed.

Lemma collapse_hd_ok (s : str) : hd_ok s -> hd_ok (collapse s).
Proof.
  destruct s as [|c s]; [intros _; exact I|].
  simpl. intros E. rewrite collapse_cons, E. exact E.
Qed.

Lemma lstrip_collapse (s : str) : lstrip (collapse s) = collapse (lstrip s).
Proof.
  destruct s as [|c s]; [reflexivity|].
  rewrite collapse_cons. unfold lstrip at 3. cbn [drop_while].
  destruct (is_space c) eqn:E.
  - unfold lstrip at 1. cbn [drop_while].
    change (is_space " ") with true. cbn iota.
    fold (lstrip (collapse (lstrip s))). fold (lstrip s).
    apply lstrip_id, collapse_hd_ok, lstrip_hd_ok.
  - rewrite collapse_cons, E. apply lstrip_id. exact E.
Qed.

Lemma join_cons_char (sep : str) (c : ascii) (w : str) (ws : list str) :
  join sep ((c :: w) :: ws) = c :: join sep (w :: ws).
Proof. destruct ws; reflexivity. Qed.

Lemma length_lstrip (s : str) : (length (lstrip s) <= length s)%nat.
Proof.
  destruct (drop_while_split is_space s) as (p & Hp & _).
  unfold lstrip. rewrite Hp at 2. rewrite length_app. lia.
Qed.

Lemma rstrip_collapse (n : nat) :
  forall s : str, (length s <= n)%nat -> hd_ok s ->
    rstrip (collapse s) = join space (Py.split s).
Proof.
  induction n as [|n IH]; intros s Hlen Hhd.
  - destruct s; [reflexivity | simpl in Hlen; lia].
  - destruct s as [|c s']; [reflexivity|].
    simpl in Hhd. rewrite collapse_cons, Hhd.
    destruct s' as [|c' s''].
    + rewrite collapse_nil, rstrip_cons. cbn [rstrip rev drop_while].
      rewrite Hhd. now rewrite (split_single _ Hhd).
    + destruct (is_space c') eqn:E'.
      * rewrite (split_word_end _ _ _ Hhd E'), (split_space _ _ E').
        rewrite collapse_cons, E', <- (split_lstrip s'').
        assert (Ht : rstrip (collapse (lstrip s'')) = join space (Py.split (lstrip s''))).
        { apply IH; [|apply lstrip_hd_ok].
          pose proof (length_lstrip s''). simpl in Hlen. lia. }
        rewrite rstrip_cons, (rstrip_cons " "%char), Ht.
        change (is_space " ") with true. cbn iota.
        pose proof (split_word_ok (lstrip s'')) as Hok.
        destruct (Py.split (lstrip s'')) as [|w ws] eqn:Es.
        -- cbn [join]. now rewrite Hhd.
        -- assert (Hne : join space (w :: ws) <> []).
           { apply join_nonempty; [discriminate|].
             eapply Forall_impl; [|exact Hok]. now intros ? [? _]. }
           transitivity ([c] ++ space ++ join space (w :: ws));
             [|reflexivity].
           destruct (join space (w :: ws)); [congruence | reflexivity].
      * rewrite (split_word_more _ _ _ Hhd E').
        assert (Ht : rstrip (collapse (c' :: s'')) = join space (Py.split (c' :: s''))).
        { apply IH; [simpl in Hlen |- *; lia | exact E']. }
        rewrite rstrip_cons, Ht.
        destruct (Py.split (c' :: s'')) as [|w ws].
        -- cbn [join]. now rewrite Hhd.
        -- rewrite join_cons_char.
           destruct (join space (w :: ws)) eqn:Ej; [|reflexivity].
           now rewrite Hhd.
Qed.

(** Collapsing whitespace and stripping leaves the words, one space apart. *)
Lemma strip_collapse (s : str) : strip (collapse s) = join space (Py.split s).
Proof.
  unfold strip. rewrite lstrip_collapse.
  rewrite (rstrip_collapse (length (lstrip s)) (lstrip s) (le_n _) (lstrip_hd_ok s)).
  now rewrite split_lstrip.
Qed.

End ReFacts.

(* ================================================================== *)
(** * The structure of the chunks *)
(* ================================================================== *)

Module ChunkFacts.
Import Py PyFacts TextProcessing.

(** The single-space join that both loops build. *)
Definition joined (g : list str) : str := join space g.

(** A sentence or a word as the loops meet it. *)
Definition piece_ok (s : str) : Prop := s <> [] /\ trimmed s.

(** The characters of the sentences of a group, separators not counted. *)
Definition text_len (g : list str) : Z :=
  fold_right (fun s n => (len s + n)%Z) 0%Z g.

(** The bound a group of two or more sentences meets. *)
Definition within (max_chunk_size : Z) (g : list str) : Prop :=
  (length g <= 1)%nat \/ (text_len g <= max_chunk_size)%Z.

(** The test under which a closed group is kept. *)
Definition big (min_chunk_size : Z) (g : list str) : bool :=
  (len (joined g) >=? min_chunk_size)%Z.

Lemma forallb_rev {A : Type} (f : A -> bool) (l : list A) :
  forallb f (rev l) = forallb f l.
Proof.
  induction l as [|x l IH]; [reflexivity|].
  simpl. rewrite forallb_app, IH. simpl. rewrite andb_true_r. apply andb_comm.
Qed.

Lemma word_piece (w : str) : word_ok w -> piece_ok w.
Proof.
  intros [Hn Hf]. split; [exact Hn|]. split.
  - destruct w as [|c w]; [exact I|]. simpl in *.
    apply andb_prop in Hf as [Hc _]. now destruct (is_space c).
  - rewrite <- forallb_rev in Hf. destruct (rev w) as [|c r]; [exact I|].
    simpl in *. apply andb_prop in Hf as [Hc _]. now destruct (is_space c).
Qed.

Lemma joined_piece (g : list str) :
  g <> [] -> Forall piece_ok g -> piece_ok (joined g).
Proof.
  intros Hn Hf. induction Hf as [|s g Hs Hg IH]; [congruence|].
  destruct g as [|s' g]; [exact Hs|].
  unfold joined. rewrite join_cons by discriminate.
  destruct (IH ltac:(discriminate)) as [Hj1 Hj2]. destruct Hs as [Hs1 Hs2].
  split.
  - intros E. destruct s; [congruence | discriminate E].
  - now apply trimmed_app.
Qed.

Lemma joined_nil_iff (g : list str) :
  Forall piece_ok g -> (joined g = [] <-> g = []).
Proof.
  intros Hf. split; [|now intros ->].
  intros E. destruct g as [|s g]; [reflexivity|].
  now destruct (joined_piece (s :: g) ltac:(discriminate) Hf).
Qed.

Lemma text_len_app (a b : list str) :
  text_len (a ++ b) = (text_len a + text_len b)%Z.
Proof. induction a as [|x a IH]; simpl; [reflexivity | rewrite IH; lia]. Qed.

Lemma text_len_joined (g : list str) : (text_len g <= len (joined g))%Z.
Proof.
  induction g as [|s g IH]; [reflexivity|].
  destruct g as [|s' g].
  - unfold joined. simpl. lia.
  - unfold joined in *. rewrite join_cons by discriminate.
    rewrite !len_app. cbn [text_len fold_right] in *.
    pose proof (len_nonneg space). lia.
Qed.

(** ** The sentences *)

Lemma split_from_infix (r : Re.regex) (s : str) :
  forall (prev : option ascii) (skip : nat) (cur : str),
    skip = O \/ cur = [] ->
    Forall (fun p => infix p (cur ++ s)) (Re.split_from r prev skip cur s).
Proof.
  induction s as [|c s IH]; intros prev skip cur Hinv.
  - repeat constructor. rewrite app_nil_r. apply infix_refl.
  - cbn [Re.split_from]. destruct skip as [|n].
    + destruct (Re.match_len r prev (c :: s)) as [[|n]|].
      * replace (cur ++ c :: s) with ((cur ++ [c]) ++ s)
          by now rewrite <- app_assoc.
        apply IH. now left.
      * constructor; [exists [], (c :: s); reflexivity|].
        eapply Forall_impl; [|apply (IH (Some c) n []); now right].
        intros p Hp. apply infix_app_l. now apply (infix_app_l _ _ [c]).
      * replace (cur ++ c :: s) with ((cur ++ [c]) ++ s)
          by now rewrite <- app_assoc.
        apply IH. now left.
    + destruct Hinv as [Hs | ->]; [discriminate Hs|].
      eapply Forall_impl; [|apply (IH (Some c) n []); now right].
      intros p Hp. now apply (infix_app_l _ _ [c]).
Qed.

Lemma sentences_of_ok (text : str) :
  Forall (fun s => piece_ok s /\ infix s text) (sentences_of text).
Proof.
  unfold sentences_of. apply Forall_forall. intros s Hin.
  apply in_map_iff in Hin as (p & <- & Hp).
  apply filter_In in Hp as [Hp Hne].
  split; [split|].
  - now apply nonempty_true.
  - apply strip_trimmed.
  - apply infix_trans with p; [apply strip_infix|].
    pose proof (split_from_infix sentence_end text None 0 []
                  (or_introl eq_refl)) as H.
    rewrite Forall_forall in H. exact (H p Hp).
Qed.

(** ** The sentence loop *)

(** A group the loop closed: not empty, and within the bound. *)
Definition good (max_chunk_size : Z) (g : list str) : Prop :=
  g <> [] /\ within max_chunk_size g.

Lemma filter_big_snoc (mn : Z) (groups : list (list str)) (g : list str) :
  g <> [] -> Forall piece_ok g ->
  map joined (filter (big mn) (groups ++ [g])) =
  if (len (joined g) >=? mn)%Z
  then map joined (filter (big mn) groups) ++ [strip (joined g)]
  else map joined (filter (big mn) groups).
Proof.
  intros Hn Hg. rewrite filter_app, map_app. cbn [filter]. unfold big at 2.
  destruct (len (joined g) >=? mn)%Z; cbn [map].
  - f_equal. f_equal. symmetry. now apply strip_id, joined_piece.
  - apply app_nil_r.
Qed.

Lemma joined_snoc (g : list str) (s : str) :
  Forall piece_ok g ->
  joined (g ++ [s]) =
  if nonempty (joined g) then joined g ++ space ++ s else s.
Proof.
  intros Hg. destruct g as [|s0 g]; [reflexivity|].
  assert (H : nonempty (joined (s0 :: g)) = true).
  { apply nonempty_true. now apply joined_piece. }
  rewrite H. unfold joined. now rewrite join_snoc by discriminate.
Qed.

Lemma sentence_loop (mn mx : Z) (sents : list str) :
  forall groups g,
    Forall piece_ok sents -> Forall piece_ok g ->
    Forall (good mx) groups -> within mx g ->
    exists groups' g',
      fold_left (sentence_step mn mx) sents
        (map joined (filter (big mn) groups), joined g)
      = (map joined (filter (big mn) groups'), joined g')
      /\ concat groups' ++ g' = concat groups ++ g ++ sents
      /\ Forall (good mx) groups' /\ Forall piece_ok g' /\ within mx g'.
Proof.
  induction sents as [|s sents IH]; intros groups g Hs Hg Hgs Hw.
  - exists groups, g. rewrite app_nil_r. auto.
  - inversion Hs as [|? ? Hs1 Hs2]; subst.
    cbn [fold_left]. unfold sentence_step at 2.
    destruct ((len (joined g) + len s >? mx)%Z && nonempty (joined g)) eqn:E.
    + apply andb_prop in E as [E1 E2].
      assert (Hgne : g <> []) by (intros ->; discriminate E2).
      rewrite <- (filter_big_snoc mn groups g Hgne Hg).
      destruct (IH (groups ++ [g]) [s]) as (groups' & g' & Hfold & Hcat & H');
        auto.
      * apply Forall_app. split; [exact Hgs|].
        constructor; [now split | constructor].
      * left. simpl. lia.
      * exists groups', g'. split; [exact Hfold|]. split; [|exact H'].
        rewrite Hcat, concat_app. cbn [concat]. rewrite app_nil_r.
        now rewrite <- !app_assoc.
    + destruct (IH groups (g ++ [s])) as (groups' & g' & Hfold & Hcat & H');
        auto; [| |rewrite (joined_snoc g s Hg) in Hfold].
      * apply Forall_app. auto.
      * destruct g as [|s0 g]; [left; simpl; lia|]. right.
        assert (Hne : nonempty (joined (s0 :: g)) = true).
        { apply nonempty_true. now apply joined_piece. }
        rewrite Hne, andb_true_r in E.
        rewrite text_len_app. cbn [text_len fold_right].
        pose proof (text_len_joined (s0 :: g)). cbn [text_len fold_right] in *.
        rewrite Z.gtb_ltb in E. apply Z.ltb_ge in E. lia.
      * exists groups', g'. split; [exact Hfold|]. split; [|exact H'].
        rewrite Hcat. now rewrite <- !app_assoc.
Qed.

(** The sentence pass cuts the sentences into consecutive groups and returns
    the joins of the groups that are long enough. *)
Lemma sentence_chunks_groups (mn mx : Z) (sents : list str) :
  Forall piece_ok sents ->
  exists groups,
    concat groups = sents /\ Forall (good mx) groups /\
    sentence_chunks mn mx sents = map joined (filter (big mn) groups).
Proof.
  intros Hs.
  destruct (sentence_loop mn mx sents [] [] Hs (Forall_nil _) (Forall_nil _))
    as (groups & g & Hfold & Hcat & Hgood & Hg & Hw); [left; simpl; lia|].
  cbn [concat app] in Hcat. unfold sentence_chunks.
  set (st := fold_left _ sents _).
  assert (Hst : st = (map joined (filter (big mn) groups), joined g))
    by exact Hfold.
  clearbody st. subst st. clear Hfold.
  destruct g as [|s0 g].
  - exists groups. rewrite app_nil_r in Hcat. auto.
  - assert (Hne : nonempty (joined (s0 :: g)) = true).
    { apply nonempty_true. now apply joined_piece. }
    rewrite Hne, andb_true_l.
    rewrite <- (filter_big_snoc mn groups (s0 :: g) ltac:(discriminate) Hg).
    exists (groups ++ [s0 :: g]). split; [|split; [|reflexivity]].
    + rewrite concat_app. cbn [concat]. now rewrite app_nil_r.
    + apply Forall_app. split; [exact Hgood|].
      constructor; [split; [discriminate | exact Hw] | constructor].
Qed.

(** ** The word loop *)

(** A chunk of the word pass: the overlap words it was seeded with, and the
    words it added. *)
Definition segment : Type := (list str * list str)%type.

Definition seg_words (seg : segment) : list str := fst seg ++ snd seg.
Definition seg_text (seg : segment) : str := joined (seg_words seg).

Definition suffix {A : Type} (a b : list A) : Prop := exists p, b = p ++ a.

(** Every segment adds a word, and its overlap is a tail of the words of
    the segment before it ([prev] before the first). *)
Inductive chain : list str -> list segment -> Prop :=
| chain_nil (prev : list str) : chain prev []
| chain_cons (prev o f : list str) (rest : list segment) :
    suffix o prev -> f <> [] -> chain (o ++ f) rest ->
    chain prev ((o, f) :: rest).

Lemma last_cons {A : Type} (x : A) (l : list A) (d : A) :
  last (x :: l) d = last l x.
Proof.
  revert x d. induction l as [|y l IH]; intros x d; [reflexivity|].
  change (last (x :: y :: l) d) with (last (y :: l) d).
  now rewrite (IH y d), (IH y x).
Qed.

Lemma chain_snoc (prev : list str) (segs : list segment) (o f : list str) :
  chain prev segs ->
  suffix o (last (map seg_words segs) prev) -> f <> [] ->
  chain prev (segs ++ [(o, f)]).
Proof.
  induction 1 as [prev | prev o0 f0 rest Ho Hf Hrest IH]; intros Hs Hn.
  - now repeat constructor.
  - cbn [app]. constructor; [exact Ho | exact Hf |].
    apply IH; [|exact Hn].
    cbn [map] in Hs. now rewrite last_cons in Hs.
Qed.

Lemma suffix_slice {A : Type} (n : Z) (l : list A) : suffix (slice_from n l) l.
Proof.
  unfold slice_from.
  destruct (n <? 0)%Z; eexists; symmetry; apply firstn_skipn.
Qed.

Lemma suffix_Forall {A : Type} (P : A -> Prop) (a b : list A) :
  suffix a b -> Forall P b -> Forall P a.
Proof. intros (p & ->) H. now apply Forall_app in H as [_ H]. Qed.

(** The running chunk in terms of its words: the words one space apart,
    after one leading space when the overlap was empty. *)
Definition lead_ok (lead : str) (ws : list str) : Prop :=
  (lead = [] \/ lead = space) /\ (ws = [] -> lead = []).

Lemma running_nonempty (lead : str) (ws : list str) :
  Forall word_ok ws -> lead_ok lead ws ->
  nonempty (lead ++ joined ws) = nonempty ws.
Proof.
  intros Hws [_ Hl]. destruct ws as [|w ws].
  - now rewrite (Hl eq_refl).
  - cbn [nonempty]. apply nonempty_true. intros E.
    apply app_eq_nil in E as [_ E].
    assert (Hp : Forall piece_ok (w :: ws))
      by (eapply Forall_impl; [|exact Hws]; apply word_piece).
    now destruct (joined_piece (w :: ws) ltac:(discriminate) Hp).
Qed.

Lemma running_split (lead : str) (ws : list str) :
  Forall word_ok ws -> lead_ok lead ws ->
  Py.split (lead ++ joined ws) = ws.
Proof.
  intros Hws [[-> | ->] _]; cbn [app space].
  - now apply split_join.
  - rewrite (split_space " "%char _ eq_refl). now apply split_join.
Qed.

Lemma running_strip (lead : str) (ws : list str) :
  Forall word_ok ws -> lead_ok lead ws ->
  strip (lead ++ joined ws) = joined ws.
Proof.
  intros Hws [Hl Hn].
  assert (Hj : strip (joined ws) = joined ws).
  { destruct ws as [|w ws]; [reflexivity|].
    apply strip_id, joined_piece; [discriminate|].
    eapply Forall_impl; [|exact Hws]. apply word_piece. }
  destruct Hl as [-> | ->]; [exact Hj|].
  unfold strip in *. cbn [app space]. unfold lstrip in *. cbn [drop_while].
  change (is_space " ") with true. cbn iota. exact Hj.
Qed.

(** A chunk that took two new words or more is within [chunk_size]. *)
Definition sized (chunk_size : Z) (seg : segment) : Prop :=
  (2 <= length (snd seg))%nat -> (len (seg_text seg) <= chunk_size)%Z.

Record word_state (cs : Z) (segs : list segment) (o f : list str)
    (lead : str) : Prop :=
  { ws_words : Forall word_ok (o ++ f);
    ws_chain : chain [] segs;
    ws_overlap : suffix o (last (map seg_words segs) []);
    ws_fresh : f = [] -> o = [];
    ws_lead : lead_ok lead (o ++ f);
    ws_segs : Forall (fun seg => Forall word_ok (seg_words seg)) segs;
    ws_size : (2 <= length f)%nat ->
              (len (lead ++ joined (o ++ f)) <= cs)%Z;
    ws_sizes : Forall (sized cs) segs }.

Lemma sized_running (cs : Z) (o f : list str) (lead : str) :
  ((2 <= length f)%nat -> (len (lead ++ joined (o ++ f)) <= cs)%Z) ->
  sized cs (o, f).
Proof.
  intros H Hlen. specialize (H Hlen). rewrite len_app in H.
  pose proof (len_nonneg lead). unfold seg_text, seg_words. cbn [fst snd]. lia.
Qed.

Lemma word_loop (cs co : Z) (words : list str) :
  forall segs o f lead,
    Forall word_ok words -> word_state cs segs o f lead ->
    exists segs' o' f' lead',
      fold_left (word_step cs co) words
        (map seg_text segs, lead ++ joined (o ++ f))
      = (map seg_text segs', lead' ++ joined (o' ++ f'))
      /\ concat (map snd segs') ++ f' = concat (map snd segs) ++ f ++ words
      /\ word_state cs segs' o' f' lead'.
Proof.
  induction words as [|w words IH]; intros segs o f lead Hws Hst.
  - exists segs, o, f, lead. rewrite app_nil_r. auto.
  - inversion Hws as [|? ? Hw Hws']; subst.
    destruct Hst as [Hwf Hch Hov Hfr Hld Hsg Hsz Hszs].
    cbn [fold_left]. unfold word_step at 2.
    rewrite (running_nonempty lead (o ++ f) Hwf Hld).
    rewrite (running_split lead (o ++ f) Hwf Hld).
    rewrite (running_strip lead (o ++ f) Hwf Hld).
    destruct ((len (lead ++ joined (o ++ f)) + len w + 1 >? cs)%Z
              && nonempty (o ++ f)) eqn:E.
    + apply andb_prop in E as [_ E]. apply nonempty_true in E.
      assert (Hf : f <> []).
      { intros ->. rewrite (Hfr eq_refl) in E. now apply E. }
      set (ov := slice_from (- co / 10) (o ++ f)).
      assert (Hsuf : suffix ov (o ++ f)) by apply suffix_slice.
      assert (Hnew : exists lead', join space ov ++ space ++ w
                                   = lead' ++ joined (ov ++ [w])
                                   /\ lead_ok lead' (ov ++ [w])).
      { destruct ov as [|v ov'] eqn:Eov.
        - exists space. split; [reflexivity|]. split; [now right|].
          intros H. discriminate H.
        - exists []. split.
          + unfold joined. now rewrite join_snoc by discriminate.
          + split; [now left | reflexivity]. }
      destruct Hnew as (lead' & -> & Hld').
      destruct (IH (segs ++ [(o, f)]) ov [w] lead' Hws')
        as (segs' & o' & f' & lead'' & Hfold & Hcat & Hst').
      { constructor.
        - apply Forall_app. split; [|constructor; [exact Hw | constructor]].
          exact (suffix_Forall _ _ _ Hsuf Hwf).
        - now apply chain_snoc.
        - rewrite map_app. cbn [map]. rewrite last_last. exact Hsuf.
        - intros H. discriminate H.
        - exact Hld'.
        - apply Forall_app. split; [exact Hsg|].
          constructor; [exact Hwf | constructor].
        - cbn [length]. lia.
        - apply Forall_app. split; [exact Hszs|].
          constructor; [now apply (sized_running cs o f lead) | constructor]. }
      exists segs', o', f', lead''. split; [|split; [|exact Hst']].
      * rewrite map_app in Hfold. exact Hfold.
      * rewrite Hcat, map_app, concat_app. cbn [map concat snd].
        rewrite app_nil_r. now rewrite <- !app_assoc.
    + assert (Hnew : (if nonempty (o ++ f)
                      then (lead ++ joined (o ++ f)) ++ space ++ w else w)
                     = lead ++ joined (o ++ (f ++ [w]))).
      { destruct (o ++ f) as [|x xs] eqn:Eof.
        - apply app_eq_nil in Eof as [-> ->].
          destruct Hld as [_ Hl]. now rewrite (Hl eq_refl).
        - cbn [nonempty]. rewrite (app_assoc o f [w]), Eof. unfold joined.
          rewrite join_snoc by discriminate. now rewrite <- !app_assoc. }
      destruct (IH segs o (f ++ [w]) lead Hws')
        as (segs' & o' & f' & lead'' & Hfold & Hcat & Hst').
      { constructor.
        - rewrite app_assoc. apply Forall_app. split; [exact Hwf|].
          constructor; [exact Hw | constructor].
        - exact Hch.
        - exact Hov.
        - intros H. now apply app_eq_nil in H as [_ H].
        - destruct Hld as [Hl1 Hl2]. split; [exact Hl1|].
          intros H. rewrite app_assoc in H.
          now apply app_eq_nil in H as [_ H].
        - exact Hsg.
        - intros Hlen. rewrite <- Hnew.
          assert (Hf : f <> [])
            by (intros ->; cbn [app length] in Hlen; lia).
          assert (Hne : nonempty (o ++ f) = true).
          { apply nonempty_true. intros H.
            now apply app_eq_nil in H as [_ H]. }
          rewrite Hne, andb_true_r in E. rewrite Hne.
          rewrite Z.gtb_ltb in E. apply Z.ltb_ge in E.
          rewrite !len_app. change (len space) with 1%Z.
          rewrite len_app in E. lia.
        - exact Hszs. }
      exists segs', o', f', lead''. split; [|split; [|exact Hst']].
      * rewrite <- Hnew in Hfold. exact Hfold.
      * rewrite Hcat. now rewrite <- !app_assoc.
Qed.

(** The word pass: every chunk is its overlap words followed by new words,
    one space apart, and the new words of all chunks are the words given. *)
Lemma word_chunks_segments (cs co : Z) (words : list str) :
  Forall word_ok words ->
  exists segs,
    word_chunks cs co words = map seg_text segs /\
    concat (map snd segs) = words /\
    chain [] segs /\
    Forall (fun seg => Forall word_ok (seg_words seg)) segs /\
    Forall (sized cs) segs.
Proof.
  intros Hws.
  destruct (word_loop cs co words [] [] [] [] Hws)
    as (segs & o & f & lead & Hfold & Hcat
        & [Hwf Hch Hov Hfr Hld Hsg Hsz Hszs]).
  { constructor; try (now constructor).
    - now exists [].
    - split; [now left | reflexivity].
    - cbn [length]. lia. }
  cbn [concat map app] in Hcat. unfold word_chunks.
  set (st := fold_left _ words _).
  assert (Hst : st = (map seg_text segs, lead ++ joined (o ++ f)))
    by exact Hfold.
  clearbody st. subst st. clear Hfold.
  rewrite (running_nonempty lead (o ++ f) Hwf Hld).
  rewrite (running_strip lead (o ++ f) Hwf Hld).
  destruct (o ++ f) as [|x xs] eqn:Eof.
  - apply app_eq_nil in Eof as [-> ->]. rewrite app_nil_r in Hcat.
    exists segs. auto.
  - cbn [nonempty].
    assert (Hf : f <> []).
    { intros ->. rewrite (Hfr eq_refl) in Eof. discriminate Eof. }
    exists (segs ++ [(o, f)]). repeat split.
    + rewrite map_app. cbn [map]. unfold seg_text, seg_words. cbn [fst snd].
      now rewrite Eof.
    + rewrite map_app, concat_app. cbn [map concat snd].
      now rewrite app_nil_r.
    + now apply chain_snoc.
    + apply Forall_app. split; [exact Hsg|].
      repeat constructor. unfold seg_words. cbn [fst snd]. now rewrite Eof.
    + apply Forall_app. split; [exact Hszs|].
      constructor; [|constructor].
      apply (sized_running cs o f lead). now rewrite Eof.
Qed.

End ChunkFacts.

(* ================================================================== *)
(** * The cleaned text and its segments *)
(* ================================================================== *)

Module CleanFacts.
Import Py PyFacts ReFacts TextProcessing ChunkFacts.

(** With whitespace normalised, the cleaned text is a list of words one
    space apart, whatever the earlier passes left. *)
Lemma clean_text_words (charref_sub : str -> str) (text : str) :
  exists ws,
    Forall word_ok ws /\
    clean_text charref_sub text true true true true = join space ws.
Proof.
  unfold clean_text. destruct (nonempty text); cbn [negb].
  - eexists. split; [|apply strip_collapse]. apply split_word_ok.
  - exists []. split; [constructor | reflexivity].
Qed.

Lemma clean_text_split (charref_sub : str -> str) (text : str) :
  let cleaned := clean_text charref_sub text true true true true in
  Forall word_ok (Py.split cleaned) /\ join space (Py.split cleaned) = cleaned.
Proof.
  cbv zeta. destruct (clean_text_words charref_sub text) as (ws & Hws & ->).
  rewrite (split_join ws Hws). auto.
Qed.

(** Every whitespace character is one space followed by a character that is
    not whitespace. *)
Fixpoint single_spaced (s : str) : Prop :=
  match s with
  | [] => True
  | c :: s' =>
      (is_space c = true -> c = " "%char /\ hd_ok s') /\ single_spaced s'
  end.

Lemma collapse_single_spaced (s : str) : single_spaced s -> collapse s = s.
Proof.
  induction s as [|c s IH]; [reflexivity|].
  intros [Hc Hs]. rewrite collapse_cons.
  destruct (is_space c) eqn:E.
  - destruct (Hc eq_refl) as [-> Hhd].
    rewrite (lstrip_id _ Hhd). now rewrite (IH Hs).
  - now rewrite (IH Hs).
Qed.

Lemma single_spaced_suffix (p s : str) :
  single_spaced (p ++ s) -> single_spaced s.
Proof. induction p as [|c p IH]; [auto|]. intros [_ H]. auto. Qed.

Lemma single_spaced_prefix (s q : str) :
  single_spaced (s ++ q) -> single_spaced s.
Proof.
  induction s as [|c s IH]; [intros _; exact I|].
  cbn [app single_spaced]. intros [Hc Hs]. split; [|auto].
  intros E. destruct (Hc E) as [-> Hhd]. split; [reflexivity|].
  destruct s; [exact I | exact Hhd].
Qed.

Lemma single_spaced_infix (a b : str) :
  infix a b -> single_spaced b -> single_spaced a.
Proof.
  intros (p & q & ->) H.
  apply single_spaced_suffix in H. now apply single_spaced_prefix in H.
Qed.

Lemma single_spaced_word (w x : str) :
  forallb (fun c => negb (is_space c)) w = true ->
  single_spaced x -> single_spaced (w ++ x).
Proof.
  induction w as [|c w IH]; [auto|].
  cbn [forallb app single_spaced]. intros Hf Hx.
  apply andb_prop in Hf as [Hc Hf]. split; [|auto].
  intros E. rewrite E in Hc. discriminate Hc.
Qed.

Lemma single_spaced_join (ws : list str) :
  Forall word_ok ws -> single_spaced (join space ws).
Proof.
  induction 1 as [|w ws Hw Hws IH]; [exact I|].
  destruct ws as [|w' ws].
  - cbn [join]. rewrite <- (app_nil_r w).
    apply single_spaced_word; [apply Hw | exact I].
  - rewrite join_cons by discriminate.
    apply single_spaced_word; [apply Hw|].
    cbn [space app single_spaced]. split; [|exact IH].
    intros _. split; [reflexivity|].
    assert (Hp : Forall piece_ok (w' :: ws))
      by (eapply Forall_impl; [|exact Hws]; apply word_piece).
    destruct (joined_piece (w' :: ws) ltac:(discriminate) Hp) as [_ [Hhd _]].
    exact Hhd.
Qed.

(** A trimmed segment of a single-spaced text is its own words one space
    apart. *)
Lemma trimmed_segment_words (s t : str) :
  single_spaced t -> infix s t -> trimmed s -> join space (Py.split s) = s.
Proof.
  intros Ht Hin Hs.
  rewrite <- strip_collapse.
  rewrite (collapse_single_spaced s (single_spaced_infix s t Hin Ht)).
  now apply strip_id.
Qed.

Lemma join_join (sep : str) (ls : list (list str)) :
  Forall (fun l => l <> []) ls ->
  join sep (map (join sep) ls) = join sep (concat ls).
Proof.
  induction 1 as [|l ls Hl Hls IH]; [reflexivity|].
  destruct ls as [|l' ls].
  - cbn [map concat join]. now rewrite app_nil_r.
  - cbn [map concat] in *. rewrite join_cons by discriminate.
    rewrite IH. symmetry. apply join_app; [exact Hl|].
    inversion Hls as [|? ? Hl' _]; subst.
    intros E. apply app_eq_nil in E as [E _]. now apply Hl'.
Qed.

Lemma split_nonempty (s : str) : piece_ok s -> Py.split s <> [].
Proof.
  intros [Hn [Hhd _]] E. destruct s as [|c s]; [now apply Hn|].
  simpl in Hhd. destruct s as [|c' s].
  - rewrite (split_single _ Hhd) in E. discriminate E.
  - destruct (is_space c') eqn:E'.
    + rewrite (split_word_end _ _ _ Hhd E') in E. discriminate E.
    + rewrite (split_word_more _ _ _ Hhd E') in E.
      destruct (Py.split (c' :: s)); discriminate E.
Qed.

(** A join of trimmed segments of a single-spaced text is its own words one
    space apart. *)
Lemma joined_segments_words (g : list str) (t : str) :
  single_spaced t ->
  Forall (fun s => piece_ok s /\ infix s t) g ->
  join space (Py.split (joined g)) = joined g.
Proof.
  intros Ht Hg.
  assert (Hrw : joined g = join space (concat (map Py.split g))).
  { rewrite <- join_join.
    - unfold joined. f_equal. rewrite map_map.
      rewrite <- (map_id g) at 1. apply map_ext_Forall.
      eapply Forall_impl; [|exact Hg].
      intros s [[_ Htr] Hin]. symmetry.
      now apply (trimmed_segment_words s t).
    - apply Forall_map. eapply Forall_impl; [|exact Hg].
      intros s [Hp _]. now apply split_nonempty. }
  rewrite Hrw. rewrite split_join; [reflexivity|].
  apply Forall_concat. apply Forall_map.
  apply Forall_forall. intros s _. apply split_word_ok.
Qed.

(** ** Segments of the word pass *)

Lemma chain_infix (prev acc : list str) (segs : list segment) :
  chain prev segs -> suffix prev acc ->
  Forall (fun seg => infix (seg_words seg) (acc ++ concat (map snd segs))) segs.
Proof.
  intros Hc. revert acc.
  induction Hc as [prev | prev o f rest Ho Hf Hrest IH]; intros acc Hacc;
    [constructor|].
  destruct Ho as (p & ->). destruct Hacc as (a & ->).
  cbn [map concat snd]. constructor.
  - exists (a ++ p), (concat (map snd rest)). unfold seg_words. cbn [fst snd].
    now rewrite <- !app_assoc.
  - replace ((a ++ p ++ o) ++ f ++ concat (map snd rest))
      with (((a ++ p ++ o) ++ f) ++ concat (map snd rest))
      by now rewrite <- !app_assoc.
    apply IH. exists (a ++ p). now rewrite <- !app_assoc.
Qed.

Lemma concat_infix {A : Type} (g : list A) (groups : list (list A)) :
  In g groups -> infix g (concat groups).
Proof.
  intros Hin. apply in_split in Hin as (l1 & l2 & ->).
  exists (concat l1), (concat l2). rewrite concat_app. reflexivity.
Qed.

End CleanFacts.
(* ================================================================== *)
(** * Chunking: what [chunk_text] returns *)
(* ================================================================== *)

Module ChunkTheorems.
Import Py PyFacts ReFacts TextProcessing ChunkFacts CleanFacts.

(** The two ways [chunk_text] ends: with the chunks of the sentence pass when
    there are at least two, with those of the word pass otherwise. *)
Lemma chunk_text_cases (charref_sub : str -> str) (text : str)
    (cs co mn mx : Z) :
  let cleaned := clean_text charref_sub text true true true true in
  let chunks := chunk_text charref_sub text cs co mn mx in
  ((2 <= length chunks)%nat /\
   exists groups,
     concat groups = sentences_of cleaned /\
     Forall (good mx) groups /\
     chunks = map joined (filter (big mn) groups))
  \/
  ((length (sentence_chunks mn mx (sentences_of cleaned)) <= 1)%nat /\
   exists segs,
     chunks = map seg_text segs /\
     concat (map snd segs) = Py.split cleaned /\
     chain [] segs /\
     Forall (fun seg => Forall word_ok (seg_words seg)) segs /\
     Forall (sized cs) segs).
Proof.
  cbv zeta. unfold chunk_text.
  destruct (nonempty text) eqn:Et; cbn [negb].
  - set (cleaned := clean_text charref_sub text true true true true).
    destruct (len (sentence_chunks mn mx (sentences_of cleaned)) <=? 1)%Z
      eqn:E.
    + right. split; [apply Z.leb_le in E; unfold len in E; lia|].
      apply word_chunks_segments, split_word_ok.
    + left. split; [apply Z.leb_gt in E; unfold len in E; lia|].
      apply sentence_chunks_groups.
      eapply Forall_impl; [|apply sentences_of_ok]. now intros s [H _].
  - right. apply nonempty_false in Et. subst text. split.
    + cbn. lia.
    + exists []. repeat split; constructor.
Qed.

(** C1 (as amended).  If the sentence pass yields two chunks or more, they are
    the result: the sentences of the cleaned text are cut, in order, into
    consecutive groups; every group whose single-space join has at least
    [min_chunk_size] characters is returned as that join and every other
    group is left out; a group of two or more sentences holds at most
    [max_chunk_size] characters of sentence text, and a sentence is never
    split.  Otherwise the result is that of the word pass: every chunk is the
    single-space join of overlap words carried from the chunk before it and
    of new words, the new words of all chunks, in order, are exactly the
    words of the cleaned text, and a chunk that took two new words or more
    has at most [chunk_size] characters. *)
Theorem chunk_text_structure (charref_sub : str -> str) (text : str)
    (cs co mn mx : Z) :
  let cleaned := clean_text charref_sub text true true true true in
  let chunks := chunk_text charref_sub text cs co mn mx in
  ((2 <= length chunks)%nat /\
   exists groups,
     concat groups = sentences_of cleaned /\
     Forall (fun g => g <> [] /\
                      ((length g <= 1)%nat \/ (text_len g <= mx)%Z)) groups /\
     chunks = map joined (filter (big mn) groups) /\
     Forall (fun c => (mn <= len c)%Z) chunks)
  \/
  ((length (sentence_chunks mn mx (sentences_of cleaned)) <= 1)%nat /\
   exists segs,
     chunks = map seg_text segs /\
     concat (map snd segs) = Py.split cleaned /\
     chain [] segs /\
     Forall (fun seg => (2 <= length (snd seg))%nat ->
                        (len (seg_text seg) <= cs)%Z) segs).
Proof.
  cbv zeta.
  destruct (chunk_text_cases charref_sub text cs co mn mx)
    as [[Hlen (groups & Hcat & Hgood & Heq)]
       | [Hlen (segs & Heq & Hcat & Hch & _ & Hsz)]].
  - left. split; [exact Hlen|]. exists groups.
    split; [exact Hcat|]. split; [exact Hgood|]. split; [exact Heq|].
    rewrite Heq. apply Forall_forall. intros c Hin.
    apply in_map_iff in Hin as (g & <- & Hg).
    apply filter_In in Hg as [_ Hbig]. unfold big in Hbig.
    rewrite Z.geb_leb in Hbig. now apply Z.leb_le.
  - right. split; [exact Hlen|]. now exists segs.
Qed.

(** C1, the claim as stated fails: a group of sentences shorter than
    [min_chunk_size] is dropped, so its words are in no chunk; and a sentence
    longer than [max_chunk_size] is returned whole, also before the last
    chunk. *)
Lemma chunk_text_omits_and_exceeds :
  let text := lit "Hi. Abcdefghij. Klmnopqrs." in
  let long := lit "Abcdefghijklmno. Pqrstuvwxyzabc. Xyz." in
  (contains (lit "Hi") text = true /\
   (forall f, chunk_text f text 1000 200 5 10
              = [lit "Abcdefghij"; lit "Klmnopqrs"]) /\
   existsb (contains (lit "Hi")) [lit "Abcdefghij"; lit "Klmnopqrs"] = false)
  /\
  ((forall f, chunk_text f long 1000 200 1 10
              = [lit "Abcdefghijklmno"; lit "Pqrstuvwxyzabc"; lit "Xyz"]) /\
   len (lit "Abcdefghijklmno") = 15%Z).
Proof.
  cbv zeta. repeat split; try reflexivity; intros f; vm_compute; reflexivity.
Qed.

(** C2, the code at the input of the repository's own test: a text shorter
    than [min_chunk_size] comes back as one chunk; and whenever the cleaned
    text is not empty, so is the list of chunks, whatever [min_chunk_size]. *)
Theorem chunk_text_short_text_kept :
  (forall f,
     len (clean_text f (lit "Short text") true true true true) = 10%Z /\
     chunk_text f (lit "Short text") 1000 200 50 2000 = [lit "Short text"])
  /\
  (forall f text cs co mn mx,
     nonempty (clean_text f text true true true true) = true ->
     nonempty (chunk_text f text cs co mn mx) = true).
Proof.
  split.
  - intros f. split; vm_compute; reflexivity.
  - intros f text cs co mn mx Hne.
    destruct (chunk_text_cases f text cs co mn mx)
      as [[Hlen _] | [_ (segs & Heq & Hcat & _)]].
    + destruct (chunk_text f text cs co mn mx); [simpl in Hlen; lia|].
      reflexivity.
    + rewrite Heq. destruct segs as [|seg segs]; [|reflexivity].
      cbn [map concat] in Hcat.
      destruct (clean_text_split f text) as [_ Hj].
      rewrite <- Hcat in Hj. cbn [join] in Hj. rewrite <- Hj in Hne.
      discriminate Hne.
Qed.

(** C10 (as amended).  [chunk_text] segments the cleaned text: the cleaned
    text is its words one space apart, and so is every chunk; a chunk of the
    word pass is a contiguous segment of the cleaned text, and a chunk of the
    sentence pass is the single-space join of consecutive sentences of the
    cleaned text, each of them a contiguous segment of it. *)
Theorem chunk_text_segments_of_cleaned (charref_sub : str -> str) (text : str)
    (cs co mn mx : Z) :
  let cleaned := clean_text charref_sub text true true true true in
  join space (Py.split cleaned) = cleaned /\
  Forall (fun chunk =>
            join space (Py.split chunk) = chunk /\
            (infix chunk cleaned \/
             exists g,
               g <> [] /\ chunk = joined g /\
               infix g (sentences_of cleaned) /\
               Forall (fun s => infix s cleaned) g))
         (chunk_text charref_sub text cs co mn mx).
Proof.
  cbv zeta.
  destruct (clean_text_split charref_sub text) as [Hwords Hjoin].
  split; [exact Hjoin|].
  assert (Hss : single_spaced
                  (clean_text charref_sub text true true true true)).
  { rewrite <- Hjoin. now apply single_spaced_join. }
  pose proof (sentences_of_ok
                (clean_text charref_sub text true true true true)) as Hsents.
  destruct (chunk_text_cases charref_sub text cs co mn mx)
    as [[_ (groups & Hcat & Hgood & ->)]
       | [_ (segs & -> & Hcat & Hch & Hok & _)]];
    apply Forall_forall; intros chunk Hin;
    apply in_map_iff in Hin as (x & <- & Hx).
  - apply filter_In in Hx as [Hx _].
    assert (Hxs : Forall (fun s => piece_ok s /\
                    infix s (clean_text charref_sub text true true true true)) x).
    { apply Forall_forall. intros s Hs.
      rewrite Forall_forall in Hsents. apply Hsents.
      rewrite <- Hcat. apply in_concat. now exists x. }
    split; [now apply (joined_segments_words x _ Hss)|].
    right. exists x. repeat split.
    + rewrite Forall_forall in Hgood. now destruct (Hgood x Hx).
    + rewrite <- Hcat. now apply concat_infix.
    + eapply Forall_impl; [|exact Hxs]. now intros s [_ H].
  - rewrite Forall_forall in Hok. specialize (Hok x Hx).
    unfold seg_text, joined. split; [now rewrite split_join|].
    left. rewrite <- Hjoin. apply join_infix.
    pose proof (chain_infix [] [] segs Hch (ex_intro _ [] eq_refl)) as Hinf.
    rewrite Forall_forall in Hinf. rewrite <- Hcat. exact (Hinf x Hx).
Qed.

(** C10, the claim as stated fails: the address removed from inside
    [http:a@b.cc//x.com] leaves the URL [http://x.com], which the raw text
    holds too and which is returned as a chunk; and a chunk of the sentence
    pass, here [a b], need not occur in the cleaned text, here
    [a.b.cd.ef]. *)
Lemma chunk_text_keeps_exposed_url :
  let text := lit "http://x.com http:a@b.cc//x.com" in
  (Re.match_len url None (lit "http://x.com") = Some 12%nat /\
   contains (lit "http://x.com") text = true /\
   (forall f, chunk_text f text 1000 200 100 2000 = [lit "http://x.com"]))
  /\
  ((forall f, clean_text f (lit "a.b.cd.ef") true true true true
              = lit "a.b.cd.ef") /\
   (forall f, chunk_text f (lit "a.b.cd.ef") 1000 200 1 3
              = [lit "a b"; lit "cd"; lit "ef"]) /\
   contains (lit "a b") (lit "a.b.cd.ef") = false).
Proof.
  cbv zeta. repeat split; try reflexivity; intros f; vm_compute; reflexivity.
Qed.

End ChunkTheorems.
(* ================================================================== *)
(** * The vector store: insertion and filtered search *)
(* ================================================================== *)

Module StoreTheorems.
Import Py PyFacts VectorDatabase.

Lemma index_in_range {A : Type} (l : list A) (i : Z) :
  (0 <= i < len l)%Z -> exists x, Py.index l i = Ok x.
Proof.
  intros [H0 H1]. unfold Py.index.
  destruct (i <? 0)%Z eqn:E; [apply Z.ltb_lt in E; lia|]. rewrite E.
  destruct (nth_error l (Z.to_nat i)) as [x|] eqn:En; [now exists x|].
  apply nth_error_None in En. unfold len in H1. lia.
Qed.

Lemma index_last {A : Type} (l : list A) (x : A) :
  Py.index (l ++ [x]) (-1) = Ok x.
Proof.
  unfold Py.index. cbn [Z.ltb Z.compare]. rewrite len_app.
  change (len [x]) with 1%Z.
  replace (len l + 1 + -1)%Z with (len l) by lia.
  destruct (len l <? 0)%Z eqn:E;
    [apply Z.ltb_lt in E; pose proof (len_nonneg l); lia|].
  unfold len. rewrite Nat2Z.id, nth_error_app2 by lia.
  now rewrite Nat.sub_diag.
Qed.

Section WithFaiss.

Context {Index : Type}.
Variable faiss_add : Index -> matrix -> result Index.
Variable faiss_search : Index -> vec -> Z -> result (list float * list Z).
Variable l2_normalize : vec -> vec.
Variable one_minus : float -> float.

Local Abbreviation add_documents := (add_documents faiss_add l2_normalize).
Local Abbreviation search := (search faiss_search l2_normalize).
Local Abbreviation collect := (collect one_minus).
Local Abbreviation similarity_of := (similarity_of one_minus).
Local Abbreviation search_with_metadata :=
  (search_with_metadata faiss_search l2_normalize one_minus).

(** The similarity of a result passes the configured threshold. *)
Definition above (self : t Index) (r : SearchResult) : Prop :=
  (similarity_threshold self <=? r_similarity r)%float = true.

(** The metadata array is as long as the documents array. *)
Definition aligned (self : t Index) : Prop :=
  length (metadata self) = length (documents self).

Lemma collect_above (self : t Index) (hits : list (float * Z)) :
  forall (i : Z) (results out : list SearchResult),
    Forall (above self) results ->
    collect self i hits results = Ok out ->
    Forall (above self) out.
Proof.
  induction hits as [|[distance idx] hits IH]; intros i results out Hres Hout.
  - cbn in Hout. now injection Hout as <-.
  - cbn [VectorDatabase.collect] in Hout.
    destruct (idx <? len (documents self))%Z; [|now apply (IH _ _ _ Hres Hout)].
    destruct (get_document self idx) as [[document meta]|e];
      [|discriminate Hout].
    destruct (similarity_threshold self <=? similarity_of self distance)%float
      eqn:E.
    + refine (IH _ _ _ _ Hout). apply Forall_app. split; [exact Hres|].
      constructor; [exact E | constructor].
    + now apply (IH _ _ _ Hres Hout).
Qed.

Lemma get_document_in_range (self : t Index) (i : Z) :
  aligned self -> (0 <= i < len (documents self))%Z ->
  exists document meta, get_document self i = Ok (document, meta).
Proof.
  intros Hal Hi. unfold get_document.
  destruct (i >=? len (documents self))%Z eqn:E;
    [rewrite Z.geb_leb in E; apply Z.leb_le in E; lia|].
  destruct (index_in_range (documents self) i Hi) as (document & ->).
  assert (Hm : (0 <= i < len (metadata self))%Z)
    by (unfold len in *; rewrite Hal; exact Hi).
  destruct (index_in_range (metadata self) i Hm) as (meta & ->).
  now exists document, meta.
Qed.

Lemma collect_below (self : t Index) (hits : list (float * Z)) :
  forall (i : Z) (results : list SearchResult),
    aligned self ->
    Forall (fun hit =>
              (0 <= snd hit)%Z /\
              (similarity_threshold self <=? similarity_of self (fst hit))%float
              = false) hits ->
    collect self i hits results = Ok results.
Proof.
  induction hits as [|[distance idx] hits IH]; intros i results Hal Hhits;
    [reflexivity|].
  inversion Hhits as [|? ? [H0 Hlow] Hrest]; subst. cbn [fst snd] in *.
  cbn [VectorDatabase.collect].
  destruct (idx <? len (documents self))%Z eqn:E; [|now apply IH].
  apply Z.ltb_lt in E.
  destruct (get_document_in_range self idx Hal (conj H0 E))
    as (document & meta & ->).
  rewrite Hlow. now apply IH.
Qed.

Lemma Forall_combine {A B : Type} (P : A -> Prop) (Q : B -> Prop)
    (la : list A) (lb : list B) :
  Forall P la -> Forall Q lb ->
  Forall (fun ab => P (fst ab) /\ Q (snd ab)) (combine la lb).
Proof.
  intros Ha. revert lb.
  induction Ha as [|a la Hp Hla IH]; intros lb Hb; [constructor|].
  destruct Hb as [|b lb Hq Hlb]; [constructor|].
  cbn [combine]. constructor; [now split | now apply IH].
Qed.

(** C3.  Every result [search_with_metadata] returns has a similarity at or
    above the configured threshold; and it is a filter after the search: when
    every entry the index scanned scores below the threshold, the list
    returned is empty, however many entries were scanned. *)
Theorem search_with_metadata_threshold (self : t Index) (query : vec)
    (k : option Z) :
  (forall results,
     search_with_metadata self query k = Ok results ->
     Forall (above self) results)
  /\
  (forall distances indices,
     search self query k = Ok (distances, indices) ->
     aligned self ->
     Forall (fun i => (0 <= i)%Z) indices ->
     Forall (fun d =>
               (similarity_threshold self <=? similarity_of self d)%float
               = false) distances ->
     search_with_metadata self query k = Ok []).
Proof.
  split.
  - intros results H. unfold VectorDatabase.search_with_metadata in H.
    destruct (search self query k) as [[distances indices]|e];
      [|discriminate H].
    apply (collect_above self (combine distances indices) 0%Z [] results);
      [constructor | exact H].
  - intros distances indices Hs Hal Hidx Hlow.
    unfold VectorDatabase.search_with_metadata. rewrite Hs.
    apply collect_below; [exact Hal|].
    eapply Forall_impl; [|apply (Forall_combine _ _ _ _ Hlow Hidx)].
    intros [d i] [Hd Hi]. now split.
Qed.

(** C4, the code at the padding of the index library.  The sentinel index
    [-1] passes the guard [index < len(self.documents)]: on a store with no
    entries [search_with_metadata] raises [IndexError] instead of returning
    the empty list, and on a store with entries the sentinel is answered with
    the last document when its score passes the threshold. *)
Theorem search_with_metadata_sentinel (self : t Index) (query : vec)
    (k : option Z) :
  (forall d distances indices,
     search self query k = Ok (d :: distances, (-1)%Z :: indices) ->
     documents self = [] ->
     search_with_metadata self query k
     = Raise (IndexError (lit "list index out of range")))
  /\
  (forall d docs document metas meta,
     search self query k = Ok ([d], [(-1)%Z]) ->
     documents self = docs ++ [document] ->
     metadata self = metas ++ [meta] ->
     (similarity_threshold self <=? similarity_of self d)%float = true ->
     search_with_metadata self query k
     = Ok [mkResult (-1) document meta (similarity_of self d) d 1]).
Proof.
  split.
  - intros d distances indices Hs Hdocs.
    unfold VectorDatabase.search_with_metadata. rewrite Hs.
    cbn [combine VectorDatabase.collect]. unfold get_document.
    rewrite Hdocs. reflexivity.
  - intros d docs document metas meta Hs Hdocs Hmeta Hthr.
    unfold VectorDatabase.search_with_metadata. rewrite Hs.
    cbn [combine VectorDatabase.collect]. unfold get_document.
    rewrite Hdocs, Hmeta, !index_last, len_app.
    change (len [document]) with 1%Z.
    pose proof (len_nonneg docs) as Hn.
    destruct (-1 <? len docs + 1)%Z eqn:E1; [|apply Z.ltb_ge in E1; lia].
    destruct (-1 >=? len docs + 1)%Z eqn:E2;
      [rewrite Z.geb_leb in E2; apply Z.leb_le in E2; lia|].
    rewrite Hthr. reflexivity.
Qed.

(** C7.  When the number of documents differs from the number of embeddings,
    [add_documents] raises [ValueError] and leaves the index, the documents
    and the metadata as they were.  When the numbers agree the rows go to the
    index; once the index has taken them, the documents and their metadata
    (the default ones when none are given) are appended; if the index
    refuses them, its exception is raised and nothing has changed. *)
Theorem add_documents_checks_counts (self : t Index) (docs : list str)
    (embeddings : matrix) (meta : option (list dict)) :
  (length docs <> length embeddings ->
   add_documents self docs embeddings meta
   = (Raise (ValueError
               (lit "Number of documents must match number of embeddings")),
      self))
  /\
  (length docs = length embeddings ->
   let rows :=
     if normalize_L2 self then map l2_normalize embeddings else embeddings in
   match faiss_add (index self) rows with
   | Ok index' =>
       exists self',
         add_documents self docs embeddings meta = (Ok tt, self') /\
         index self' = index' /\
         documents self' = documents self ++ docs /\
         metadata self'
         = metadata self
           ++ match meta with
              | Some (m :: ms) => m :: ms
              | _ => default_metadata (length docs)
              end
   | Raise e => add_documents self docs embeddings meta = (Raise e, self)
   end).
Proof.
  unfold VectorDatabase.add_documents. split.
  - intros Hne.
    destruct (len docs =? len embeddings)%Z eqn:E; [|reflexivity].
    apply Z.eqb_eq in E. unfold len in E. lia.
  - intros Heq. cbv zeta.
    assert (E : (len docs =? len embeddings)%Z = true)
      by (apply Z.eqb_eq; unfold len; lia).
    rewrite E. cbn [negb].
    destruct (faiss_add (index self) _) as [index'|e]; [|reflexivity].
    eexists. split; [reflexivity|]. cbn.
    repeat split. now destruct meta as [[|m ms]|].
Qed.

End WithFaiss.

(** ** A run of the library *)

Local Open Scope float_scope.

(** An index library standing on no rows: [add] takes the rows, [search]
    answers with the given arrays. *)
Definition fixed_search (distances : list float) (indices : list Z)
    : unit -> vec -> Z -> result (list float * list Z) :=
  fun _ _ _ => Ok (distances, indices).

Definition take_rows : unit -> matrix -> result unit := fun _ _ => Ok tt.

Definition same_row : vec -> vec := fun v => v.

Definition one_minus64 : float -> float := fun d => (1 - d)%float.

(** The largest float32, with which FAISS pads the distances. *)
Definition flt_max : float := 0x1.fffffep+127%float.

(** 0.7, the default threshold, as a binary64. *)
Definition default_threshold : float := 0x1.6666666666666p-1%float.

Definition empty_store : t unit :=
  mkDb IndexFlatIP 5%Z default_threshold true tt [] [].

Definition small_store : t unit :=
  mkDb IndexFlatIP 5%Z default_threshold true tt
       [lit "first"; lit "second"] [[]; []].

(** The witness of C3: two entries scanned, none above the threshold, no
    result; and one of two above it, one result. *)
Lemma search_with_metadata_threshold_witness :
  search_with_metadata (fixed_search [0.5; 0.25] [1; 0]%Z) same_row one_minus64
    small_store [1%float] (Some 2%Z) = Ok []
  /\
  Forall (above small_store)
    [mkResult 1%Z (lit "second") [] 0.75 0.75 1%Z].
Proof.
  split.
  - apply (proj2 (search_with_metadata_threshold
                    (fixed_search [0.5; 0.25] [1; 0]%Z) same_row one_minus64
                    small_store [1%float] (Some 2%Z))
             [0.5; 0.25]%float [1; 0]%Z).
    + reflexivity.
    + reflexivity.
    + repeat constructor; discriminate.
    + repeat constructor.
  - apply (proj1 (search_with_metadata_threshold
                    (fixed_search [0.75; 0.5] [1; 0]%Z) same_row one_minus64
                    small_store [1%float] (Some 2%Z))).
    reflexivity.
Defined.

(** The witness of C4: the empty store asked for five neighbours. *)
Lemma search_with_metadata_sentinel_witness :
  search_with_metadata
    (fixed_search (repeat (- flt_max) 5%nat) (repeat (-1)%Z 5%nat))
    same_row one_minus64 empty_store [1%float] None
  = Raise (IndexError (lit "list index out of range")).
Proof.
  apply (proj1 (search_with_metadata_sentinel
                  (fixed_search (repeat (- flt_max) 5%nat) (repeat (-1)%Z 5%nat))
                  same_row one_minus64 empty_store [1%float] None)
           (- flt_max) (repeat (- flt_max) 4%nat) (repeat (-1)%Z 4%nat));
    reflexivity.
Defined.

(** The witness of C7: two documents with one embedding. *)
Lemma add_documents_checks_counts_witness :
  add_documents take_rows same_row small_store
    [lit "third"; lit "fourth"] [[1%float]] None
  = (Raise (ValueError
              (lit "Number of documents must match number of embeddings")),
     small_store)
  /\
  exists self',
    add_documents take_rows same_row small_store
      [lit "third"] [[1%float]] None = (Ok tt, self') /\
    documents self' = [lit "first"; lit "second"; lit "third"] /\
    metadata self' = [[]; []; [(lit "index", VInt 0%Z)]].
Proof.
  split.
  - apply (proj1 (add_documents_checks_counts take_rows same_row small_store
                    [lit "third"; lit "fourth"] [[1%float]] None)).
    discriminate.
  - destruct (proj2 (add_documents_checks_counts take_rows same_row small_store
                       [lit "third"] [[1%float]] None) eq_refl)
      as (self' & Hadd & _ & Hdocs & Hmeta).
    exists self'. split; [exact Hadd|]. split; [exact Hdocs | exact Hmeta].
Defined.

End StoreTheorems.
(* ================================================================== *)
(** * Cosine similarity *)
(* ================================================================== *)

Module SimilarityTheorems.
Import EmbeddingModel.

Local Open Scope float_scope.

(** C9, the code at two opposite vectors: the cosine is [-1], below the
    interval from 0 to 1 that the docstring of [similarity] announces. *)
Theorem similarity_opposite_vectors :
  norm [1; 0] = 1 /\ norm [-1; 0] = 1 /\
  similarity [1; 0] [-1; 0] = -1 /\
  (similarity [1; 0] [-1; 0] <? 0) = true.
Proof. repeat split; vm_compute; reflexivity. Qed.

End SimilarityTheorems.

(* ================================================================== *)
(** * Context assembly *)
(* ================================================================== *)

Module ContextTheorems.
Import Py PyFacts VectorDatabase PromptManager.

Section WithFormat.

Variable fmt2 : float -> str.

(** The formatted results, whole, in the order given, from position [i]. *)
Fixpoint formatted_from (i : Z) (search_results : list SearchResult)
    : list str :=
  match search_results with
  | [] => []
  | result :: rest => format_result fmt2 i result :: formatted_from (i + 1) rest
  end.

(** What [current_length] counts: the characters of the parts. *)
Definition total_len (parts : list str) : Z :=
  fold_right (fun p n => (len p + n)%Z) 0%Z parts.

Lemma total_len_cons (p : str) (ps : list str) :
  total_len (p :: ps) = (len p + total_len ps)%Z.
Proof. reflexivity. Qed.

Lemma context_parts_prefix (max_length : Z) (results : list SearchResult) :
  forall (current_length i : Z),
  exists n,
    (n <= length results)%nat /\
    context_parts fmt2 max_length current_length i results
    = firstn n (formatted_from i results) /\
    (n = 0%nat \/
     (current_length + total_len (firstn n (formatted_from i results))
      <= max_length)%Z) /\
    ((n < length results)%nat ->
     (max_length
      < current_length + total_len (firstn (S n) (formatted_from i results)))%Z).
Proof.
  induction results as [|r rest IH]; intros cur i.
  - exists 0%nat. cbn. repeat split; [lia | now left | lia].
  - cbn [context_parts formatted_from].
    destruct (cur + len (format_result fmt2 i r) >? max_length)%Z eqn:E.
    + exists 0%nat. cbn [firstn length total_len fold_right].
      repeat split; [lia | now left |].
      intros _. rewrite Z.gtb_ltb in E. apply Z.ltb_lt in E. lia.
    + rewrite Z.gtb_ltb in E. apply Z.ltb_ge in E.
      destruct (IH (cur + len (format_result fmt2 i r))%Z (i + 1)%Z)
        as (n & Hn & Heq & Hfit & Hover).
      exists (S n). rewrite !firstn_cons, !total_len_cons. cbn [length].
      repeat split.
      * lia.
      * now rewrite Heq.
      * right. destruct Hfit as [-> | Hfit]; [|lia].
        cbn [firstn]. change (total_len []) with 0%Z. lia.
      * intros Hlt.
        assert (Hlt' : (n < length rest)%nat) by lia.
        specialize (Hover Hlt'). lia.
Qed.

Lemma formatted_from_enumerate (search_results : list SearchResult) :
  forall i,
    formatted_from i search_results
    = map (fun ir => format_result fmt2 (fst ir) (snd ir))
          (enumerate_from i search_results).
Proof.
  induction search_results as [|r rest IH]; intros i; [reflexivity|].
  cbn [formatted_from enumerate_from map fst snd]. now rewrite IH.
Qed.

(** The join puts one newline between two parts, and [total_len] does
    not count it. *)
Lemma len_join_parts (parts : list str) :
  len (join [nl] parts)
  = (total_len parts + Z.max (Z.of_nat (length parts) - 1) 0)%Z.
Proof.
  induction parts as [|p ps IH]; [reflexivity|].
  destruct ps as [|q ps].
  - cbn [join total_len fold_right length]. lia.
  - rewrite join_cons by discriminate.
    rewrite !len_app, IH, (total_len_cons p).
    change (len [nl]) with 1%Z. cbn [length]. lia.
Qed.

(** C8, the code at results that fill the budget.  The context is the join
    of the first [n] results, each written out whole as
    "[Source: ..., Title: ..., Similarity: ...]", a newline, its text and a
    newline, in the order given; the loop stops at the first result whose
    length, added to the lengths of those before it, passes [max_length].
    The newlines of the join are not in that count: the context has
    [n - 1] characters more than was counted, and when two results or more
    fill the budget to the last character, the last of them is included
    although the context is then longer than [max_length]. *)
Theorem format_context_separators_uncounted (self_max : Z)
    (search_results : list SearchResult) (max_context_length : option Z) :
  let max_length := or_default max_context_length self_max in
  let whole := fun ir : Z * SearchResult =>
    lit "[Source: "
    ++ str_of_value
         (get (r_metadata (snd ir)) (lit "source") (VStr (lit "unknown")))
    ++ lit ", Title: "
    ++ str_of_value
         (get (r_metadata (snd ir)) (lit "title")
              (VStr (lit "Document " ++ str_of_Z (fst ir + 1))))
    ++ lit ", Similarity: " ++ fmt2 (r_similarity (snd ir)) ++ lit "]"
    ++ [nl] ++ r_text (snd ir) ++ [nl] in
  let formatted := map whole (enumerate_from 0 search_results) in
  let context :=
    format_context fmt2 self_max search_results max_context_length in
  exists n,
    (n <= length search_results)%nat /\
    context = join [nl] (firstn n formatted) /\
    (n = 0%nat \/ (total_len (firstn n formatted) <= max_length)%Z) /\
    ((n < length search_results)%nat ->
     (max_length < total_len (firstn (S n) formatted))%Z) /\
    len context
    = (total_len (firstn n formatted) + Z.max (Z.of_nat n - 1) 0)%Z /\
    ((2 <= n)%nat -> total_len (firstn n formatted) = max_length ->
     (max_length < len context)%Z).
Proof.
  cbv zeta. unfold format_context.
  destruct (context_parts_prefix
              (or_default max_context_length self_max) search_results 0 0)
    as (n & Hn & Heq & Hfit & Hover).
  rewrite formatted_from_enumerate in Heq, Hfit, Hover.
  change (fun ir : Z * SearchResult => format_result fmt2 (fst ir) (snd ir))
    with (fun ir : Z * SearchResult =>
            lit "[Source: "
            ++ str_of_value
                 (get (r_metadata (snd ir)) (lit "source")
                      (VStr (lit "unknown")))
            ++ lit ", Title: "
            ++ str_of_value
                 (get (r_metadata (snd ir)) (lit "title")
                      (VStr (lit "Document " ++ str_of_Z (fst ir + 1))))
            ++ lit ", Similarity: " ++ fmt2 (r_similarity (snd ir))
            ++ lit "]" ++ [nl] ++ r_text (snd ir) ++ [nl])
    in Heq, Hfit, Hover.
  set (formatted := map _ (enumerate_from 0 search_results)) in *.
  assert (Hlen : length (firstn n formatted) = n).
  { apply firstn_length_le. unfold formatted.
    rewrite length_map.
    assert (He : forall (l : list SearchResult) i,
               length (enumerate_from i l) = length l)
      by (induction l as [|x l IH]; intros i; [reflexivity|];
          cbn [enumerate_from length]; now rewrite IH).
    now rewrite He. }
  assert (Hjoin : len (join [nl] (firstn n formatted))
                  = (total_len (firstn n formatted)
                     + Z.max (Z.of_nat n - 1) 0)%Z)
    by (now rewrite len_join_parts, Hlen).
  exists n. rewrite Heq.
  repeat split; [exact Hn | exact Hfit | exact Hover | exact Hjoin |].
  intros H2 Hfull. rewrite Hjoin.
  assert (Hf : total_len (firstn n formatted)
               = or_default max_context_length self_max) by exact Hfull.
  clear Hfull. clearbody formatted. lia.
Qed.

(** Under a budget of ten characters no result fits: the context is empty
    although results were retrieved. *)
Lemma format_context_tight_budget (result : SearchResult)
    (rest : list SearchResult) :
  format_context fmt2 4000 (result :: rest) (Some 10%Z) = [].
Proof.
  unfold format_context. cbn [or_default Z.eqb context_parts].
  assert (H : (10 < len (format_result fmt2 0 result))%Z).
  { unfold format_result. rewrite !len_app.
    change (len (lit "[Source: ")) with 9%Z.
    change (len (lit ", Title: ")) with 9%Z.
    repeat match goal with
           | |- context [len ?x] =>
               lazymatch x with
               | _ ++ _ => fail
               | _ => pose proof (len_nonneg x); generalize dependent (len x); intros
               end
           end.
    lia. }
  destruct (0 + len (format_result fmt2 0 result) >? 10)%Z eqn:E;
    [reflexivity|].
  rewrite Z.gtb_ltb in E. apply Z.ltb_ge in E. lia.
Qed.

End WithFormat.

(** ** A budget filled to the last character *)

Local Open Scope float_scope.

(** [format(0.75, ".2f")], for results of that similarity. *)
Definition three_quarters : float -> str := fun _ => lit "0.75".

Definition four_letters (index : Z) : SearchResult :=
  mkResult index (lit "abcd") [] 0.75 0.75 (index + 1).

(** The witness of C8: two results of sixty characters each under a budget
    of one hundred and twenty. *)
Lemma format_context_separators_uncounted_witness :
  len (format_context three_quarters 4000 [four_letters 0; four_letters 1]
         (Some 120%Z))
  = 121%Z.
Proof.
  destruct (format_context_separators_uncounted three_quarters 4000
              [four_letters 0; four_letters 1] (Some 120%Z))
    as (n & Hn & _ & _ & Hover & Hlen & _).
  destruct n as [|[|[|n]]].
  - specialize (Hover (Nat.lt_0_succ 1)). vm_compute in Hover.
    discriminate Hover.
  - specialize (Hover (Nat.lt_succ_diag_r 1)). vm_compute in Hover.
    discriminate Hover.
  - rewrite Hlen. reflexivity.
  - cbn [length] in Hn. lia.
Defined.

End ContextTheorems.

(* ================================================================== *)
(** * The question-answering coordinator *)
(* ================================================================== *)

Module AnswerTheorems.
Import Py PyFacts VectorDatabase RAGPipeline.

Local Open Scope float_scope.

(** ** Retrieval on a store without entries *)

Section EmptyStore.

Context {Index : Type}.
Variable faiss_search : Index -> vec -> Z -> result (list float * list Z).
Variable l2_normalize : vec -> vec.
Variable one_minus : float -> float.
Variable encode_single : str -> result vec.

Lemma collect_empty_store (self : t Index) (hits : list (float * Z)) :
  documents self = [] ->
  forall i,
    collect one_minus self i hits [] = Ok []
    \/ exists e, collect one_minus self i hits [] = Raise e.
Proof.
  intros Hdocs. induction hits as [|[distance idx] hits IH]; intros i;
    [now left|].
  cbn [collect]. rewrite Hdocs. change (len (@nil str)) with 0%Z.
  destruct (idx <? 0)%Z eqn:E; [|apply IH].
  right. unfold get_document. rewrite Hdocs. change (len (@nil str)) with 0%Z.
  apply Z.ltb_lt in E.
  destruct (idx >=? 0)%Z eqn:E'; [eexists; reflexivity|].
  unfold Py.index. change (len (@nil str)) with 0%Z.
  destruct (idx <? 0)%Z eqn:E2; [|apply Z.ltb_ge in E2; lia].
  destruct (0 + idx <? 0)%Z eqn:E3; [|apply Z.ltb_ge in E3; lia].
  eexists; reflexivity.
Qed.

Lemma search_empty_store (self : t Index) (query : str) (k : option Z) :
  documents self = [] ->
  EmbeddingPipeline.search faiss_search l2_normalize one_minus encode_single
    self query k = Ok []
  \/ exists e,
      EmbeddingPipeline.search faiss_search l2_normalize one_minus
        encode_single self query k = Raise e.
Proof.
  intros Hdocs. unfold EmbeddingPipeline.search.
  destruct (encode_single query) as [emb|e]; [|right; now exists e].
  unfold search_with_metadata.
  destruct (search faiss_search l2_normalize self emb k)
    as [[distances indices]|e]; [|right; now exists e].
  now apply collect_empty_store.
Qed.

End EmptyStore.

Section WithComponents.

Variable search : str -> option Z -> result (list SearchResult).
Variable format_context : list SearchResult -> result str.
Variable generator : str -> result str.
Variable sum : list float -> float.

Local Abbreviation answer_question :=
  (answer_question search format_context generator sum).

Lemma answer_question_search_raises (question : str) (k : option Z)
    (tr : trace) (e : exn) :
  search question k = Raise e ->
  answer_question question k tr = (Ok (degraded e), tr).
Proof.
  intros H. unfold RAGPipeline.answer_question, try_except, answer_body,
    bind, lift.
  now rewrite H.
Qed.

Lemma answer_question_search_empty (question : str) (k : option Z)
    (tr : trace) :
  search question k = Ok [] ->
  answer_question question k tr = (Ok no_information, tr).
Proof.
  intros H. unfold RAGPipeline.answer_question, try_except, answer_body,
    bind, lift.
  now rewrite H.
Qed.

Lemma answer_question_error_keys (question : str) (k : option Z)
    (tr tr' : trace) (a : Answer) :
  answer_question question k tr = (Ok a, tr') ->
  error a <> None ->
  question_of a = None /\ context_length a = None.
Proof.
  unfold RAGPipeline.answer_question, try_except, answer_body, bind, lift.
  destruct (search question k) as [[|r results]|e]; cbn [nonempty negb ret].
  - intros [= <- _] H. now contradiction H.
  - destruct (format_context (r :: results)) as [context|e].
    + unfold generate_with_context, generate.
      destruct (generator (context_prompt context question));
        cbn [ret]; intros [= <- _] H; [now contradiction H | now split].
    + intros [= <- _] _. now split.
  - intros [= <- _] _. now split.
Qed.

(** C5, the code at an exception of the pipeline.  [answer_question] does
    return an answer whatever the retrieval, the formatting and the language
    model do, and an exception of any of them ends in the degraded answer:
    the text "I encountered an error ...", confidence 0.0 and the message of
    the exception in [error].  But the degraded answer is not the response
    object of a successful answer with these fields changed: it has no
    [question] and no [context_length], which the successful answer has and
    which the handler of [POST /ask] reads from every answer.  So an answer
    that carries an error is not rendered by the API: the subscript
    [result["question"]] raises [KeyError] and the handler ends in the
    status 500. *)
Theorem answer_question_degraded_unrendered (question : str) (k : option Z)
    (tr : trace) :
  (exists a tr', answer_question question k tr = (Ok a, tr'))
  /\
  (forall e,
     search question k = Raise e ->
     answer_question question k tr = (Ok (degraded e), tr))
  /\
  (forall results e,
     search question k = Ok results -> results <> [] ->
     format_context results = Raise e ->
     answer_question question k tr = (Ok (degraded e), tr))
  /\
  (forall results context e,
     search question k = Ok results -> results <> [] ->
     format_context results = Ok context ->
     generator (context_prompt context question) = Raise e ->
     answer_question question k tr
     = (Ok (degraded e), tr ++ [context_prompt context question]))
  /\
  (forall e,
     answer (degraded e)
     = lit "I encountered an error while processing your question. Please try again."
     /\ confidence (degraded e) = 0
     /\ error (degraded e) = Some (message e)
     /\ question_of (degraded e) = None
     /\ context_length (degraded e) = None)
  /\
  (forall results context generated_text,
     search question k = Ok results -> results <> [] ->
     format_context results = Ok context ->
     generator (context_prompt context question) = Ok generated_text ->
     exists a,
       answer_question question k tr
       = (Ok a, tr ++ [context_prompt context question])
       /\ question_of a = Some question
       /\ context_length a = Some (len context)
       /\ error a = None)
  /\
  (forall (Response : Type)
          (QuestionResponse :
             str -> list SourceInfo -> float -> Z -> str -> Z -> option str
             -> result Response)
          a tr',
     answer_question question k tr = (Ok a, tr') ->
     error a <> None ->
     Endpoints.ask_question search format_context generator sum Response
       QuestionResponse question k tr
     = (Endpoints.HTTPException 500
          (lit "Error processing question: 'question'"),
        tr')).
Proof.
  split; [|split; [|split; [|split; [|split; [|split]]]]].
  - unfold RAGPipeline.answer_question, try_except.
    destruct (answer_body search format_context generator sum question k tr)
      as [[a|e] tr']; eexists; eexists; reflexivity.
  - intros e H. now apply answer_question_search_raises.
  - intros results e Hs Hne Hf.
    unfold RAGPipeline.answer_question, try_except, answer_body, bind, lift.
    rewrite Hs. apply nonempty_true in Hne. rewrite Hne. cbn [negb].
    now rewrite Hf.
  - intros results context e Hs Hne Hf Hg.
    unfold RAGPipeline.answer_question, try_except, answer_body, bind, lift.
    rewrite Hs. apply nonempty_true in Hne. rewrite Hne. cbn [negb].
    rewrite Hf. unfold generate_with_context, generate. now rewrite Hg.
  - intros e. repeat split.
  - intros results context generated_text Hs Hne Hf Hg.
    unfold RAGPipeline.answer_question, try_except, answer_body, bind, lift.
    rewrite Hs. apply nonempty_true in Hne. rewrite Hne. cbn [negb].
    rewrite Hf. unfold generate_with_context, generate. rewrite Hg.
    eexists. split; [reflexivity|]. now repeat split.
  - intros Response QuestionResponse a tr' Hrun Herr.
    destruct (answer_question_error_keys question k tr tr' a Hrun Herr)
      as [Hq _].
    unfold Endpoints.ask_question, Endpoints.question_response.
    rewrite Hrun, Hq. reflexivity.
Qed.

End WithComponents.

(** C6.  When the retrieval returns no result, [answer_question] returns the
    "no relevant information" answer with confidence 0.0 and
    [retrieved_documents] 0, and the language model is not called: the trace
    of its calls is as before.  On a store without entries the retrieval
    returns no result or raises, and either way the answer has confidence
    0.0, [retrieved_documents] 0, and the language model is not called. *)
Theorem answer_question_no_results
    (format_context : list SearchResult -> result str)
    (generator : str -> result str) (sum : list float -> float)
    (question : str) (k : option Z) (tr : trace) :
  (forall search,
     search question k = Ok [] ->
     answer_question search format_context generator sum question k tr
     = (Ok no_information, tr)
     /\ confidence no_information = 0
     /\ retrieved_documents no_information = 0%Z)
  /\
  (forall (Index : Type) faiss_search l2_normalize one_minus encode_single
          (vector_db : VectorDatabase.t Index),
     documents vector_db = [] ->
     exists a,
       answer_question
         (EmbeddingPipeline.search faiss_search l2_normalize one_minus
            encode_single vector_db)
         format_context generator sum question k tr
       = (Ok a, tr)
       /\ confidence a = 0 /\ retrieved_documents a = 0%Z).
Proof.
  split.
  - intros search H. split; [|split; reflexivity].
    now apply answer_question_search_empty.
  - intros Index faiss_search l2_normalize one_minus encode_single vector_db
      Hdocs.
    destruct (search_empty_store faiss_search l2_normalize one_minus
                encode_single vector_db question k Hdocs) as [H | [e H]].
    + exists no_information. split; [|split; reflexivity].
      now apply answer_question_search_empty.
    + exists (degraded e). split; [|split; reflexivity].
      now apply answer_question_search_raises.
Qed.

(** ** A run of the pipeline *)

Definition failing_search (e : exn)
    : str -> option Z -> result (list SearchResult) :=
  fun _ _ => Raise e.

Definition empty_search : str -> option Z -> result (list SearchResult) :=
  fun _ _ => Ok [].

Definition plain_context : list SearchResult -> result str :=
  fun results => Ok (join [nl] (map r_text results)).

Definition echo_generator : str -> result str := fun prompt => Ok prompt.

Definition sum_left : list float -> float :=
  fun xs => fold_left PrimFloat.add xs 0.

(** The response model that takes what it is given. *)
Definition plain_response :
  str -> list SourceInfo -> float -> Z -> str -> Z -> option str
  -> result Answer :=
  fun answer sources confidence retrieved_documents question context_length
      error =>
    Ok (mkAnswer answer sources confidence retrieved_documents (Some question)
          (Some context_length) error).

(** The witness of C5: a question put to [POST /ask] while the store has no
    entries, where the search of the index raises on the padding. *)
Lemma answer_question_degraded_unrendered_witness :
  Endpoints.ask_question
    (EmbeddingPipeline.search
       (StoreTheorems.fixed_search
          (repeat (- StoreTheorems.flt_max) 5%nat) (repeat (-1)%Z 5%nat))
       StoreTheorems.same_row StoreTheorems.one_minus64
       (fun _ => Ok [1]) StoreTheorems.empty_store)
    plain_context echo_generator sum_left Answer plain_response
    (lit "What is FAISS?") None []
  = (Endpoints.HTTPException 500
       (lit "Error processing question: 'question'"),
     []).
Proof.
  destruct (answer_question_degraded_unrendered
              (EmbeddingPipeline.search
                 (StoreTheorems.fixed_search
                    (repeat (- StoreTheorems.flt_max) 5%nat)
                    (repeat (-1)%Z 5%nat))
                 StoreTheorems.same_row StoreTheorems.one_minus64
                 (fun _ => Ok [1]) StoreTheorems.empty_store)
              plain_context echo_generator sum_left
              (lit "What is FAISS?") None [])
    as (_ & _ & _ & _ & _ & _ & H).
  apply (H Answer plain_response
           (degraded (IndexError (lit "list index out of range"))) []);
    [reflexivity | discriminate].
Defined.

(** The witness of C6: the retrieval finds nothing. *)
Lemma answer_question_no_results_witness :
  answer_question empty_search plain_context echo_generator sum_left
    (lit "What is FAISS?") None []
  = (Ok no_information, [])
  /\ confidence no_information = 0
  /\ retrieved_documents no_information = 0%Z.
Proof.
  apply (proj1 (answer_question_no_results plain_context echo_generator
                  sum_left (lit "What is FAISS?") None []) empty_search).
  reflexivity.
Defined.

End AnswerTheorems.
(* ================================================================== *)
(** * The vector store: lookup, growth and the shape of search results *)
(* ================================================================== *)

Module StoreProperties.
Import Py PyFacts VectorDatabase StoreTheorems.

Lemma index_at {A : Type} (l : list A) (i : Z) (x : A) :
  (0 <= i)%Z -> nth_error l (Z.to_nat i) = Some x -> Py.index l i = Ok x.
Proof.
  intros Hi Hx. unfold Py.index.
  destruct (i <? 0)%Z eqn:E; [apply Z.ltb_lt in E; lia|].
  rewrite E. now rewrite Hx.
Qed.

Lemma index_wraps {A : Type} (l : list A) (i : Z) :
  (i < 0)%Z -> (0 <= len l + i)%Z -> Py.index l i = Py.index l (len l + i).
Proof.
  intros Hneg Hpos. unfold Py.index.
  destruct (i <? 0)%Z eqn:E; [|apply Z.ltb_ge in E; lia].
  destruct (len l + i <? 0)%Z eqn:E'; [apply Z.ltb_lt in E'; lia|].
  now rewrite E'.
Qed.

Lemma index_beyond {A : Type} (l : list A) (i : Z) :
  (len l <= i)%Z ->
  Py.index l i = Raise (IndexError (lit "list index out of range")).
Proof.
  intros Hi. pose proof (len_nonneg l) as Hn. unfold Py.index.
  destruct (i <? 0)%Z eqn:E; [apply Z.ltb_lt in E; lia|]. rewrite E.
  destruct (nth_error l (Z.to_nat i)) as [x|] eqn:En; [|reflexivity].
  assert (Hlt : (Z.to_nat i < length l)%nat)
    by (apply nth_error_Some; rewrite En; discriminate).
  unfold len in Hi. lia.
Qed.

Lemma index_before {A : Type} (l : list A) (i : Z) :
  (i < - len l)%Z ->
  Py.index l i = Raise (IndexError (lit "list index out of range")).
Proof.
  intros Hi. pose proof (len_nonneg l) as Hn. unfold Py.index.
  destruct (i <? 0)%Z eqn:E; [|apply Z.ltb_ge in E; lia].
  destruct (len l + i <? 0)%Z eqn:E'; [reflexivity|apply Z.ltb_ge in E'; lia].
Qed.

Lemma index_app_old {A : Type} (l l' : list A) (i : Z) :
  (0 <= i < len l)%Z -> Py.index (l ++ l') i = Py.index l i.
Proof.
  intros [H0 H1]. unfold Py.index.
  destruct (i <? 0)%Z eqn:E; [apply Z.ltb_lt in E; lia|]. rewrite E.
  rewrite nth_error_app1; [reflexivity|]. unfold len in H1. lia.
Qed.

Lemma index_app_new {A : Type} (l l' : list A) (i : nat) (x : A) :
  nth_error l' i = Some x -> Py.index (l ++ l') (len l + Z.of_nat i) = Ok x.
Proof.
  intros Hx. pose proof (len_nonneg l) as Hn.
  apply index_at; [lia|].
  replace (Z.to_nat (len l + Z.of_nat i)) with (length l + i)%nat
    by (unfold len; lia).
  rewrite nth_error_app2 by lia.
  now replace (length l + i - length l)%nat with i by lia.
Qed.

Section WithFaiss.

Context {Index : Type}.
Variable faiss_add : Index -> matrix -> result Index.
Variable faiss_search : Index -> vec -> Z -> result (list float * list Z).
Variable l2_normalize : vec -> vec.
Variable one_minus : float -> float.

Local Abbreviation add_documents := (add_documents faiss_add l2_normalize).
Local Abbreviation search := (search faiss_search l2_normalize).
Local Abbreviation collect := (collect one_minus).
Local Abbreviation similarity_of := (similarity_of one_minus).
Local Abbreviation search_with_metadata :=
  (search_with_metadata faiss_search l2_normalize one_minus).

(** The document and the metadata stored at a position. *)
Definition entry_at (self : t Index) (j : nat) : option (str * dict) :=
  match nth_error (documents self) j, nth_error (metadata self) j with
  | Some document, Some meta => Some (document, meta)
  | _, _ => None
  end.

Lemma entry_at_in_range (self : t Index) (j : nat) :
  aligned self -> (j < length (documents self))%nat ->
  exists entry, entry_at self j = Some entry.
Proof.
  intros Hal Hj. unfold entry_at.
  destruct (nth_error (documents self) j) as [document|] eqn:Ed;
    [|apply nth_error_None in Ed; lia].
  destruct (nth_error (metadata self) j) as [meta|] eqn:Em;
    [|apply nth_error_None in Em; unfold aligned in Hal; lia].
  now eexists.
Qed.

Lemma get_document_at (self : t Index) (i : Z) (entry : str * dict) :
  (0 <= i)%Z -> entry_at self (Z.to_nat i) = Some entry ->
  get_document self i = Ok entry.
Proof.
  intros Hi He. unfold entry_at in He.
  destruct (nth_error (documents self) (Z.to_nat i)) as [document|] eqn:Ed;
    [|discriminate He].
  destruct (nth_error (metadata self) (Z.to_nat i)) as [meta|] eqn:Em;
    [|discriminate He].
  injection He as <-. unfold get_document.
  assert (Hlt : (Z.to_nat i < length (documents self))%nat)
    by (apply nth_error_Some; rewrite Ed; discriminate).
  destruct (i >=? len (documents self))%Z eqn:E;
    [rewrite Z.geb_leb in E; apply Z.leb_le in E; unfold len in E; lia|].
  now rewrite (index_at _ _ _ Hi Ed), (index_at _ _ _ Hi Em).
Qed.

(** The metadata [add_documents] stores for the document at position [i] of
    the batch. *)
Definition stored_metadata (meta : option (list dict)) (i : nat) : option dict :=
  match meta with
  | Some (m :: ms) => nth_error (m :: ms) i
  | _ => Some [(lit "index", VInt (Z.of_nat i))]
  end.

(** The metadata given with a batch has one entry for each document. *)
Definition metadata_fits (docs : list str) (meta : option (list dict)) : Prop :=
  match meta with
  | Some (m :: ms) => length (m :: ms) = length docs
  | _ => True
  end.

Lemma default_metadata_length (n : nat) : length (default_metadata n) = n.
Proof. unfold default_metadata, range. now rewrite !length_map, length_seq. Qed.

Lemma default_metadata_nth (n i : nat) :
  (i < n)%nat ->
  nth_error (default_metadata n) i = Some [(lit "index", VInt (Z.of_nat i))].
Proof.
  intros Hi. unfold default_metadata, range.
  rewrite !nth_error_map, nth_error_seq.
  apply Nat.ltb_lt in Hi. now rewrite Hi.
Qed.

Lemma add_documents_ok (self self' : t Index) (docs : list str)
    (embeddings : matrix) (meta : option (list dict)) :
  add_documents self docs embeddings meta = (Ok tt, self') ->
  documents self' = documents self ++ docs /\
  metadata self'
  = metadata self
    ++ match meta with
       | Some (m :: ms) => m :: ms
       | _ => default_metadata (length docs)
       end.
Proof.
  unfold VectorDatabase.add_documents.
  destruct (negb (len docs =? len embeddings)%Z); [discriminate|].
  destruct (faiss_add _ _) as [index'|e]; [|discriminate].
  intros H. injection H as <-. cbn. split; [reflexivity|].
  now destruct meta as [[|m ms]|].
Qed.

Lemma get_document_wraps (self : t Index) (i : Z) (entry : str * dict) :
  aligned self -> (i < 0)%Z -> (0 <= len (documents self) + i)%Z ->
  entry_at self (Z.to_nat (len (documents self) + i)) = Some entry ->
  get_document self i = Ok entry.
Proof.
  intros Hal Hneg Hpos He. set (n := len (documents self)) in *.
  assert (Hg : get_document self (n + i) = Ok entry)
    by (apply get_document_at; [lia | exact He]).
  unfold get_document in *. fold n in Hg |- *.
  destruct (i >=? n)%Z eqn:E;
    [rewrite Z.geb_leb in E; apply Z.leb_le in E; lia|].
  destruct (n + i >=? n)%Z eqn:E';
    [rewrite Z.geb_leb in E'; apply Z.leb_le in E'; lia|].
  assert (Hm : len (metadata self) = n) by (unfold n, len; now rewrite Hal).
  rewrite (index_wraps (documents self) i), (index_wraps (metadata self) i)
    by (fold n; lia).
  rewrite Hm. fold n. exact Hg.
Qed.

Lemma get_document_answers (self : t Index) (i : Z) :
  aligned self ->
  (- len (documents self) <= i < len (documents self))%Z ->
  exists entry, get_document self i = Ok entry.
Proof.
  intros Hal Hi.
  destruct (Z.neg_nonneg_cases i) as [Hn|Hn].
  - destruct (entry_at_in_range self (Z.to_nat (len (documents self) + i)) Hal)
      as (entry & He); [unfold len in *; lia|].
    exists entry. apply get_document_wraps; [exact Hal | lia | lia | exact He].
  - destruct (entry_at_in_range self (Z.to_nat i) Hal) as (entry & He);
      [unfold len in *; lia|].
    exists entry. now apply get_document_at.
Qed.

Lemma get_document_refuses (self : t Index) (i : Z) :
  (i < - len (documents self))%Z \/ (len (documents self) <= i)%Z ->
  exists msg, get_document self i = Raise (IndexError msg).
Proof.
  intros Hi. pose proof (len_nonneg (documents self)) as Hn.
  unfold get_document.
  destruct (i >=? len (documents self))%Z eqn:E; [now eexists|].
  rewrite Z.geb_leb in E. apply Z.leb_gt in E.
  destruct Hi as [Hi|Hi]; [|lia].
  rewrite index_before by exact Hi. now eexists.
Qed.

(** X1.  On a store whose metadata array is as long as its documents
    array, [get_document] answers exactly the indices from [-n] to [n - 1]:
    a non-negative index names its position, a negative one counts from
    the end (it is not rejected), an index at or past [n] raises the
    function's own [IndexError] and one below [-n] the list's. *)
Theorem get_document_bounds (self : t Index) (i : Z) :
  aligned self ->
  let n := len (documents self) in
  ((0 <= i < n)%Z ->
   exists entry,
     entry_at self (Z.to_nat i) = Some entry /\ get_document self i = Ok entry)
  /\
  ((- n <= i < 0)%Z ->
   exists entry,
     entry_at self (Z.to_nat (n + i)) = Some entry /\
     get_document self i = Ok entry)
  /\
  ((n <= i)%Z ->
   get_document self i
   = Raise (IndexError
              (lit "Document index " ++ str_of_Z i ++ lit " out of range")))
  /\
  ((i < - n)%Z ->
   get_document self i = Raise (IndexError (lit "list index out of range"))).
Proof.
  intros Hal n. pose proof (len_nonneg (documents self)) as Hn.
  repeat split.
  - intros Hi.
    destruct (entry_at_in_range self (Z.to_nat i) Hal) as (entry & He);
      [unfold n, len in Hi; lia|].
    exists entry. split; [exact He|]. now apply get_document_at.
  - intros Hi.
    destruct (entry_at_in_range self (Z.to_nat (n + i)) Hal) as (entry & He);
      [unfold n, len in *; lia|].
    exists entry. split; [exact He|].
    apply get_document_wraps; [exact Hal | lia | fold n; lia | exact He].
  - intros Hi. unfold get_document.
    destruct (i >=? len (documents self))%Z eqn:E; [reflexivity|].
    rewrite Z.geb_leb in E. apply Z.leb_gt in E. fold n in E. lia.
  - intros Hi. unfold get_document.
    destruct (i >=? len (documents self))%Z eqn:E;
      [rewrite Z.geb_leb in E; apply Z.leb_le in E; fold n in E; lia|].
    now rewrite index_before by (fold n; lia).
Qed.

(** X2.  Insert, then look up: after [add_documents] has returned on an
    aligned store with metadata that fits the batch, every entry the store
    held is found at its old index, and the document at position [i] of the
    batch is found at index [n + i], [n] being the old size, with the
    metadata given for it, or with [{"index": i}], its position in the batch,
    when none was given. *)
Theorem add_documents_round_trip (self self' : t Index) (docs : list str)
    (embeddings : matrix) (meta : option (list dict)) :
  aligned self ->
  metadata_fits docs meta ->
  add_documents self docs embeddings meta = (Ok tt, self') ->
  (forall i, (0 <= i < len (documents self))%Z ->
             get_document self' i = get_document self i)
  /\
  (forall i document,
     nth_error docs i = Some document ->
     exists m,
       stored_metadata meta i = Some m /\
       get_document self' (len (documents self) + Z.of_nat i)
       = Ok (document, m)).
Proof.
  intros Hal Hfit Hadd.
  destruct (add_documents_ok _ _ _ _ _ Hadd) as [Hdocs Hmeta].
  pose proof (len_nonneg (documents self)) as Hn.
  split.
  - intros i Hi. unfold get_document. rewrite Hdocs, Hmeta, len_app.
    pose proof (len_nonneg docs) as Hd.
    destruct (i >=? len (documents self) + len docs)%Z eqn:E;
      [rewrite Z.geb_leb in E; apply Z.leb_le in E; lia|].
    destruct (i >=? len (documents self))%Z eqn:E';
      [rewrite Z.geb_leb in E'; apply Z.leb_le in E'; lia|].
    rewrite !index_app_old; [reflexivity | | exact Hi].
    unfold len in *. rewrite Hal. exact Hi.
  - intros i document Hd.
    assert (Hi : (i < length docs)%nat)
      by (apply nth_error_Some; rewrite Hd; discriminate).
    assert (Hm : exists m,
               stored_metadata meta i = Some m /\
               nth_error match meta with
                         | Some (m :: ms) => m :: ms
                         | _ => default_metadata (length docs)
                         end i = Some m).
    { destruct meta as [[|m0 ms]|]; cbn [stored_metadata];
        try (eexists; split; [reflexivity|];
             now apply default_metadata_nth).
      cbn [metadata_fits] in Hfit.
      destruct (nth_error (m0 :: ms) i) as [m|] eqn:Em;
        [now exists m|].
      apply nth_error_None in Em. lia. }
    destruct Hm as (m & Hs & Hnth). exists m. split; [exact Hs|].
    unfold get_document. rewrite Hdocs, Hmeta, len_app.
    destruct (len (documents self) + Z.of_nat i
              >=? len (documents self) + len docs)%Z eqn:E;
      [rewrite Z.geb_leb in E; apply Z.leb_le in E; unfold len in E; lia|].
    rewrite (index_app_new _ _ _ _ Hd).
    assert (Hlen : len (documents self) = len (metadata self))
      by (unfold len; now rewrite Hal).
    rewrite Hlen. now rewrite (index_app_new _ _ _ _ Hnth).
Qed.

(** X3.  [add_documents] compares the number of documents with the number
    of embeddings only: the store it leaves is aligned exactly when the
    metadata given is absent, empty, or as long as the batch.  A non-empty
    metadata list of another length is appended as it is. *)
Theorem add_documents_alignment (self self' : t Index) (docs : list str)
    (embeddings : matrix) (meta : option (list dict)) :
  aligned self ->
  add_documents self docs embeddings meta = (Ok tt, self') ->
  (aligned self' <-> metadata_fits docs meta).
Proof.
  intros Hal Hadd.
  destruct (add_documents_ok _ _ _ _ _ Hadd) as [Hdocs Hmeta].
  unfold aligned in *. rewrite Hdocs, Hmeta, !length_app, Hal.
  destruct meta as [[|m ms]|]; cbn [metadata_fits];
    rewrite ?default_metadata_length; split; intros H; try exact I; lia.
Qed.





(** The ranks of [results] increase strictly and lie between [lo + 1] and
    [hi]. *)
Fixpoint ranked (lo hi : Z) (results : list SearchResult) : Prop :=
  match results with
  | [] => True
  | r :: rest => (lo < r_rank r <= hi)%Z /\ ranked (r_rank r) hi rest
  end.

Lemma ranked_weaken (lo lo' hi hi' : Z) (results : list SearchResult) :
  (lo' <= lo)%Z -> (hi <= hi')%Z ->
  ranked lo hi results -> ranked lo' hi' results.
Proof.
  destruct results as [|r rest]; [easy|]. cbn. intros Hlo Hhi [Hr Hrest].
  split; [lia|]. revert Hrest. generalize (r_rank r). clear Hr.
  induction rest as [|r' rest IH]; [easy|]. cbn. intros z [Hr Hrest].
  split; [lia|]. now apply IH.
Qed.

Lemma ranked_snoc (lo hi : Z) (results : list SearchResult)
    (r : SearchResult) :
  ranked lo hi results -> (hi < r_rank r)%Z -> (lo < r_rank r)%Z ->
  ranked lo (r_rank r) (results ++ [r]).
Proof.
  revert lo. induction results as [|r' rest IH]; intros lo Hres Hhi Hlo.
  - cbn. lia.
  - cbn in *. destruct Hres as [Hr Hrest]. split; [lia|].
    apply IH; [exact Hrest | exact Hhi | lia].
Qed.

Lemma ranked_length (lo hi : Z) (results : list SearchResult) :
  ranked lo hi results -> (lo + len results <= Z.max lo hi)%Z.
Proof.
  revert lo. induction results as [|r rest IH]; intros lo H.
  - cbn. change (len (@nil SearchResult)) with 0%Z. lia.
  - cbn in H. destruct H as [Hr Hrest]. apply IH in Hrest.
    unfold len in *. cbn [length]. lia.
Qed.

Lemma collect_ranked (self : t Index) (hits : list (float * Z)) :
  forall (i : Z) (results out : list SearchResult),
    ranked 0 i results ->
    (0 <= i)%Z ->
    collect self i hits results = Ok out ->
    ranked 0 (i + len hits) out.
Proof.
  induction hits as [|[distance idx] hits IH]; intros i results out Hres Hi Hout.
  - cbn in Hout. injection Hout as <-.
    change (len (@nil (float * Z))) with 0%Z. now rewrite Z.add_0_r.
  - cbn [VectorDatabase.collect] in Hout.
    assert (Hlen : (i + len ((distance, idx) :: hits) = i + 1 + len hits)%Z)
      by (unfold len; cbn [length]; lia).
    rewrite Hlen.
    assert (Hskip : ranked 0 (i + 1) results)
      by (apply (ranked_weaken 0 0 i (i + 1)); [lia | lia | exact Hres]).
    destruct (idx <? len (documents self))%Z;
      [|apply (IH _ _ _ Hskip); [lia | exact Hout]].
    destruct (get_document self idx) as [[document meta]|e];
      [|discriminate Hout].
    destruct (similarity_threshold self <=? similarity_of self distance)%float;
      [|apply (IH _ _ _ Hskip); [lia | exact Hout]].
    refine (IH _ _ _ _ _ Hout); [|lia].
    apply (ranked_snoc 0 i results
             (mkResult idx document meta (similarity_of self distance)
                       distance (i + 1))); [exact Hres | cbn; lia | cbn; lia].
Qed.

(** X5.  The results of [search_with_metadata] keep the order of the hits:
    their ranks increase strictly from one result to the next and lie
    between 1 and the number of hits, so no hit is reported twice and there
    are at most as many results as hits. *)
Theorem search_with_metadata_ranked (self : t Index) (query : vec)
    (k : option Z) (distances : list float) (indices : list Z)
    (results : list SearchResult) :
  search self query k = Ok (distances, indices) ->
  search_with_metadata self query k = Ok results ->
  ranked 0 (len (combine distances indices)) results /\
  (length results <= length (combine distances indices))%nat.
Proof.
  intros Hs H. unfold VectorDatabase.search_with_metadata in H.
  rewrite Hs in H.
  assert (Hr : ranked 0 (len (combine distances indices)) results)
    by (apply (collect_ranked self _ 0%Z [] results I (Z.le_refl 0) H)).
  split; [exact Hr|].
  apply ranked_length in Hr.
  pose proof (len_nonneg (combine distances indices)). unfold len in *. lia.
Qed.

Lemma collect_returns (self : t Index) (hits : list (float * Z)) :
  forall (i : Z) (results : list SearchResult),
    aligned self ->
    Forall (fun hit => (- len (documents self) <= snd hit)%Z) hits ->
    exists out, collect self i hits results = Ok out.
Proof.
  induction hits as [|[distance idx] hits IH]; intros i results Hal Hhits;
    [now eexists|].
  inversion Hhits as [|? ? Hidx Hrest]; subst. cbn [snd] in Hidx.
  cbn [VectorDatabase.collect].
  destruct (idx <? len (documents self))%Z eqn:E; [|now apply IH].
  apply Z.ltb_lt in E.
  destruct (get_document_answers self idx Hal (conj Hidx E))
    as ([document meta] & ->).
  now apply IH.
Qed.

(** X6.  On an aligned store [search_with_metadata] returns whenever the
    index search returns and none of its indices lies below [-n], [n] being
    the number of documents: with the valid indices and the padding [-1]
    of the library, a store that holds a document never raises. *)
Theorem search_with_metadata_returns (self : t Index) (query : vec)
    (k : option Z) (distances : list float) (indices : list Z) :
  aligned self ->
  search self query k = Ok (distances, indices) ->
  Forall (fun i => (- len (documents self) <= i)%Z) indices ->
  exists results, search_with_metadata self query k = Ok results.
Proof.
  intros Hal Hs Hidx. unfold VectorDatabase.search_with_metadata. rewrite Hs.
  apply collect_returns; [exact Hal|].
  assert (Hd : Forall (fun _ : float => True) distances)
    by (apply Forall_forall; intros; exact I).
  eapply Forall_impl; [|apply (Forall_combine _ _ _ _ Hd Hidx)].
  intros [d i] [_ Hi]. exact Hi.
Qed.

(** X7.  [get_documents] is all or nothing: when every index lies between
    [-n] and [n - 1] it returns one entry for each index, in order, each the
    answer of [get_document]; when one index lies outside, the whole call
    raises [IndexError] and no partial list is returned. *)
Theorem get_documents_all_or_nothing (self : t Index) (indices : list Z) :
  aligned self ->
  let n := len (documents self) in
  (Forall (fun i => (- n <= i < n)%Z) indices ->
   exists entries,
     get_documents self indices = Ok entries /\
     Forall2 (fun i entry => get_document self i = Ok entry) indices entries)
  /\
  (Exists (fun i => (i < - n)%Z \/ (n <= i)%Z) indices ->
   exists msg, get_documents self indices = Raise (IndexError msg)).
Proof.
  intros Hal n.
  pose proof (fun i => get_document_answers self i Hal) as Hin.
  pose proof (get_document_refuses self) as Hout.
  fold n in Hin, Hout.
  split.
  - induction 1 as [|i rest Hi Hrest IH].
    + exists []. split; [reflexivity | constructor].
    + destruct (Hin i Hi) as (entry & Hg).
      destruct IH as (entries & Hgs & Hall).
      exists (entry :: entries). cbn [get_documents]. rewrite Hg, Hgs.
      split; [reflexivity | now constructor].
  - induction 1 as [i rest Hi|i rest Hrest IH].
    + destruct (Hout i Hi) as (msg & Hg). exists msg.
      cbn [get_documents]. now rewrite Hg.
    + cbn [get_documents].
      destruct (Z.lt_ge_cases i (- n)) as [Hlo|Hlo];
        [destruct (Hout i (or_introl Hlo)) as (msg & Hg);
         exists msg; now rewrite Hg|].
      destruct (Z.lt_ge_cases i n) as [Hhi|Hhi];
        [|destruct (Hout i (or_intror Hhi)) as (msg & Hg);
          exists msg; now rewrite Hg].
      destruct (Hin i (conj Hlo Hhi)) as (entry & ->).
      destruct IH as (msg & ->). now exists msg.
Qed.

End WithFaiss.

(** ** Runs on the two-document store *)

Local Open Scope float_scope.

(** The witness of X1: the last document under the index [-1], and the end
    of the store. *)
Lemma get_document_bounds_witness :
  get_document small_store (-1) = Ok (lit "second", [])
  /\
  get_document small_store 2
  = Raise (IndexError (lit "Document index 2 out of range")).
Proof.
  pose proof (get_document_bounds small_store (-1) eq_refl) as Hlast.
  pose proof (get_document_bounds small_store 2 eq_refl) as Hend.
  cbv zeta in Hlast, Hend.
  destruct Hlast as (_ & Hneg & _). destruct Hend as (_ & _ & Hhi & _).
  split.
  - destruct Hneg as (entry & He & Hg); [now split|].
    injection He as <-. exact Hg.
  - apply Hhi. discriminate.
Defined.

(** The witness of X2: a third document added without metadata. *)
Lemma add_documents_round_trip_witness :
  exists self',
    add_documents take_rows same_row small_store [lit "third"] [[1]] None
    = (Ok tt, self') /\
    get_document self' 0 = get_document small_store 0 /\
    get_document self' 2 = Ok (lit "third", [(lit "index", VInt 0)]).
Proof.
  eexists. split; [reflexivity|].
  destruct (add_documents_round_trip take_rows same_row small_store _
              [lit "third"] [[1]] None eq_refl I eq_refl) as [Hold Hnew].
  split.
  - apply Hold. now split.
  - destruct (Hnew 0%nat (lit "third") eq_refl) as (m & Hm & Hg).
    injection Hm as <-. exact Hg.
Defined.

(** The witness of X3: one metadata entry given with two documents. *)
Lemma add_documents_alignment_witness :
  exists self',
    add_documents take_rows same_row small_store
      [lit "third"; lit "fourth"] [[1]; [1]] (Some [[]])
    = (Ok tt, self') /\
    ~ aligned self'.
Proof.
  eexists. split; [reflexivity|].
  intros Hal.
  apply (add_documents_alignment take_rows same_row small_store _
           [lit "third"; lit "fourth"] [[1]; [1]] (Some [[]]) eq_refl eq_refl)
    in Hal.
  discriminate Hal.
Defined.


(** The witness of X5, on the same two hits. *)
Lemma search_with_metadata_ranked_witness :
  ranked 0 2 [mkResult 1 (lit "second") [] 0.75 0.75 1].
Proof.
  apply (search_with_metadata_ranked
           (fixed_search [0.75; 0.5] [1; 0]%Z) same_row one_minus64
           small_store [1] (Some 2%Z) [0.75; 0.5] [1; 0]%Z);
    reflexivity.
Defined.

(** The witness of X6: the padding of the library on a store that holds
    documents. *)
Lemma search_with_metadata_returns_witness :
  exists results,
    search_with_metadata
      (fixed_search [0.75; - flt_max] [1; -1]%Z) same_row one_minus64
      small_store [1] (Some 2%Z)
    = Ok results.
Proof.
  apply (search_with_metadata_returns
           (fixed_search [0.75; - flt_max] [1; -1]%Z) same_row one_minus64
           small_store [1] (Some 2%Z) [0.75; - flt_max] [1; -1]%Z);
    [reflexivity | reflexivity |].
  repeat constructor; discriminate.
Defined.

(** The witness of X7: one index past the end fails the whole call. *)
Lemma get_documents_all_or_nothing_witness :
  (exists entries, get_documents small_store [0; -1]%Z = Ok entries)
  /\
  (exists msg, get_documents small_store [0; 2]%Z = Raise (IndexError msg)).
Proof.
  destruct (get_documents_all_or_nothing small_store [0; -1]%Z eq_refl)
    as [Hin _].
  destruct (get_documents_all_or_nothing small_store [0; 2]%Z eq_refl)
    as [_ Hout].
  split.
  - destruct Hin as (entries & Hg & _);
      [repeat constructor; discriminate|].
    now exists entries.
  - apply Hout. right. left. right. discriminate.
Defined.

End StoreProperties.
(* ================================================================== *)
(** * Text utilities: normal form, word overlap and keywords *)
(* ================================================================== *)

Module TextProperties.
Import Py Re PyFacts ReFacts TextProcessing CleanFacts.

Lemma str_eqb_eq (a b : str) : str_eqb a b = true <-> a = b.
Proof.
  revert b. induction a as [|x a IH]; intros [|y b]; cbn; try easy.
  rewrite andb_true_iff, Ascii.eqb_eq, IH. split.
  - now intros [-> ->].
  - intros H. injection H as -> ->. now split.
Qed.

Lemma str_eqb_refl (a : str) : str_eqb a a = true.
Proof. now apply str_eqb_eq. Qed.

Lemma str_eqb_neq (a b : str) : str_eqb a b = false <-> a <> b.
Proof.
  split.
  - intros E H. apply str_eqb_eq in H. congruence.
  - intros H. destruct (str_eqb a b) eqn:E; [|reflexivity].
    apply str_eqb_eq in E. contradiction.
Qed.

Lemma member_In (w : str) (l : list str) : member w l = true <-> In w l.
Proof.
  unfold member. rewrite existsb_exists. split.
  - intros (x & Hx & E). apply str_eqb_eq in E. now subst.
  - intros H. exists w. split; [exact H | apply str_eqb_refl].
Qed.

Lemma member_not_In (w : str) (l : list str) :
  member w l = false <-> ~ In w l.
Proof.
  rewrite <- member_In. destruct (member w l); split; congruence.
Qed.

Lemma NoDup_snoc {A : Type} (l : list A) (x : A) :
  NoDup l -> ~ In x l -> NoDup (l ++ [x]).
Proof.
  intros Hl Hx. apply (Permutation_NoDup (Permutation_cons_append l x)).
  now constructor.
Qed.

(** ** Dictionaries in insertion order *)

Section Items.

Context {V : Type}.

Lemma get_item_set_same (d : list (str * V)) (k : str) (v default : V) :
  get_item (set_item d k v) k default = v.
Proof.
  induction d as [|[k' v'] d IH]; cbn.
  - now rewrite str_eqb_refl.
  - destruct (str_eqb k' k) eqn:E; cbn; rewrite E; [reflexivity | exact IH].
Qed.

Lemma get_item_set_other (d : list (str * V)) (k k' : str) (v default : V) :
  k <> k' -> get_item (set_item d k v) k' default = get_item d k' default.
Proof.
  intros Hne. pose proof (proj2 (str_eqb_neq k k') Hne) as En.
  induction d as [|[k0 v0] d IH]; cbn.
  - now rewrite En.
  - destruct (str_eqb k0 k) eqn:E; cbn.
    + apply str_eqb_eq in E. subst k0. now rewrite En.
    + destruct (str_eqb k0 k'); [reflexivity | exact IH].
Qed.

Lemma keys_set_item (d : list (str * V)) (k : str) (v : V) :
  map fst (set_item d k v)
  = if member k (map fst d) then map fst d else map fst d ++ [k].
Proof.
  induction d as [|[k0 v0] d IH]; [reflexivity|].
  cbn [set_item map fst member existsb]. fold (member k (map fst d)).
  destruct (str_eqb k0 k) eqn:E.
  - apply str_eqb_eq in E. subst k0. now rewrite str_eqb_refl.
  - assert (E' : str_eqb k k0 = false)
      by (apply str_eqb_neq; apply str_eqb_neq in E; congruence).
    rewrite E'. cbn [orb map fst]. rewrite IH.
    now destruct (member k (map fst d)).
Qed.

Lemma get_item_In (d : list (str * V)) (k : str) (v default : V) :
  NoDup (map fst d) -> In (k, v) d -> get_item d k default = v.
Proof.
  induction d as [|[k0 v0] d IH]; intros Hnd Hin; [destruct Hin|].
  cbn [map fst] in Hnd. inversion Hnd as [|? ? Hk Hd]; subst.
  cbn [get_item]. destruct Hin as [E|Hin].
  - injection E as -> ->. now rewrite str_eqb_refl.
  - destruct (str_eqb k0 k) eqn:E; [|now apply IH].
    apply str_eqb_eq in E. subst k0. exfalso. apply Hk.
    apply in_map_iff. now exists (k, v).
Qed.

Lemma get_item_absent (d : list (str * V)) (k : str) (default : V) :
  ~ In k (map fst d) -> get_item d k default = default.
Proof.
  induction d as [|[k0 v0] d IH]; intros Hk; [reflexivity|].
  cbn [get_item]. destruct (str_eqb k0 k) eqn:E.
  - apply str_eqb_eq in E. subst k0. exfalso. apply Hk. now left.
  - apply IH. intros H. apply Hk. now right.
Qed.

End Items.

(** ** [normalize_text] *)

Lemma lower_char_idempotent (c : ascii) :
  lower_char (lower_char c) = lower_char c.
Proof. destruct c as [[] [] [] [] [] [] [] []]; reflexivity. Qed.

Lemma lower_fixed (s : str) :
  Forall (fun c => lower_char c = c) s -> lower s = s.
Proof.
  induction 1 as [|c s Hc Hs IH]; [reflexivity|].
  unfold lower in *. cbn [map]. now rewrite Hc, IH.
Qed.

Lemma match_len_chr (f : ascii -> bool) (prev : option ascii) (c : ascii)
    (s : str) :
  match_len (Chr f) prev (c :: s) = if f c then Some 1%nat else None.
Proof.
  unfold match_len. cbn [run snd]. destruct (f c); [|reflexivity].
  cbn [length]. f_equal. lia.
Qed.

(** Deleting the matches of a one-character pattern filters the text. *)
Lemma sub_chr (f : ascii -> bool) (s : str) :
  forall prev, sub_from (Chr f) [] prev 0 s = filter (fun c => negb (f c)) s.
Proof.
  induction s as [|c s IH]; intros prev; [reflexivity|].
  cbn [sub_from filter]. rewrite match_len_chr.
  destruct (f c); cbn [negb app]; [apply IH | f_equal; apply IH].
Qed.

Lemma lstrip_incl (s : str) (c : ascii) : In c (lstrip s) -> In c s.
Proof.
  intros H. destruct (drop_while_split is_space s) as (p & Hp & _).
  rewrite Hp. apply in_or_app. now right.
Qed.

(** A character of the collapsed text is the space that stands for a run
    of whitespace, or a character of the text that is not whitespace. *)
Lemma collapse_chars (n : nat) :
  forall s : str, (length s <= n)%nat ->
    Forall (fun c => c = " "%char \/ (In c s /\ is_space c = false))
           (collapse s).
Proof.
  induction n as [|n IH]; intros s Hlen.
  - destruct s; [constructor | simpl in Hlen; lia].
  - destruct s as [|c s]; [constructor|].
    rewrite collapse_cons. destruct (is_space c) eqn:E.
    + constructor; [now left|].
      assert (Hl : (length (lstrip s) <= n)%nat)
        by (pose proof (length_lstrip s); simpl in Hlen; lia).
      eapply Forall_impl; [|apply (IH _ Hl)].
      intros a [Ha|[Ha Hs]]; [now left|right].
      split; [right; now apply lstrip_incl | exact Hs].
    + constructor; [right; split; [now left | exact E]|].
      assert (Hl : (length s <= n)%nat) by (simpl in Hlen; lia).
      eapply Forall_impl; [|apply (IH _ Hl)].
      intros a [Ha|[Ha Hs]]; [now left|right].
      split; [now right | exact Hs].
Qed.

Lemma Forall_infix {A : Type} (P : A -> Prop) (a b : list A) :
  infix a b -> Forall P b -> Forall P a.
Proof.
  intros (p & q & ->) H.
  apply Forall_app in H. destruct H as [_ H].
  apply Forall_app in H. now destruct H.
Qed.

(** The punctuation [normalize_text] keeps. *)
Definition punctuation : ascii -> bool :=
  class [One "."; One ","; One "!"; One "?"; One ";"; One ":"]%char.

(** The characters a normalised text is written in. *)
Definition kept (c : ascii) : Prop :=
  c = " "%char \/
  (is_space c = false /\ (is_word c = true \/ punctuation c = true)).

(** X8.  A normalised text is written in word characters, the kept
    punctuation [.,!?;:] and the space, which is the only whitespace left
    in it; it neither starts nor ends with whitespace; and it is in lower
    case, so that lowering it again changes nothing. *)
Theorem normalize_text_alphabet (text : str) :
  Forall kept (normalize_text text) /\
  trimmed (normalize_text text) /\
  lower (normalize_text text) = normalize_text text.
Proof.
  assert (H : Forall (fun c => kept c /\ lower_char c = c)
                     (normalize_text text)).
  { unfold normalize_text.
    eapply Forall_infix; [apply strip_infix|].
    unfold sub, special. rewrite sub_chr.
    fold (sub whitespace space (lower text)). fold (collapse (lower text)).
    apply Forall_forall. intros c Hc.
    apply filter_In in Hc. destruct Hc as [Hin Hf].
    rewrite negb_involutive in Hf.
    pose proof (collapse_chars _ (lower text) (le_n _)) as Hall.
    rewrite Forall_forall in Hall.
    destruct (Hall c Hin) as [->|[Hlow Hsp]]; [split; [now left | reflexivity]|].
    split.
    - rewrite Hsp, orb_false_r in Hf. apply orb_true_iff in Hf.
      right. split; [exact Hsp | exact Hf].
    - unfold lower in Hlow. apply in_map_iff in Hlow.
      destruct Hlow as (c0 & <- & _). apply lower_char_idempotent. }
  split; [|split].
  - eapply Forall_impl; [|exact H]. now intros c [Hc _].
  - apply strip_trimmed.
  - apply lower_fixed. eapply Forall_impl; [|exact H]. now intros c [_ Hc].
Qed.

(** ** [calculate_text_similarity] *)

Section WithUnescape.

Variable charref_sub : str -> str.

Local Abbreviation clean_text := (clean_text charref_sub).
Local Abbreviation extract_keywords := (extract_keywords charref_sub).
Local Abbreviation calculate_text_similarity :=
  (calculate_text_similarity charref_sub).

(** X22.  With the normalisation of whitespace switched on, and whatever
    the three other switches are, the cleaned text is its own words one
    space apart: it has no whitespace at either end, every whitespace
    character in it is one space standing before a character that is not
    whitespace, and normalising its whitespace once more changes nothing. *)
Theorem clean_text_normal_form (text : str)
    (remove_html remove_urls remove_emails : bool) :
  let cleaned :=
    clean_text text remove_html remove_urls remove_emails true in
  trimmed cleaned /\
  single_spaced cleaned /\
  join space (Py.split cleaned) = cleaned /\
  clean_text cleaned false false false true = cleaned.
Proof.
  cbv zeta.
  assert (H : exists ws,
             Forall word_ok ws /\
             clean_text text remove_html remove_urls remove_emails true
             = join space ws).
  { unfold TextProcessing.clean_text. destruct (nonempty text); cbn [negb].
    - eexists. split; [|apply strip_collapse]. apply split_word_ok.
    - exists []. split; [constructor | reflexivity]. }
  destruct H as (ws & Hws & ->).
  assert (Hsplit : join space (Py.split (join space ws)) = join space ws)
    by (now rewrite (split_join ws Hws)).
  split; [|split; [|split]].
  - rewrite <- Hsplit, <- strip_collapse. apply strip_trimmed.
  - now apply single_spaced_join.
  - exact Hsplit.
  - unfold TextProcessing.clean_text.
    destruct (nonempty (join space ws)) eqn:E; cbn [negb].
    + fold (collapse (join space ws)). now rewrite strip_collapse.
    + apply nonempty_false in E. now rewrite E.
Qed.

(** The words [calculate_text_similarity] compares. *)
Definition words_of (text : str) : list str :=
  Py.split (clean_text (lower text) true true true true).

Lemma intersection_In (a b : list str) (w : str) :
  In w (intersection a b) <-> In w a /\ In w b.
Proof. unfold intersection. now rewrite filter_In, member_In. Qed.

Lemma intersection_length (a b : list str) :
  NoDup a -> NoDup b ->
  length (intersection a b) = length (intersection b a).
Proof.
  intros Ha Hb.
  assert (H1 : (length (intersection a b) <= length (intersection b a))%nat).
  { apply NoDup_incl_length; [now apply NoDup_filter|].
    intros w Hw. apply intersection_In in Hw. apply intersection_In.
    tauto. }
  assert (H2 : (length (intersection b a) <= length (intersection a b))%nat).
  { apply NoDup_incl_length; [now apply NoDup_filter|].
    intros w Hw. apply intersection_In in Hw. apply intersection_In.
    tauto. }
  lia.
Qed.

Lemma union_In (a b : list str) (w : str) :
  In w (union a b) <-> In w a \/ In w b.
Proof. unfold union, set_of. now rewrite nodup_In, in_app_iff. Qed.

Lemma union_length (a b : list str) :
  length (union a b) = length (union b a).
Proof.
  assert (H : forall x y, (length (union x y) <= length (union y x))%nat).
  { intros x y. apply NoDup_incl_length; [apply NoDup_nodup|].
    intros w Hw. apply union_In in Hw. apply union_In. tauto. }
  pose proof (H a b). pose proof (H b a). lia.
Qed.

(** X9.  The word overlap of two texts does not depend on their order; it
    is [1.0] when neither text has a word and [0.0] when exactly one of them
    has none. *)
Theorem calculate_text_similarity_symmetric (text1 text2 : str) :
  calculate_text_similarity text1 text2
  = calculate_text_similarity text2 text1
  /\
  (words_of text1 = [] -> words_of text2 = [] ->
   calculate_text_similarity text1 text2 = 1%float)
  /\
  (words_of text1 = [] -> words_of text2 <> [] ->
   calculate_text_similarity text1 text2 = 0%float).
Proof.
  unfold TextProcessing.calculate_text_similarity.
  fold (words_of text1). fold (words_of text2).
  split; [|split].
  - set (a := set_of (words_of text1)). set (b := set_of (words_of text2)).
    assert (Hr : ratio (intersection a b) (union a b)
                 = ratio (intersection b a) (union b a)).
    { unfold ratio, len.
      rewrite (intersection_length a b), (union_length a b);
        [reflexivity | apply NoDup_nodup | apply NoDup_nodup]. }
    rewrite Hr. now destruct (nonempty a), (nonempty b).
  - intros -> ->. reflexivity.
  - intros -> Hne.
    destruct (set_of (words_of text2)) as [|w ws] eqn:E; [|reflexivity].
    exfalso. destruct (words_of text2) as [|w ws]; [now apply Hne|].
    assert (Hin : In w (set_of (w :: ws)))
      by (apply nodup_In; now left).
    rewrite E in Hin. destruct Hin.
Qed.

(** ** [extract_keywords] *)

(** The words the counting loop counts. *)
Definition accepted (w : str) : bool :=
  negb (member w stop_words) && (len w >? 2)%Z.

(** How often [w] stands in [words]. *)
Definition occurrences (words : list str) (w : str) : Z :=
  Z.of_nat (count_occ str_eq_dec words w).

(** The dictionary [word_freq] after the words [seen]. *)
Record counted (seen : list str) (word_freq : list (str * Z)) : Prop := {
  counted_keys : NoDup (map fst word_freq);
  counted_get :
    forall w, get_item word_freq w 0%Z
              = if accepted w then occurrences seen w else 0%Z;
  counted_in :
    forall w, In w (map fst word_freq) -> accepted w = true /\ In w seen
}.

Lemma occurrences_snoc_same (seen : list str) (w : str) :
  occurrences (seen ++ [w]) w = (occurrences seen w + 1)%Z.
Proof.
  unfold occurrences. rewrite count_occ_app.
  rewrite (count_occ_cons_eq str_eq_dec [] eq_refl). cbn [count_occ]. lia.
Qed.

Lemma occurrences_snoc_other (seen : list str) (w w' : str) :
  w <> w' -> occurrences (seen ++ [w]) w' = occurrences seen w'.
Proof.
  intros Hne. unfold occurrences. rewrite count_occ_app.
  rewrite (count_occ_cons_neq str_eq_dec [] Hne). cbn [count_occ]. lia.
Qed.

Lemma counted_nil : counted [] [].
Proof.
  split.
  - constructor.
  - intros w. cbn. now destruct (accepted w).
  - intros w [].
Qed.

Lemma counted_step (seen : list str) (word_freq : list (str * Z))
    (word : str) :
  counted seen word_freq ->
  counted (seen ++ [word]) (count_step word_freq word).
Proof.
  intros [Hkeys Hget Hin]. unfold count_step. fold (accepted word).
  destruct (accepted word) eqn:Ea.
  - split.
    + rewrite keys_set_item.
      destruct (member word (map fst word_freq)) eqn:Em; [exact Hkeys|].
      apply NoDup_snoc; [exact Hkeys | now apply member_not_In].
    + intros w. destruct (str_eq_dec word w) as [<-|Hne].
      * rewrite get_item_set_same, Hget, Ea.
        now rewrite occurrences_snoc_same.
      * rewrite (get_item_set_other _ _ _ _ _ Hne), Hget.
        now rewrite (occurrences_snoc_other _ _ _ Hne).
    + intros w Hw. rewrite keys_set_item in Hw.
      assert (Hcases : In w (map fst word_freq) \/ w = word).
      { destruct (member word (map fst word_freq)); [now left|].
        apply in_app_iff in Hw. destruct Hw as [Hw|[<-|[]]];
          [now left | now right]. }
      destruct Hcases as [Hold| ->].
      * destruct (Hin w Hold) as [Hacc Hseen].
        split; [exact Hacc | apply in_or_app; now left].
      * split; [exact Ea | apply in_or_app; right; now left].
  - split.
    + exact Hkeys.
    + intros w. rewrite Hget. destruct (accepted w) eqn:Ew; [|reflexivity].
      assert (Hne : word <> w) by congruence.
      now rewrite (occurrences_snoc_other _ _ _ Hne).
    + intros w Hw. destruct (Hin w Hw) as [Hacc Hseen].
      split; [exact Hacc | apply in_or_app; now left].
Qed.

Lemma counted_fold (words : list str) :
  forall seen word_freq,
    counted seen word_freq ->
    counted (seen ++ words) (fold_left count_step words word_freq).
Proof.
  induction words as [|word words IH]; intros seen word_freq H.
  - now rewrite app_nil_r.
  - cbn [fold_left].
    replace (seen ++ word :: words) with ((seen ++ [word]) ++ words)
      by (now rewrite <- app_assoc).
    apply IH. now apply counted_step.
Qed.

(** The order of [sorted_by_freq]: no count below the next one. *)
Definition not_below (a b : str * Z) : Prop := (snd b <= snd a)%Z.

Lemma insert_by_freq_perm (x : str * Z) (l : list (str * Z)) :
  Permutation (insert_by_freq x l) (x :: l).
Proof.
  induction l as [|y l IH]; [reflexivity|].
  cbn [insert_by_freq]. destruct (snd y <=? snd x)%Z; [reflexivity|].
  rewrite IH. apply perm_swap.
Qed.

Lemma sorted_by_freq_perm (l : list (str * Z)) :
  Permutation (sorted_by_freq l) l.
Proof.
  induction l as [|x l IH]; [reflexivity|].
  unfold sorted_by_freq in *. cbn [fold_right].
  rewrite insert_by_freq_perm. now constructor.
Qed.

Lemma insert_by_freq_sorted (x : str * Z) (l : list (str * Z)) :
  StronglySorted not_below l -> StronglySorted not_below (insert_by_freq x l).
Proof.
  induction l as [|y l IH]; intros Hs; [repeat constructor|].
  apply StronglySorted_inv in Hs. destruct Hs as [Hl Hy].
  cbn [insert_by_freq]. destruct (snd y <=? snd x)%Z eqn:E.
  - apply Z.leb_le in E. constructor; [now constructor|].
    constructor; [exact E|].
    eapply Forall_impl; [|exact Hy]. unfold not_below. intros z Hz. lia.
  - apply Z.leb_gt in E. constructor; [now apply IH|].
    apply (Permutation_Forall (Permutation_sym (insert_by_freq_perm x l))).
    constructor; [unfold not_below; lia | exact Hy].
Qed.

Lemma sorted_by_freq_sorted (l : list (str * Z)) :
  StronglySorted not_below (sorted_by_freq l).
Proof.
  induction l as [|x l IH]; [constructor|].
  unfold sorted_by_freq in *. cbn [fold_right].
  now apply insert_by_freq_sorted.
Qed.

Lemma slice_to_prefix {A : Type} (n : Z) (l : list A) :
  exists rest, l = slice_to n l ++ rest.
Proof.
  unfold slice_to. destruct (n <? 0)%Z; eexists; symmetry; apply firstn_skipn.
Qed.

Lemma slice_to_length {A : Type} (n : Z) (l : list A) :
  (0 <= n)%Z -> (len (slice_to n l) <= n)%Z.
Proof.
  intros Hn. unfold slice_to.
  destruct (n <? 0)%Z eqn:E; [apply Z.ltb_lt in E; lia|].
  pose proof (firstn_le_length (Z.to_nat n) l). unfold len. lia.
Qed.

Lemma slice_to_all {A : Type} (n : Z) (l : list A) :
  (len l <= n)%Z -> slice_to n l = l.
Proof.
  intros Hn. pose proof (len_nonneg l) as H0. unfold slice_to.
  destruct (n <? 0)%Z eqn:E; [apply Z.ltb_lt in E; lia|].
  apply firstn_all2. unfold len in Hn. lia.
Qed.

Lemma StronglySorted_prefix {A : Type} (R : A -> A -> Prop) (a b : list A) :
  StronglySorted R (a ++ b) -> StronglySorted R a.
Proof.
  induction a as [|x a IH]; intros H; [constructor|].
  cbn [app] in H. apply StronglySorted_inv in H. destruct H as [Hs Hx].
  constructor; [now apply IH|].
  apply Forall_app in Hx. now destruct Hx.
Qed.

Lemma StronglySorted_keys (count : str -> Z) (l : list (str * Z)) :
  Forall (fun p => snd p = count (fst p)) l ->
  StronglySorted not_below l ->
  StronglySorted (fun a b => (count b <= count a)%Z) (map fst l).
Proof.
  induction l as [|[w n] l IH]; intros Hc Hs; [constructor|].
  inversion Hc as [|? ? Hn Hl]; subst. cbn [fst snd] in Hn.
  apply StronglySorted_inv in Hs. destruct Hs as [Hs Hw].
  cbn [map fst]. constructor; [now apply IH|].
  apply Forall_map. rewrite Forall_forall in Hw, Hl |- *.
  intros [w' n'] Hin. specialize (Hw _ Hin). specialize (Hl _ Hin).
  unfold not_below in Hw. cbn [fst snd] in *. lia.
Qed.

(** X10.  The keywords are words of the cleaned, lowered text that are no
    stop words and have three letters or more; no keyword is listed twice;
    they stand in the order of their number of occurrences, the most
    frequent first; a [max_keywords] of zero or more bounds their number;
    and a [max_keywords] that is at least the number of words leaves out no
    word that is long enough and no stop word. *)
Theorem extract_keywords_ranked (text : str) (max_keywords : Z) :
  let words :=
    findall letters (clean_text (lower text) true true true true) in
  let keywords := extract_keywords text max_keywords in
  NoDup keywords /\
  Forall (fun w => In w words /\ member w stop_words = false /\ (2 < len w)%Z)
         keywords /\
  StronglySorted
    (fun a b => (occurrences words b <= occurrences words a)%Z) keywords /\
  ((0 <= max_keywords)%Z -> (len keywords <= max_keywords)%Z) /\
  ((len words <= max_keywords)%Z ->
   forall w, In w words -> member w stop_words = false -> (2 < len w)%Z ->
             In w keywords).
Proof.
  intros words keywords. unfold TextProcessing.extract_keywords in keywords.
  fold words in keywords.
  set (word_freq := fold_left count_step words []) in *.
  set (sorted_words := sorted_by_freq word_freq) in *.
  assert (Hc : counted words word_freq)
    by (apply (counted_fold words [] []), counted_nil).
  destruct Hc as [Hkeys Hget Hin].
  pose proof (sorted_by_freq_perm word_freq) as Hperm.
  fold sorted_words in Hperm.
  destruct (slice_to_prefix max_keywords sorted_words) as (rest & Hrest).
  assert (Hsub : forall p, In p (slice_to max_keywords sorted_words) ->
                           In p word_freq).
  { intros p Hp. apply (Permutation_in _ Hperm). rewrite Hrest.
    apply in_or_app. now left. }
  assert (Hpairs : forall p, In p word_freq ->
                             accepted (fst p) = true /\ In (fst p) words /\
                             snd p = occurrences words (fst p)).
  { intros [w n] Hp. cbn [fst snd].
    destruct (Hin w) as [Hacc Hw]; [apply in_map_iff; now exists (w, n)|].
    repeat split; [exact Hacc | exact Hw|].
    rewrite <- (get_item_In word_freq w n 0%Z Hkeys Hp), Hget.
    now rewrite Hacc. }
  repeat split.
  - unfold keywords.
    assert (Hnd : NoDup (map fst sorted_words))
      by (apply (Permutation_NoDup
                   (Permutation_map fst (Permutation_sym Hperm))), Hkeys).
    rewrite Hrest, map_app in Hnd. now apply NoDup_app_remove_r in Hnd.
  - unfold keywords. apply Forall_map, Forall_forall. intros p Hp.
    destruct (Hpairs p (Hsub p Hp)) as (Hacc & Hw & _).
    unfold accepted in Hacc. apply andb_true_iff in Hacc.
    destruct Hacc as [Hstop Hlen].
    apply negb_true_iff in Hstop. rewrite Z.gtb_ltb in Hlen.
    apply Z.ltb_lt in Hlen. now repeat split.
  - unfold keywords. apply StronglySorted_keys.
    + apply Forall_forall. intros p Hp. now apply Hpairs, Hsub.
    + apply (StronglySorted_prefix _ _ rest). rewrite <- Hrest.
      apply sorted_by_freq_sorted.
  - intros Hmax. unfold keywords, len. rewrite length_map.
    now apply slice_to_length.
  - intros Hmax w Hw Hstop Hlen.
    assert (Hacc : accepted w = true).
    { unfold accepted. rewrite Hstop. cbn [negb andb].
      rewrite Z.gtb_ltb. now apply Z.ltb_lt. }
    assert (Hkey : In w (map fst word_freq)).
    { destruct (in_dec str_eq_dec w (map fst word_freq)) as [Hk|Hk];
        [exact Hk|].
      pose proof (Hget w) as Hg.
      rewrite (get_item_absent _ _ _ Hk), Hacc in Hg.
      apply (count_occ_In str_eq_dec) in Hw. unfold occurrences in Hg. lia. }
    assert (Hsize : (length word_freq <= length words)%nat).
    { rewrite <- (length_map fst word_freq).
      apply NoDup_incl_length; [exact Hkeys|].
      intros x Hx. now apply Hin. }
    unfold keywords. rewrite slice_to_all.
    + apply (Permutation_in _ (Permutation_map fst (Permutation_sym Hperm))).
      exact Hkey.
    + unfold len in *. rewrite (Permutation_length Hperm). lia.
Qed.

End WithUnescape.

End TextProperties.
(* ================================================================== *)
(** * Answers, batches and the prompts sent to the language model *)
(* ================================================================== *)

Module AnswerProperties.
Import Py PyFacts VectorDatabase RAGPipeline.

Local Open Scope float_scope.

Section WithComponents.

Variable search : str -> option Z -> result (list SearchResult).
Variable format_context : list SearchResult -> result str.
Variable generator : str -> result str.
Variable sum : list float -> float.

Local Abbreviation generate := (generate generator).
Local Abbreviation answer_question :=
  (answer_question search format_context generator sum).
Local Abbreviation batch_answer_questions :=
  (batch_answer_questions search format_context generator sum).
Local Abbreviation batch_generate := (batch_generate generator).

(** What [generate] makes of the text of the library: an echo of the prompt
    at its start is cut off and the rest is stripped. *)
Definition completion (prompt generated_text : str) : str :=
  if startswith generated_text prompt
  then strip (skipn (length prompt) generated_text)
  else generated_text.

Lemma generate_run (prompt : str) (tr : trace) :
  generate prompt tr
  = (match generator prompt with
     | Ok generated_text => Ok (completion prompt generated_text)
     | Raise e => Raise e
     end,
     tr ++ [prompt]).
Proof. unfold RAGPipeline.generate. now destruct (generator prompt). Qed.

(** The ways [answer_question] ends. *)
Inductive outcome (question : str) (k : option Z) (tr : trace)
    : Answer -> trace -> Prop :=
| search_failed (e : exn) :
    search question k = Raise e ->
    outcome question k tr (degraded e) tr
| nothing_found :
    search question k = Ok [] ->
    outcome question k tr no_information tr
| format_failed (results : list SearchResult) (e : exn) :
    search question k = Ok results -> results <> [] ->
    format_context results = Raise e ->
    outcome question k tr (degraded e) tr
| generation_failed (results : list SearchResult) (context : str) (e : exn) :
    search question k = Ok results -> results <> [] ->
    format_context results = Ok context ->
    generator (context_prompt context question) = Raise e ->
    outcome question k tr (degraded e)
            (tr ++ [context_prompt context question])
| answered (results : list SearchResult) (context generated_text : str) :
    search question k = Ok results -> results <> [] ->
    format_context results = Ok context ->
    generator (context_prompt context question) = Ok generated_text ->
    outcome question k tr
      (mkAnswer
         (completion (context_prompt context question) generated_text)
         (map source_info results)
         (sum (map r_similarity results) / float_of_len results)
         (len results) (Some question) (Some (len context)) None)
      (tr ++ [context_prompt context question]).

Lemma answer_question_outcome (question : str) (k : option Z) (tr : trace) :
  exists a tr',
    answer_question question k tr = (Ok a, tr') /\
    outcome question k tr a tr'.
Proof.
  unfold RAGPipeline.answer_question, try_except, answer_body, bind, lift.
  destruct (search question k) as [results|e] eqn:Es.
  - destruct results as [|r results].
    + cbn. do 2 eexists. split; [reflexivity|]. now apply nothing_found.
    + cbn [nonempty negb].
      destruct (format_context (r :: results)) as [context|e] eqn:Ef.
      * unfold generate_with_context. rewrite generate_run.
        destruct (generator (context_prompt context question))
          as [generated_text|e] eqn:Eg.
        -- do 2 eexists. split; [reflexivity|].
           now apply (answered _ _ _ (r :: results) context generated_text).
        -- do 2 eexists. split; [reflexivity|].
           now apply (generation_failed _ _ _ (r :: results) context e).
      * do 2 eexists. split; [reflexivity|].
        now apply (format_failed _ _ _ (r :: results) e).
  - do 2 eexists. split; [reflexivity|]. now apply search_failed.
Qed.

(** X11.  Whatever the components do, the answer of [answer_question] lists
    one source for each retrieved document; an answer that carries an error
    has no sources, no retrieved document and confidence 0.0; and the
    language model is called at most once, with the prompt built from the
    formatted context and the question, and not at all when nothing was
    retrieved or the formatting failed. *)
Theorem answer_question_shape (question : str) (k : option Z) (tr : trace) :
  exists a tr',
    answer_question question k tr = (Ok a, tr') /\
    len (sources a) = retrieved_documents a /\
    (error a <> None ->
     sources a = [] /\ retrieved_documents a = 0%Z /\ confidence a = 0) /\
    (tr' = tr \/
     exists results context,
       search question k = Ok results /\ results <> [] /\
       format_context results = Ok context /\
       tr' = tr ++ [context_prompt context question]).
Proof.
  destruct (answer_question_outcome question k tr) as (a & tr' & Hrun & Hout).
  exists a, tr'. split; [exact Hrun|].
  destruct Hout as [e Hs|Hs|results e Hs Hne Hf|results context e Hs Hne Hf Hg
                   |results context generated_text Hs Hne Hf Hg];
    cbn [sources retrieved_documents error confidence degraded no_information].
  - repeat split; now left.
  - repeat split; now left.
  - repeat split; now left.
  - repeat split. right. now exists results, context.
  - split; [unfold len; now rewrite length_map|].
    split; [intros H; now contradiction H|].
    right. now exists results, context.
Qed.

(** ** Batches *)

Lemma for_each_answers (k : option Z) (questions : list str) :
  forall (answers : list Answer) (tr : trace),
  exists new tr',
    for_each (answer_step search format_context generator sum k) questions
      answers tr
    = (Ok (answers ++ new), tr') /\
    Forall2 (fun question a =>
               exists tr0 tr1, answer_question question k tr0 = (Ok a, tr1))
            questions new /\
    (length tr' <= length tr + length questions)%nat.
Proof.
  induction questions as [|question questions IH]; intros answers tr.
  - exists [], tr. cbn. rewrite app_nil_r. repeat split; [constructor | lia].
  - cbn [for_each]. unfold bind at 1, answer_step at 1, try_except, bind.
    destruct (answer_question_outcome question k tr) as (a & tr1 & Hrun & Hout).
    rewrite Hrun. cbn [ret].
    destruct (IH (answers ++ [a]) tr1) as (new & tr' & Hfor & Hall & Hlen).
    exists (a :: new), tr'. rewrite Hfor, <- app_assoc.
    repeat split.
    + constructor; [now exists tr, tr1 | exact Hall].
    + assert (Hstep : (length tr1 <= length tr + 1)%nat)
        by (destruct Hout; rewrite ?length_app; cbn [length]; lia).
      cbn [length]. lia.
Qed.

(** X12.  [batch_answer_questions] returns, for any list of questions, one
    answer for each question, in the order of the questions; each is the
    answer [answer_question] gives for its question, so the error entry of
    the loop is never used; and the language model is called at most once
    for each question. *)
Theorem batch_answer_questions_complete (questions : list str)
    (k : option Z) (tr : trace) :
  exists answers tr',
    batch_answer_questions questions k tr = (Ok answers, tr') /\
    Forall2 (fun question a =>
               exists tr0 tr1, answer_question question k tr0 = (Ok a, tr1))
            questions answers /\
    (length tr' <= length tr + length questions)%nat.
Proof.
  destruct (for_each_answers k questions [] tr)
    as (new & tr' & Hfor & Hall & Hlen).
  exists new, tr'. unfold RAGPipeline.batch_answer_questions, try_except.
  rewrite Hfor. now repeat split.
Qed.

Lemma for_each_texts (prompts : list str) :
  forall (generated_texts : list str) (tr : trace),
  exists new,
    for_each (generate_step generator) prompts generated_texts tr
    = (Ok (generated_texts ++ new), tr ++ prompts) /\
    Forall2 (fun prompt text =>
               match generator prompt with
               | Ok generated_text => text = completion prompt generated_text
               | Raise _ => text = []
               end)
            prompts new.
Proof.
  induction prompts as [|prompt prompts IH]; intros generated_texts tr.
  - exists []. cbn. rewrite !app_nil_r. split; [reflexivity | constructor].
  - cbn [for_each]. unfold bind at 1, generate_step at 1, try_except, bind.
    rewrite generate_run.
    destruct (generator prompt) as [generated_text|e] eqn:Eg; cbn [ret].
    + destruct (IH (generated_texts ++ [completion prompt generated_text])
                   (tr ++ [prompt])) as (new & Hfor & Hall).
      exists (completion prompt generated_text :: new).
      rewrite Hfor, <- !app_assoc. split; [reflexivity|].
      constructor; [now rewrite Eg | exact Hall].
    + destruct (IH (generated_texts ++ [[]]) (tr ++ [prompt]))
        as (new & Hfor & Hall).
      exists ([] :: new).
      rewrite Hfor, <- !app_assoc. split; [reflexivity|].
      constructor; [now rewrite Eg | exact Hall].
Qed.

(** X13.  [batch_generate] returns, for any list of prompts, one text for
    each prompt, in order: the completion of the prompt, or the empty
    string when the generation of that prompt raised; a failure does not end
    the batch, and the model is called once with every prompt. *)
Theorem batch_generate_complete (prompts : list str) (tr : trace) :
  exists generated_texts,
    batch_generate prompts tr = (Ok generated_texts, tr ++ prompts) /\
    Forall2 (fun prompt text =>
               match generator prompt with
               | Ok generated_text => text = completion prompt generated_text
               | Raise _ => text = []
               end)
            prompts generated_texts.
Proof.
  destruct (for_each_texts prompts [] tr) as (new & Hfor & Hall).
  exists new. unfold RAGPipeline.batch_generate, try_except.
  rewrite Hfor. now split.
Qed.

End WithComponents.

End AnswerProperties.
(* ================================================================== *)
(** * Prompts for summaries, analyses and comparisons *)
(* ================================================================== *)

Module PromptProperties.
Import Py PyFacts PromptManager RAGPipeline TextProperties AnswerProperties.

(** The truncation the prompt builders apply to a text. *)
Definition cut (limit : Z) (text : str) : str :=
  if (len text >? limit)%Z then slice_to limit text ++ lit "..." else text.

Lemma cut_fits (limit : Z) (text : str) :
  (len text <= limit)%Z -> cut limit text = text.
Proof.
  intros H. unfold cut.
  destruct (len text >? limit)%Z eqn:E; [|reflexivity].
  rewrite Z.gtb_ltb in E. apply Z.ltb_lt in E. lia.
Qed.

Lemma cut_long (limit : Z) (text : str) :
  (0 <= limit < len text)%Z ->
  cut limit text = firstn (Z.to_nat limit) text ++ lit "...".
Proof.
  intros H. unfold cut, slice_to.
  destruct (len text >? limit)%Z eqn:E;
    [|rewrite Z.gtb_ltb in E; apply Z.ltb_ge in E; lia].
  destruct (limit <? 0)%Z eqn:E'; [apply Z.ltb_lt in E'; lia|reflexivity].
Qed.

Lemma cut_negative (limit : Z) (text : str) :
  (limit < 0)%Z ->
  cut limit text = firstn (Z.to_nat (len text + limit)) text ++ lit "...".
Proof.
  intros H. pose proof (len_nonneg text) as Hn. unfold cut, slice_to.
  destruct (len text >? limit)%Z eqn:E;
    [|rewrite Z.gtb_ltb in E; apply Z.ltb_ge in E; lia].
  destruct (limit <? 0)%Z eqn:E'; [|apply Z.ltb_ge in E'; lia].
  now replace (Z.to_nat (Z.max (len text + limit) 0))
    with (Z.to_nat (len text + limit)) by lia.
Qed.

Lemma cut_length (limit : Z) (text : str) :
  (0 <= limit)%Z -> (len (cut limit text) <= limit + 3)%Z.
Proof.
  intros H. destruct (Z.le_gt_cases (len text) limit) as [Hfit|Hlong].
  - rewrite cut_fits by exact Hfit. lia.
  - rewrite cut_long by lia. rewrite len_app.
    change (len (lit "...")) with 3%Z.
    pose proof (firstn_le_length (Z.to_nat limit) text). unfold len. lia.
Qed.

Lemma create_comparison_prompt_cut (self : settings) (text1 text2 : str) :
  create_comparison_prompt self text1 text2
  = lit "Please compare the following two texts and highlight the key differences and similarities:"
    ++ [nl; nl] ++ lit "Text 1:" ++ [nl]
    ++ cut (max_context_length self / 2) text1 ++ [nl; nl]
    ++ lit "Text 2:" ++ [nl]
    ++ cut (max_context_length self / 2) text2 ++ [nl; nl]
    ++ lit "Comparison:".
Proof. reflexivity. Qed.

Section WithGenerator.

Variable generator : str -> result str.

Local Abbreviation summarize_text := (summarize_text generator).
Local Abbreviation compare_texts := (compare_texts generator).
Local Abbreviation analyze_text := (analyze_text generator).

Lemma generate_reraised (prompt : str) (tr : trace) :
  try_except (generate generator prompt) (fun e => raise e) tr
  = (match generator prompt with
     | Ok generated_text => Ok (completion prompt generated_text)
     | Raise e => Raise e
     end,
     tr ++ [prompt]).
Proof.
  unfold try_except. rewrite generate_run.
  now destruct (generator prompt).
Qed.

(** X14.  [summarize_text] calls the language model once, whatever the
    limit is, returns the completion of its prompt and raises an exception
    of the model again.  The prompt holds the text as it is when the text
    fits the limit; its first [limit] characters followed by three dots
    when the limit is not negative and the text is longer; and, under a
    negative limit, the text without its last [-limit] characters, followed
    by three dots.  With a limit that is not negative the prompt so holds
    at most [limit + 3] characters of the text. *)
Theorem summarize_text_prompt (self : settings) (text : str)
    (max_length : option Z) (tr : trace) :
  let limit := or_default max_length (context_window self) in
  exists body,
    let prompt :=
      lit "Please provide a concise summary of the following text:"
      ++ [nl; nl] ++ body ++ [nl; nl] ++ lit "Summary:" in
    summarize_text self text max_length tr
    = (match generator prompt with
       | Ok generated_text => Ok (completion prompt generated_text)
       | Raise e => Raise e
       end,
       tr ++ [prompt]) /\
    ((len text <= limit)%Z -> body = text) /\
    ((0 <= limit < len text)%Z ->
     body = firstn (Z.to_nat limit) text ++ lit "...") /\
    ((limit < 0)%Z ->
     body = firstn (Z.to_nat (len text + limit)) text ++ lit "...") /\
    ((0 <= limit)%Z -> (len body <= limit + 3)%Z).
Proof.
  intros limit. exists (cut limit text). cbv zeta.
  split; [|split; [|split; [|split]]].
  - unfold RAGPipeline.summarize_text. rewrite generate_reraised.
    reflexivity.
  - apply cut_fits.
  - apply cut_long.
  - apply cut_negative.
  - apply cut_length.
Qed.

(** X15.  [compare_texts] calls the language model once, whatever the
    settings are, with the comparison prompt of the two texts, returns its
    completion and raises an exception of the model again.  In the prompt
    each text is cut at half of [max_context_length], rounded down: a text
    that fits the half stands as it is, a longer one gives its first
    [half] characters followed by three dots (under a negative half, the
    text without its last [-half] characters, followed by three dots).
    With a [max_context_length] that is not negative the two texts so take
    at most [max_context_length + 6] characters of the prompt together,
    however long they are. *)
Theorem compare_texts_prompt (self : settings) (text1 text2 : str)
    (tr : trace) :
  let half := (max_context_length self / 2)%Z in
  exists body1 body2,
    let prompt :=
      lit "Please compare the following two texts and highlight the key differences and similarities:"
      ++ [nl; nl] ++ lit "Text 1:" ++ [nl] ++ body1 ++ [nl; nl]
      ++ lit "Text 2:" ++ [nl] ++ body2 ++ [nl; nl] ++ lit "Comparison:" in
    compare_texts self text1 text2 tr
    = (match generator prompt with
       | Ok generated_text => Ok (completion prompt generated_text)
       | Raise e => Raise e
       end,
       tr ++ [prompt]) /\
    (((len text1 <= half)%Z -> body1 = text1) /\
     ((0 <= half < len text1)%Z ->
      body1 = firstn (Z.to_nat half) text1 ++ lit "...") /\
     ((half < 0)%Z ->
      body1 = firstn (Z.to_nat (len text1 + half)) text1 ++ lit "...")) /\
    (((len text2 <= half)%Z -> body2 = text2) /\
     ((0 <= half < len text2)%Z ->
      body2 = firstn (Z.to_nat half) text2 ++ lit "...") /\
     ((half < 0)%Z ->
      body2 = firstn (Z.to_nat (len text2 + half)) text2 ++ lit "...")) /\
    ((0 <= max_context_length self)%Z ->
     (len body1 + len body2 <= max_context_length self + 6)%Z).
Proof.
  intros half. exists (cut half text1), (cut half text2). cbv zeta.
  split; [|split; [|split]].
  - unfold RAGPipeline.compare_texts.
    rewrite generate_reraised, create_comparison_prompt_cut. reflexivity.
  - repeat split; [apply cut_fits | apply cut_long | apply cut_negative].
  - repeat split; [apply cut_fits | apply cut_long | apply cut_negative].
  - intros Hmax.
    assert (Hhalf : (0 <= half /\ 2 * half <= max_context_length self)%Z).
    { unfold half. split; [now apply Z.div_pos|].
      apply Z.mul_div_le. lia. }
    pose proof (cut_length half text1 (proj1 Hhalf)) as H1.
    pose proof (cut_length half text2 (proj1 Hhalf)) as H2.
    lia.
Qed.

(** X16.  An analysis type that is none of [general], [technical] and
    [key_points] is answered with the instruction of [general]: the prompt
    [create_analysis_prompt] builds for it, and so the call of the language
    model by [analyze_text], is the one of the general analysis. *)
Theorem create_analysis_prompt_fallback (self : settings)
    (text analysis_type : str) (tr : trace) :
  ~ In analysis_type [lit "general"; lit "technical"; lit "key_points"] ->
  create_analysis_prompt self text analysis_type
  = create_analysis_prompt self text (lit "general")
  /\
  analyze_text self text analysis_type tr
  = analyze_text self text (lit "general") tr.
Proof.
  intros Hnot.
  assert (H : create_analysis_prompt self text analysis_type
              = create_analysis_prompt self text (lit "general")).
  { unfold create_analysis_prompt, analysis_instructions.
    cbn [get_item].
    assert (E1 : str_eqb (lit "general") analysis_type = false)
      by (apply str_eqb_neq; intros <-; apply Hnot; now left).
    assert (E2 : str_eqb (lit "technical") analysis_type = false)
      by (apply str_eqb_neq; intros <-; apply Hnot; right; now left).
    assert (E3 : str_eqb (lit "key_points") analysis_type = false)
      by (apply str_eqb_neq; intros <-; apply Hnot; right; right; now left).
    now rewrite E1, E2, E3. }
  split; [exact H|].
  unfold RAGPipeline.analyze_text. now rewrite H.
Qed.

End WithGenerator.

(** X17.  Without a system prompt and without a template, and for a context
    within [max_context_length], [create_qa_prompt] builds the prompt that
    [generate_with_context] sends to the language model, and no call of the
    template formatting is made that could raise. *)
Theorem create_qa_prompt_default
    (format_template : str -> str -> str -> result str) (self : settings)
    (question context : str) (include_system_prompt : bool) :
  system_prompt self = [] ->
  user_prompt_template self = [] ->
  (len context <= max_context_length self)%Z ->
  create_qa_prompt format_template self question context include_system_prompt
  = Ok (context_prompt context question).
Proof.
  intros Hsys Htpl Hfit. unfold create_qa_prompt.
  assert (E : (len context >? max_context_length self)%Z = false)
    by (rewrite Z.gtb_ltb; apply Z.ltb_ge; lia).
  rewrite E, Hsys, Htpl. cbn [nonempty].
  rewrite andb_false_r. reflexivity.
Qed.

(** ** Runs *)

Definition short_settings : settings := mkSettings [] [] 10 8.

Definition failing_template : str -> str -> str -> result str :=
  fun _ _ _ => Raise (LibraryError (lit "KeyError")).

Definition silent_generator : str -> result str := fun _ => Ok [].

(** The witness of X14: twelve characters under a limit of eight. *)
Lemma summarize_text_prompt_witness :
  snd (summarize_text silent_generator short_settings (lit "abcdefghijkl")
         None [])
  = [lit "Please provide a concise summary of the following text:"
     ++ [nl; nl] ++ lit "abcdefgh..." ++ [nl; nl] ++ lit "Summary:"].
Proof.
  destruct (summarize_text_prompt silent_generator short_settings
              (lit "abcdefghijkl") None [])
    as (body & Hrun & _ & Hlong & _ & _).
  cbv zeta in Hrun. rewrite Hrun, Hlong; [reflexivity|].
  split; [discriminate | reflexivity].
Defined.

(** The witness of X15: two texts of twelve characters under a
    [max_context_length] of ten, five characters for each. *)
Lemma compare_texts_prompt_witness :
  snd (compare_texts silent_generator short_settings (lit "abcdefghijkl")
         (lit "mnopqrstuvwx") [])
  = [lit "Please compare the following two texts and highlight the key differences and similarities:"
     ++ [nl; nl] ++ lit "Text 1:" ++ [nl] ++ lit "abcde..." ++ [nl; nl]
     ++ lit "Text 2:" ++ [nl] ++ lit "mnopq..." ++ [nl; nl]
     ++ lit "Comparison:"].
Proof.
  destruct (compare_texts_prompt silent_generator short_settings
              (lit "abcdefghijkl") (lit "mnopqrstuvwx") [])
    as (body1 & body2 & Hrun & (_ & H1 & _) & (_ & H2 & _) & _).
  cbv zeta in Hrun. rewrite Hrun, H1, H2; [reflexivity | |];
    (split; [discriminate | reflexivity]).
Defined.

(** The witness of X16: an analysis type the dictionary does not hold. *)
Lemma create_analysis_prompt_fallback_witness :
  create_analysis_prompt short_settings (lit "abc") (lit "legal")
  = create_analysis_prompt short_settings (lit "abc") (lit "general").
Proof.
  apply (create_analysis_prompt_fallback silent_generator short_settings
           (lit "abc") (lit "legal") []).
  intros [H|[H|[H|[]]]]; discriminate H.
Defined.

(** The witness of X17. *)
Lemma create_qa_prompt_default_witness :
  create_qa_prompt failing_template short_settings (lit "Why?") (lit "Because.")
    true
  = Ok (context_prompt (lit "Because.") (lit "Why?")).
Proof.
  apply create_qa_prompt_default; [reflexivity | reflexivity | discriminate].
Defined.

End PromptProperties.

(* ================================================================== *)
(** * From documents to the store *)
(* ================================================================== *)

Module IndexingProperties.
Import Py PyFacts VectorDatabase StoreTheorems StoreProperties TextProperties.
Import EmbeddingPipeline.

Lemma get_get_item (d : dict) (key : str) (default : value) :
  get d key default = get_item d key default.
Proof.
  induction d as [|[k v] d IH]; [reflexivity|].
  cbn [get get_item]. now rewrite IH.
Qed.

Lemma enumerate_from_snd {A : Type} (l : list A) :
  forall i, map snd (enumerate_from i l) = l.
Proof.
  induction l as [|x l IH]; intros i; [reflexivity|].
  cbn [enumerate_from map snd]. now rewrite IH.
Qed.

(** The keys [_chunk_documents] writes into the metadata of a chunk. *)
Definition pipeline_keys : list str :=
  [lit "document_index"; lit "chunk_index"; lit "total_chunks";
   lit "chunk_size"].

Section WithIndexing.

Context {Index : Type}.
Variable faiss_add : Index -> matrix -> result Index.
Variable l2_normalize : vec -> vec.
Variable charref_sub : str -> str.
Variable encode : list str -> result matrix.
Variable save : VectorDatabase.t Index -> str -> result unit.
Variable timestamp : str.

Local Abbreviation _chunk_documents := (_chunk_documents charref_sub).
Local Abbreviation document_step := (document_step charref_sub).
Local Abbreviation process_documents :=
  (process_documents faiss_add l2_normalize charref_sub encode save timestamp).

Definition content_of (document : Document) : str :=
  match d_content document with Some c => c | None => [] end.

Definition metadata_of (document : Document) : dict :=
  match d_metadata document with Some m => m | None => [] end.

(** The chunks of one document under the configuration of the pipeline. *)
Definition chunks_of (self : EmbeddingPipeline.t Index) (document : Document)
    : list str :=
  TextProcessing.chunk_text charref_sub (content_of document)
    (chunk_size self) (chunk_overlap self) (min_chunk_size self)
    (max_chunk_size self).

Definition metas_from (metadata : dict) (doc_idx total_chunks : Z)
    (ics : list (Z * str)) : list dict :=
  map (fun ic => chunk_meta metadata doc_idx (fst ic) total_chunks (snd ic))
      ics.

Definition metas_of (self : EmbeddingPipeline.t Index) (id : Z * Document)
    : list dict :=
  metas_from (metadata_of (snd id)) (fst id) (len (chunks_of self (snd id)))
             (enumerate_from 0 (chunks_of self (snd id))).

Lemma chunk_loop (metadata : dict) (doc_idx total_chunks : Z)
    (ics : list (Z * str)) :
  forall chunks chunk_metadata,
    fold_left (chunk_step metadata doc_idx total_chunks) ics
              (chunks, chunk_metadata)
    = (chunks ++ map snd ics,
       chunk_metadata ++ metas_from metadata doc_idx total_chunks ics).
Proof.
  induction ics as [|[chunk_idx chunk] ics IH]; intros chunks chunk_metadata.
  - cbn. now rewrite !app_nil_r.
  - cbn [fold_left chunk_step]. rewrite IH. cbn [map metas_from fst snd].
    now rewrite <- !app_assoc.
Qed.

Lemma document_step_eq (self : EmbeddingPipeline.t Index)
    (chunks : list str) (chunk_metadata : list dict) (id : Z * Document) :
  document_step self (chunks, chunk_metadata) id
  = (chunks ++ chunks_of self (snd id), chunk_metadata ++ metas_of self id).
Proof.
  destruct id as [doc_idx document].
  unfold EmbeddingPipeline.document_step, metas_of, chunks_of. cbn [fst snd].
  fold (content_of document). fold (metadata_of document).
  destruct (content_of document) as [|c content] eqn:Ec.
  - cbn. now rewrite !app_nil_r.
  - cbn [nonempty negb]. rewrite chunk_loop. now rewrite enumerate_from_snd.
Qed.

Lemma documents_loop (self : EmbeddingPipeline.t Index)
    (docs : list Document) :
  forall i chunks chunk_metadata,
    fold_left (document_step self) (enumerate_from i docs)
              (chunks, chunk_metadata)
    = (chunks ++ flat_map (chunks_of self) docs,
       chunk_metadata ++ flat_map (metas_of self) (enumerate_from i docs)).
Proof.
  induction docs as [|document docs IH]; intros i chunks chunk_metadata.
  - cbn. now rewrite !app_nil_r.
  - cbn [enumerate_from fold_left flat_map].
    rewrite document_step_eq, IH. cbn [snd]. now rewrite <- !app_assoc.
Qed.

(** What the metadata of a chunk says about it: the document it was cut
    from, its place among the chunks of that document, their number and its
    own length; under every other key it holds what the metadata of the
    document holds. *)
Definition described (self : EmbeddingPipeline.t Index)
    (docs : list Document) (chunk : str) (meta : dict) : Prop :=
  exists (doc_idx chunk_idx : nat) (document : Document),
    nth_error docs doc_idx = Some document /\
    nth_error (chunks_of self document) chunk_idx = Some chunk /\
    (forall default,
       get meta (lit "document_index") default = VInt (Z.of_nat doc_idx)) /\
    (forall default,
       get meta (lit "chunk_index") default = VInt (Z.of_nat chunk_idx)) /\
    (forall default,
       get meta (lit "total_chunks") default
       = VInt (len (chunks_of self document))) /\
    (forall default, get meta (lit "chunk_size") default = VInt (len chunk)) /\
    (forall key default,
       ~ In key pipeline_keys ->
       get meta key default = get (metadata_of document) key default).

Lemma chunk_meta_get (metadata : dict) (doc_idx chunk_idx total_chunks : Z)
    (chunk : str) :
  let meta := chunk_meta metadata doc_idx chunk_idx total_chunks chunk in
  (forall default, get meta (lit "document_index") default = VInt doc_idx) /\
  (forall default, get meta (lit "chunk_index") default = VInt chunk_idx) /\
  (forall default, get meta (lit "total_chunks") default = VInt total_chunks) /\
  (forall default, get meta (lit "chunk_size") default = VInt (len chunk)) /\
  (forall key default,
     ~ In key pipeline_keys ->
     get meta key default = get metadata key default).
Proof.
  cbv zeta. unfold chunk_meta. repeat split; intros; rewrite !get_get_item.
  - rewrite !get_item_set_other by discriminate. apply get_item_set_same.
  - rewrite !get_item_set_other by discriminate. apply get_item_set_same.
  - rewrite !get_item_set_other by discriminate. apply get_item_set_same.
  - apply get_item_set_same.
  - rewrite !get_item_set_other; [reflexivity | | | |];
      intros <-; apply H; unfold pipeline_keys; cbn [In]; tauto.
Qed.

Lemma chunks_described (self : EmbeddingPipeline.t Index)
    (docs : list Document) (doc_idx : nat) (document : Document) :
  nth_error docs doc_idx = Some document ->
  forall rest pre,
    chunks_of self document = pre ++ rest ->
    Forall2 (described self docs) rest
      (metas_from (metadata_of document) (Z.of_nat doc_idx)
         (len (chunks_of self document)) (enumerate_from (len pre) rest)).
Proof.
  intros Hdoc. induction rest as [|chunk rest IH]; intros pre Hsplit;
    [constructor|].
  cbn [enumerate_from metas_from map fst snd]. constructor.
  - destruct (chunk_meta_get (metadata_of document) (Z.of_nat doc_idx)
                (len pre) (len (chunks_of self document)) chunk)
      as (H1 & H2 & H3 & H4 & H5).
    exists doc_idx, (length pre), document.
    repeat split; try assumption.
    rewrite Hsplit, nth_error_app2 by lia. now rewrite Nat.sub_diag.
  - replace (len pre + 1)%Z with (len (pre ++ [chunk]))
      by (rewrite len_app; reflexivity).
    apply IH. now rewrite <- app_assoc.
Qed.

Lemma documents_described (self : EmbeddingPipeline.t Index)
    (all : list Document) :
  forall docs seen,
    all = seen ++ docs ->
    Forall2 (described self all) (flat_map (chunks_of self) docs)
      (flat_map (metas_of self) (enumerate_from (len seen) docs)).
Proof.
  induction docs as [|document docs IH]; intros seen Hsplit; [constructor|].
  cbn [enumerate_from flat_map]. apply Forall2_app.
  - unfold metas_of. cbn [fst snd].
    assert (Hdoc : nth_error all (length seen) = Some document)
      by (rewrite Hsplit, nth_error_app2 by lia; now rewrite Nat.sub_diag).
    exact (chunks_described self all (length seen) document Hdoc
             (chunks_of self document) [] eq_refl).
  - replace (len seen + 1)%Z with (len (seen ++ [document]))
      by (rewrite len_app; reflexivity).
    apply IH. now rewrite <- app_assoc.
Qed.

Lemma chunk_documents_eq (self : EmbeddingPipeline.t Index)
    (docs : list Document) :
  _chunk_documents self docs
  = (flat_map (chunks_of self) docs,
     flat_map (metas_of self) (enumerate_from 0 docs)).
Proof. unfold EmbeddingPipeline._chunk_documents. now rewrite documents_loop. Qed.

(** X18.  [_chunk_documents] returns the chunks of the documents in the
    order of the documents, none left out and none added (a document without
    content has no chunks), and one metadata entry for each chunk, which
    names the document and the position the chunk comes from, the number of
    chunks of that document and the length of the chunk, and otherwise
    repeats the metadata of the document. *)
Theorem chunk_documents_described (self : EmbeddingPipeline.t Index)
    (docs : list Document) :
  fst (_chunk_documents self docs) = flat_map (chunks_of self) docs /\
  Forall2 (described self docs)
          (fst (_chunk_documents self docs))
          (snd (_chunk_documents self docs)).
Proof.
  rewrite chunk_documents_eq. cbn [fst snd]. split; [reflexivity|].
  now apply (documents_described self docs docs []).
Qed.



(** X19.  When [process_documents] returns on a pipeline with an aligned
    store, the store holds what it held followed by the chunks of the
    documents, with the metadata [_chunk_documents] gave them at the same
    positions; the store is aligned again; and the report counts the
    documents and the chunks. *)
Theorem process_documents_stores_chunks (self self' : EmbeddingPipeline.t Index)
    (docs : list Document) (save_index : bool) (index_path : option str)
    (report : Report) :
  aligned (vector_db self) ->
  process_documents self docs save_index index_path = (Ok report, self') ->
  documents (vector_db self')
  = documents (vector_db self) ++ fst (_chunk_documents self docs) /\
  metadata (vector_db self')
  = metadata (vector_db self) ++ snd (_chunk_documents self docs) /\
  aligned (vector_db self') /\
  document_count report = len docs /\
  chunk_count report = len (fst (_chunk_documents self docs)).
Proof.
  intros Hal Hrun.
  pose proof (Forall2_length (documents_described self docs docs [] eq_refl))
    as Hlen.
  change (len (@nil Document)) with 0%Z in Hlen.
  unfold EmbeddingPipeline.process_documents in Hrun.
  rewrite chunk_documents_eq in *. cbn [fst snd]. cbv beta match in Hrun.
  remember (flat_map (chunks_of self) docs) as chunks eqn:Ec.
  remember (flat_map (metas_of self) (enumerate_from 0 docs))
    as chunk_metadata eqn:Em.
  clear Ec Em.
  destruct (encode chunks) as [embeddings|e]; [|discriminate Hrun].
  destruct (add_documents faiss_add l2_normalize (vector_db self) chunks
              embeddings (Some chunk_metadata)) as [[[]|e] db] eqn:Eadd;
    [|discriminate Hrun].
  destruct (add_documents_ok _ _ _ _ _ _ _ Eadd) as [Hdocs Hmeta].
  assert (Hmeta' : metadata db = metadata (vector_db self) ++ chunk_metadata).
  { rewrite Hmeta. destruct chunk_metadata as [|m ms]; [|reflexivity].
    destruct chunks; [reflexivity | discriminate Hlen]. }
  assert (Hdb : vector_db self' = db /\
                document_count report = len docs /\
                chunk_count report = len chunks).
  { destruct save_index.
    - destruct (_save_index save timestamp (with_vector_db self db) index_path);
        [|discriminate Hrun].
      injection Hrun as <- <-. now repeat split.
    - injection Hrun as <- <-. now repeat split. }
  destruct Hdb as (-> & Hcount & Hchunks).
  repeat split; try assumption.
  unfold aligned in *. rewrite Hdocs, Hmeta', !length_app. lia.
Qed.


End WithIndexing.

(** ** A run of the pipeline on the two-document store *)

Local Open Scope float_scope.

Definition no_entities : str -> str := fun s => s.

Definition unit_rows : list str -> result matrix :=
  fun chunks => Ok (map (fun _ => [1]) chunks).

Definition saved : VectorDatabase.t unit -> str -> result unit :=
  fun _ _ => Ok tt.


Definition sample_pipeline : EmbeddingPipeline.t unit :=
  mkPipeline 1000 200 100 2000 small_store.

Definition sample_documents : list Document :=
  [mkDocument (Some (lit "FAISS is a library. It searches vectors."))
              (Some [(lit "source", VStr (lit "wiki"))]);
   mkDocument None None].

(** The witness of X19. *)
Lemma process_documents_stores_chunks_witness :
  documents
    (vector_db
       (snd (process_documents take_rows same_row no_entities unit_rows saved
               (lit "20240101_000000") sample_pipeline sample_documents false
               None)))
  = [lit "first"; lit "second";
     lit "FAISS is a library. It searches vectors."].
Proof.
  destruct (process_documents_stores_chunks take_rows same_row no_entities
              unit_rows saved (lit "20240101_000000") sample_pipeline
              (snd (process_documents take_rows same_row no_entities unit_rows
                      saved (lit "20240101_000000") sample_pipeline
                      sample_documents false None))
              sample_documents false None
              (mkReport (lit "success") 2 1 None))
    as (Hdocs & _).
  - reflexivity.
  - vm_compute. reflexivity.
  - rewrite Hdocs. vm_compute. reflexivity.
Defined.


End IndexingProperties.

(* ================================================================== *)
(** * Arguments that are zero *)
(* ================================================================== *)

Module DefaultProperties.
Import Py VectorDatabase RAGPipeline.

Section WithLibraries.

Context {Index : Type}.
Variable faiss_search : Index -> vec -> Z -> result (list float * list Z).
Variable l2_normalize : vec -> vec.
Variable one_minus : float -> float.
Variable encode_single : str -> result vec.
Variable format_context : list SearchResult -> result str.
Variable generator : str -> result str.
Variable sum : list float -> float.
Variable fmt2 : float -> str.

Local Abbreviation retrieve :=
  (EmbeddingPipeline.search faiss_search l2_normalize one_minus encode_single).

(** X21.  A count of zero is taken for a missing one.  Asked for [k = 0]
    documents, the store searches for [top_k] of them, and so do the
    retrieval and [answer_question] above it, which answer as they do
    without a [k]; and a context length of zero gives [format_context] the
    configured length, not an empty context. *)
Theorem zero_counts_as_absent (vector_db : VectorDatabase.t Index)
    (query_embedding : vec) (question : str) (tr : trace) (self_max : Z)
    (search_results : list SearchResult) :
  search faiss_search l2_normalize vector_db query_embedding (Some 0%Z)
  = faiss_search (index vector_db)
      (if normalize_L2 vector_db then l2_normalize query_embedding
       else query_embedding)
      (top_k vector_db)
  /\
  search_with_metadata faiss_search l2_normalize one_minus vector_db
    query_embedding (Some 0%Z)
  = search_with_metadata faiss_search l2_normalize one_minus vector_db
      query_embedding None
  /\
  answer_question (retrieve vector_db) format_context generator sum question
    (Some 0%Z) tr
  = answer_question (retrieve vector_db) format_context generator sum question
      None tr
  /\
  PromptManager.format_context fmt2 self_max search_results (Some 0%Z)
  = PromptManager.format_context fmt2 self_max search_results None.
Proof. repeat split. Qed.

End WithLibraries.

End DefaultProperties.

(* ================================================================== *)
(** * Searching for several queries *)
(* ================================================================== *)

Module BatchSearchProperties.
Import Py PyFacts VectorDatabase EmbeddingPipeline.

Section WithBatch.

Context {Index : Type}.
Variable faiss_search : Index -> vec -> Z -> result (list float * list Z).
Variable l2_normalize : vec -> vec.
Variable one_minus : float -> float.
Variable encode : list str -> result matrix.

Local Abbreviation search_with_metadata :=
  (search_with_metadata faiss_search l2_normalize one_minus).
Local Abbreviation search_each :=
  (search_each faiss_search l2_normalize one_minus).
Local Abbreviation batch_search :=
  (batch_search faiss_search l2_normalize one_minus encode).

(** The search for one row succeeds with these results. *)
Definition found (vector_db : VectorDatabase.t Index) (k : option Z)
    (query_embedding : vec) (results : list SearchResult) : Prop :=
  search_with_metadata vector_db query_embedding k = Ok results.

Lemma row_at (pre : matrix) (v : vec) (rest : matrix) :
  row (pre ++ v :: rest) (len pre) = Ok v.
Proof.
  unfold row, len. rewrite Nat2Z.id, nth_error_app2 by lia.
  now rewrite Nat.sub_diag.
Qed.

Lemma row_beyond (rows : matrix) :
  exists e, row rows (len rows) = Raise e.
Proof.
  unfold row, len. rewrite Nat2Z.id.
  destruct (nth_error rows (length rows)) as [v|] eqn:E; [|now eexists].
  assert (H : (length rows < length rows)%nat)
    by (apply nth_error_Some; rewrite E; discriminate).
  lia.
Qed.

Lemma search_each_spec (vector_db : VectorDatabase.t Index) (k : option Z)
    (queries : list str) :
  forall (pre rest : matrix) (all_results out : list (list SearchResult)),
    (length queries <= length rest)%nat ->
    search_each vector_db (pre ++ rest) k (enumerate_from (len pre) queries)
      all_results = Ok out
    <->
    exists new,
      out = all_results ++ new /\
      Forall2 (found vector_db k) (firstn (length queries) rest) new.
Proof.
  induction queries as [|query queries IH];
    intros pre rest all_results out Hlen.
  - cbn. split.
    + intros [= <-]. exists []. rewrite app_nil_r. split; constructor.
    + intros (new & -> & Hall). inversion Hall. now rewrite app_nil_r.
  - destruct rest as [|v rest]; [cbn in Hlen; lia|].
    cbn [enumerate_from EmbeddingPipeline.search_each length firstn].
    rewrite row_at.
    replace (len pre + 1)%Z with (len (pre ++ [v]))
      by (rewrite len_app; reflexivity).
    replace (pre ++ v :: rest) with ((pre ++ [v]) ++ rest)
      by (now rewrite <- app_assoc).
    destruct (search_with_metadata vector_db v k) as [results|e] eqn:Es.
    + rewrite IH by (cbn in Hlen; lia). split.
      * intros (new & -> & Hall). exists (results :: new).
        rewrite <- app_assoc. split; [reflexivity|].
        constructor; [exact Es | exact Hall].
      * intros (new & -> & Hall).
        inversion Hall as [|? res ? new' Hv Hrest]; subst.
        unfold found in Hv. rewrite Es in Hv. injection Hv as <-.
        exists new'. rewrite <- app_assoc. now split.
    + split; [discriminate|].
      intros (new & _ & Hall).
      inversion Hall as [|? res ? new' Hv Hrest]; subst.
      unfold found in Hv. rewrite Es in Hv. discriminate Hv.
Qed.

Lemma search_each_short (vector_db : VectorDatabase.t Index) (k : option Z)
    (queries : list str) :
  forall (pre rest : matrix) (all_results : list (list SearchResult)),
    (length rest < length queries)%nat ->
    exists e,
      search_each vector_db (pre ++ rest) k
        (enumerate_from (len pre) queries) all_results = Raise e.
Proof.
  induction queries as [|query queries IH]; intros pre rest all_results Hlen;
    [cbn in Hlen; lia|].
  cbn [enumerate_from EmbeddingPipeline.search_each].
  destruct rest as [|v rest].
  - rewrite app_nil_r. destruct (row_beyond pre) as (e & ->). now exists e.
  - rewrite row_at.
    destruct (search_with_metadata vector_db v k) as [results|e];
      [|now exists e].
    replace (len pre + 1)%Z with (len (pre ++ [v]))
      by (rewrite len_app; reflexivity).
    replace (pre ++ v :: rest) with ((pre ++ [v]) ++ rest)
      by (now rewrite <- app_assoc).
    apply IH. cbn in Hlen. lia.
Qed.

(** X23.  [batch_search] is all or nothing.  With one row of the encoder
    for each query, it returns exactly when the search for every row
    returns, and then it returns the result lists of the rows, one for each
    query and in the order of the queries; a single search that raises
    fails the whole batch.  With fewer rows than queries it raises. *)
Theorem batch_search_all_or_nothing (vector_db : VectorDatabase.t Index)
    (queries : list str) (k : option Z) (query_embeddings : matrix) :
  encode queries = Ok query_embeddings ->
  ((length queries <= length query_embeddings)%nat ->
   forall all_results,
     batch_search vector_db queries k = Ok all_results
     <->
     Forall2 (found vector_db k)
             (firstn (length queries) query_embeddings) all_results)
  /\
  ((length query_embeddings < length queries)%nat ->
   exists e, batch_search vector_db queries k = Raise e).
Proof.
  intros Henc. unfold EmbeddingPipeline.batch_search. rewrite Henc. split.
  - intros Hlen all_results.
    rewrite (search_each_spec vector_db k queries [] query_embeddings []
               all_results Hlen).
    split.
    + now intros (new & -> & Hall).
    + intros Hall. now exists all_results.
  - intros Hlen.
    exact (search_each_short vector_db k queries [] query_embeddings [] Hlen).
Qed.

End WithBatch.

(** The witness of X23: two queries on the two-document store. *)
Lemma batch_search_all_or_nothing_witness :
  exists all_results,
    batch_search
      (StoreTheorems.fixed_search [0.75; 0.5]%float [1; 0]%Z)
      StoreTheorems.same_row StoreTheorems.one_minus64
      (fun queries => Ok (map (fun _ => [1%float]) queries))
      StoreTheorems.small_store [lit "first query"; lit "second query"]
      (Some 2%Z)
    = Ok all_results /\
    length all_results = 2%nat.
Proof.
  eexists. split.
  - apply (proj1 (batch_search_all_or_nothing
                    (StoreTheorems.fixed_search [0.75; 0.5]%float [1; 0]%Z)
                    StoreTheorems.same_row StoreTheorems.one_minus64
                    (fun queries => Ok (map (fun _ => [1%float]) queries))
                    StoreTheorems.small_store
                    [lit "first query"; lit "second query"] (Some 2%Z)
                    [[1%float]; [1%float]] eq_refl)
             (le_n 2)).
    constructor; [reflexivity|]. constructor; [reflexivity | constructor].
  - reflexivity.
Defined.

End BatchSearchProperties.
